(** * Padel league: round-robin schedule generator and standings engine

    A shallow embedding of
    - [src/utils/scheduleGenerator.ts] ([generateRoundRobinSchedule]),
    - [src/models/ranking.ts] ([updateWithMatchResult]),
    - [src/app/api/matches/[id]/route.ts] (the result validation of [POST]
      and [updateRankings]),
    followed by the properties of the specification proved about them
    (Part II), and of the code around them (Part III): [createLeagueSchedule]
    and the routes of [/api/leagues/[id]/schedule], the methods of
    [src/models/match.ts], the differentials of [src/models/ranking.ts], and
    [POST] with its gates, [PATCH] and [isValidMatchStatusTransition] of
    [src/app/api/matches/[id]/route.ts].

    Conventions.  JavaScript numbers that hold counters, scores and points
    are integers ([Z]); array lengths and loop counters are [nat].  A [Date]
    is its [getTime()] value, milliseconds since the epoch, as a [Z].  An
    [ObjectId] is the string it prints as, and strings are sequences of
    ASCII characters.

    Persistence.  [save()] validates a document against its schema and
    writes it only when it passes.  The validators of the schemas of a match
    and of a league are modelled on the fields the code reads or writes
    ([validate_match], [validate_details], [validate_league]), and a refused
    document is an error of the handler.  [updateRankings] is given twice:
    with the validators of the schema of the rankings
    ([updateRankings_validated]), and as the function of the store that it
    is when every [save()] accepts its document ([updateRankings]), which is
    the case when the scores, the points per win and per loss and the stored
    entries are within that schema ([updateRankings_accepted]).  The
    handlers and the properties of the update are stated on the latter. *)

From Stdlib Require Import List ZArith Lia Bool Ascii String Arith PeanoNat.
From Stdlib Require Import Permutation Sorted FinFun.
Import ListNotations.
Open Scope string_scope.
Open Scope list_scope.

(* ===================================================================== *)
(** * Part I.  Definitions                                                *)
(* ===================================================================== *)

(** ** I.1  [src/utils/scheduleGenerator.ts] *)

Module Schedule.

(** [1000 * 60 * 60 * 24] *)
Definition MS_PER_DAY : Z := (1000 * 60 * 60 * 24)%Z.

(** A [Date] is its epoch time in milliseconds. *)
Definition Date := Z.

(** [d.setDate(d.getDate() + k)] on a copy of [d]: the calendar moves by [k]
    days.  Days are taken to be 24 hours long (a time zone without
    daylight-saving shifts, such as UTC). *)
Definition addDays (d : Date) (k : Z) : Date := (d + k * MS_PER_DAY)%Z.

Inductive MatchStatus :=
| scheduled | in_progress | completed | canceled | postponed.

(** The object literal pushed onto [matches]. *)
Record Fixture := mkFixture {
  league : string;
  teamA : string;
  teamB : string;
  scheduledDate : Date;
  location : option string;
  status : MatchStatus
}.

(** The two [throw new Error(...)] of the generator. *)
Inductive ScheduleError :=
| InsufficientParticipants
    (* 'At least 2 teams are required to generate a schedule' *)
| InsufficientSchedulingWindow (totalDays : Z) (totalMatches : nat)
    (* `Not enough days (${totalDays}) to schedule all matches (${totalMatches})` *).

(** The placeholder pushed for an odd number of teams. *)
Definition dummy : string := "dummy".

(** [Math.floor((end.getTime() - start.getTime()) / (1000*60*60*24))];
    [Z.div] rounds towards minus infinity, as [Math.floor] does. *)
Definition totalDays (startDate endDate : Date) : Z :=
  ((endDate - startDate) / MS_PER_DAY)%Z.

(** [(teamIds.length * (teamIds.length - 1)) / 2]; the product of two
    consecutive numbers is even, so the quotient is exact. *)
Definition totalMatches (len : nat) : nat := (len * (len - 1)) / 2.

(** [Math.floor(totalDays / totalMatches)] *)
Definition daysBetweenMatches (days : Z) (total : nat) : Z :=
  (days / Z.of_nat total)%Z.

(** [teams.pop()]: the removed last element (if any) and what is left. *)
Definition pop (teams : list string) : option string * list string :=
  match rev teams with
  | [] => (None, [])
  | x :: r => (Some x, rev r)
  end.

(** [teams.splice(start, 0, x)]: insert [x] at index [start], clamped to
    the length. *)
Definition splice_insert (start : nat) (x : string) (teams : list string)
  : list string :=
  firstn start teams ++ x :: skipn start teams.

(** [teams.splice(1, 0, teams.pop())].  The generator only rotates lists of
    length at least 2; on the empty list JavaScript would insert
    [undefined], which this model leaves out. *)
Definition rotate (teams : list string) : list string :=
  match pop teams with
  | (Some x, rest) => splice_insert 1 x rest
  | (None, rest) => rest
  end.

(** The state threaded through both loops: [matches] and [matchIndex]. *)
Definition GenState := (list Fixture * nat)%type.

(** Body of the inner loop, for one [i].  [teams[i]] and [teams[n - 1 - i]]
    are always within bounds there. *)
Definition pair_step (leagueId : string) (start : Date) (venue : option string)
    (days_between : Z) (teams : list string) (n : nat)
    (st : GenState) (i : nat) : GenState :=
  let '(matches, matchIndex) := st in
  let team1 := nth i teams EmptyString in
  let team2 := nth (n - 1 - i) teams EmptyString in
  if negb (team1 =? dummy)%string && negb (team2 =? dummy)%string then
    let matchDate := addDays start (Z.of_nat matchIndex * days_between) in
    (matches ++ [mkFixture leagueId team1 team2 matchDate venue scheduled],
     S matchIndex)
  else st.

(** [for (let i = 0; i < n / 2; i++)]: [n / 2] is a real division, so the
    loop runs for the [i] with [2 * i < n], that is [(n + 1) / 2] times. *)
Definition round_loop (leagueId : string) (start : Date) (venue : option string)
    (days_between : Z) (teams : list string) (n : nat) (st : GenState)
  : GenState :=
  fold_left (pair_step leagueId start venue days_between teams n)
            (seq 0 ((n + 1) / 2)) st.

(** [for (let round = 0; round < n - 1; round++)]: one round of pairings,
    then the rotation. *)
Definition rounds_loop (leagueId : string) (start : Date) (venue : option string)
    (days_between : Z) (n : nat) (teams : list string) (st : GenState)
  : list string * GenState :=
  fold_left
    (fun (acc : list string * GenState) (_ : nat) =>
       let '(teams, st) := acc in
       let st' := round_loop leagueId start venue days_between teams n st in
       (rotate teams, st'))
    (seq 0 (n - 1)) (teams, st).

Definition generateRoundRobinSchedule (leagueId : string)
    (teamIds : list string) (startDate endDate : Date) (venue : option string)
  : ScheduleError + list Fixture :=
  if (List.length teamIds <? 2)%nat then inl InsufficientParticipants
  else
    let start := startDate in
    let days := totalDays start endDate in
    let total := totalMatches (List.length teamIds) in
    if (days <? Z.of_nat total)%Z then
      inl (InsufficientSchedulingWindow days total)
    else
      let teams := teamIds in
      let hasDummy := (List.length teams mod 2 =? 1)%nat in
      let teams := if hasDummy then teams ++ [dummy] else teams in
      let n := List.length teams in
      let days_between := daysBetweenMatches days total in
      let '(_, (matches, _)) :=
        rounds_loop leagueId start venue days_between n teams ([], 0) in
      inr matches.

End Schedule.

(** ** I.2  [src/models/ranking.ts] and [src/app/api/matches/[id]/route.ts] *)

Module Standings.

Definition Date := Z.

(** [RankingDocument].  The collection carries a unique index on
    [(league, team)], which identifies a document. *)
Record Ranking := mkRanking {
  league : string;
  team : string;
  rank : nat;
  matchesPlayed : Z;
  matchesWon : Z;
  matchesLost : Z;
  setsWon : Z;
  setsLost : Z;
  gamesWon : Z;
  gamesLost : Z;
  points : Z;
  lastUpdated : Date
}.

(** [rankingSchema.methods.updateWithMatchResult]; [now] is the value of
    [new Date()]. *)
Definition updateWithMatchResult (now : Date) (isWinner : bool)
    (setsWon' setsLost' gamesWon' gamesLost' pointsPerWin pointsPerLoss : Z)
    (this : Ranking) : Ranking :=
  let played := (matchesPlayed this + 1)%Z in
  let '(won, lost, pts) :=
    if isWinner
    then ((matchesWon this + 1)%Z, matchesLost this,
          (points this + pointsPerWin)%Z)
    else (matchesWon this, (matchesLost this + 1)%Z,
          (points this + pointsPerLoss)%Z) in
  mkRanking (league this) (team this) (rank this)
            played won lost
            (setsWon this + setsWon')%Z (setsLost this + setsLost')%Z
            (gamesWon this + gamesWon')%Z (gamesLost this + gamesLost')%Z
            pts now.

(** The [rankings] collection, in insertion order. *)
Definition Rankings := list Ranking.

Definition same_doc (x y : Ranking) : bool :=
  (league x =? league y)%string && (team x =? team y)%string.

(** [RankingModel.findOne({ league, team })] *)
Definition findOne (leagueId teamId : string) (db : Rankings)
  : option Ranking :=
  find (fun r => (league r =? leagueId)%string && (team r =? teamId)%string) db.

(** [RankingModel.find({ league })] *)
Definition find_league (leagueId : string) (db : Rankings) : list Ranking :=
  filter (fun r => (league r =? leagueId)%string) db.

(** [doc.save()]: the stored document is replaced where it is, a new one
    is inserted at the end. *)
Fixpoint save (doc : Ranking) (db : Rankings) : Rankings :=
  match db with
  | [] => [doc]
  | r :: db' => if same_doc r doc then doc :: db' else r :: save doc db'
  end.

(** [new RankingModel({ league, team, matchesPlayed: 0, ... })]; the schema
    defaults give [rank = 1] and [lastUpdated = Date.now]. *)
Definition newRanking (now : Date) (leagueId teamId : string) : Ranking :=
  mkRanking leagueId teamId 1 0 0 0 0 0 0 0 0 now.

(** The validators of [rankingSchema]: [min: [1, ...]] on [rank] and
    [min: [0, ...]] on the counters and on [points]. *)
Definition validate_ranking (this : Ranking) : bool :=
  (1 <=? rank this)%nat
  && (0 <=? matchesPlayed this)%Z && (0 <=? matchesWon this)%Z
  && (0 <=? matchesLost this)%Z
  && (0 <=? setsWon this)%Z && (0 <=? setsLost this)%Z
  && (0 <=? gamesWon this)%Z && (0 <=? gamesLost this)%Z
  && (0 <=? points this)%Z.

(** [xs[index]], [None] for [undefined]. *)
Definition at_index (xs : list Z) (index : nat) : option Z := nth_error xs index.

(** [x > y] on numbers that may be [undefined]: a comparison with
    [undefined] is false. *)
Definition js_gt (x y : option Z) : bool :=
  match x, y with
  | Some a, Some b => (a >? b)%Z
  | _, _ => false
  end.

(** [xs.filter((score, index) => p(score, index))], from [index] on. *)
Fixpoint filter_indexed (p : Z -> nat -> bool) (index : nat) (xs : list Z)
  : list Z :=
  match xs with
  | [] => []
  | score :: xs' =>
      if p score index then score :: filter_indexed p (S index) xs'
      else filter_indexed p (S index) xs'
  end.

(** [mine.filter((score, index) => score > theirs[index]).length] *)
Definition setsWonBy (mine theirs : list Z) : Z :=
  Z.of_nat (List.length
    (filter_indexed (fun score index => js_gt (Some score) (at_index theirs index))
                    0 mine)).

(** [scores.reduce((sum, score) => sum + score, 0)] *)
Definition gamesWonBy (scores : list Z) : Z :=
  fold_left (fun sum score => (sum + score)%Z) scores 0%Z.

(** The order of [.sort({ points: -1, matchesWon: -1 })]: [x] comes
    strictly before [y]. *)
Definition sorts_before (x y : Ranking) : bool :=
  (points x >? points y)%Z
  || ((points x =? points y)%Z && (matchesWon x >? matchesWon y)%Z).

Fixpoint insert_sorted (x : Ranking) (l : list Ranking) : list Ranking :=
  match l with
  | [] => [x]
  | y :: l' => if sorts_before y x then y :: insert_sorted x l'
               else x :: y :: l'
  end.

(** [.sort({ points: -1, matchesWon: -1 })].  The database does not say how
    it orders documents that agree on both keys; here they keep the order
    of the collection. *)
Definition sort_rankings (l : list Ranking) : list Ranking :=
  fold_right insert_sorted [] l.

Definition set_rank (k : nat) (r : Ranking) : Ranking :=
  mkRanking (league r) (team r) k
            (matchesPlayed r) (matchesWon r) (matchesLost r)
            (setsWon r) (setsLost r) (gamesWon r) (gamesLost r)
            (points r) (lastUpdated r).

(** [for (let i = 0; i < allRankings.length; i++)
       { allRankings[i].rank = i + 1; await allRankings[i].save(); }],
    from index [i] on. *)
Fixpoint assign_ranks (i : nat) (allRankings : list Ranking) (db : Rankings)
  : Rankings :=
  match allRankings with
  | [] => db
  | r :: rest => assign_ranks (S i) rest (save (set_rank (i + 1) r) db)
  end.

(** One side of [updateRankings]: find or create, update, save. *)
Definition update_side (now : Date) (leagueId teamId : string)
    (isWinner : bool) (setsWon' setsLost' gamesWon' gamesLost' : Z)
    (pointsPerWin pointsPerLoss : Z) (db : Rankings) : Rankings :=
  let ranking :=
    match findOne leagueId teamId db with
    | Some r => r
    | None => newRanking now leagueId teamId
    end in
  save (updateWithMatchResult now isWinner setsWon' setsLost'
          gamesWon' gamesLost' pointsPerWin pointsPerLoss ranking) db.

(** [updateRankings], as the function of the store that it is when every
    [save()] accepts its document; [updateRankings_validated] below has the
    validators. *)
Definition updateRankings (now : Date) (leagueId teamAId teamBId winnerId : string)
    (teamAScore teamBScore : list Z) (pointsPerWin pointsPerLoss : Z)
    (db : Rankings) : Rankings :=
  let teamASetsWon := setsWonBy teamAScore teamBScore in
  let teamBSetsWon := setsWonBy teamBScore teamAScore in
  let teamAGamesWon := gamesWonBy teamAScore in
  let teamBGamesWon := gamesWonBy teamBScore in
  let db := update_side now leagueId teamAId (winnerId =? teamAId)%string
              teamASetsWon teamBSetsWon teamAGamesWon teamBGamesWon
              pointsPerWin pointsPerLoss db in
  let db := update_side now leagueId teamBId (winnerId =? teamBId)%string
              teamBSetsWon teamASetsWon teamBGamesWon teamAGamesWon
              pointsPerWin pointsPerLoss db in
  let allRankings := sort_rankings (find_league leagueId db) in
  assign_ranks 0 allRankings db.

(** [updateRankings] with the validators that every [save()] runs: a
    document that fails them is refused, the function throws, and the
    documents written before stay written.  The result is the store that is
    left and whether every document was accepted. *)
Definition save_validated (doc : Ranking) (db : Rankings) : option Rankings :=
  if validate_ranking doc then Some (save doc db) else None.

Definition update_side_validated (now : Date) (leagueId teamId : string)
    (isWinner : bool) (setsWon' setsLost' gamesWon' gamesLost' : Z)
    (pointsPerWin pointsPerLoss : Z) (db : Rankings) : option Rankings :=
  let ranking :=
    match findOne leagueId teamId db with
    | Some r => r
    | None => newRanking now leagueId teamId
    end in
  save_validated (updateWithMatchResult now isWinner setsWon' setsLost'
                    gamesWon' gamesLost' pointsPerWin pointsPerLoss ranking) db.

Fixpoint assign_ranks_validated (i : nat) (allRankings : list Ranking)
    (db : Rankings) : Rankings * bool :=
  match allRankings with
  | [] => (db, true)
  | r :: rest =>
      match save_validated (set_rank (i + 1) r) db with
      | Some db' => assign_ranks_validated (S i) rest db'
      | None => (db, false)
      end
  end.

Definition updateRankings_validated (now : Date)
    (leagueId teamAId teamBId winnerId : string)
    (teamAScore teamBScore : list Z) (pointsPerWin pointsPerLoss : Z)
    (db : Rankings) : Rankings * bool :=
  let teamASetsWon := setsWonBy teamAScore teamBScore in
  let teamBSetsWon := setsWonBy teamBScore teamAScore in
  let teamAGamesWon := gamesWonBy teamAScore in
  let teamBGamesWon := gamesWonBy teamBScore in
  match update_side_validated now leagueId teamAId (winnerId =? teamAId)%string
          teamASetsWon teamBSetsWon teamAGamesWon teamBGamesWon
          pointsPerWin pointsPerLoss db with
  | None => (db, false)
  | Some db1 =>
      match update_side_validated now leagueId teamBId (winnerId =? teamBId)%string
              teamBSetsWon teamASetsWon teamBGamesWon teamAGamesWon
              pointsPerWin pointsPerLoss db1 with
      | None => (db1, false)
      | Some db2 =>
          let allRankings := sort_rankings (find_league leagueId db2) in
          assign_ranks_validated 0 allRankings db2
      end
  end.

End Standings.

(** ** I.3  [POST] of [src/app/api/matches/[id]/route.ts], result submission *)

Module MatchRoute.

Import Standings.

(** [match.result] *)
Record MatchResult := mkMatchResult {
  teamAScore : list Z;
  teamBScore : list Z;
  winner : string
}.

(** The fields of [MatchDocument] that the handler reads or writes, or
    that a validator of a written field reads. *)
Record Match := mkMatch {
  league : string;
  teamA : string;
  teamB : string;
  status : Schedule.MatchStatus;
  result : option MatchResult;
  actualStartTime : option Date;
  actualEndTime : option Date;
  notes : option string;
  submittedBy : option string
}.

(** The validators of [matchSchema] ([src/models/match.ts]) on these
    fields.  A validator is not run on a value that is [undefined].  The
    validator of [scheduledTime], a field this handler leaves alone, reads
    that field only; it comes with [PATCH], which writes the field. *)

(** [scores.every(score => score >= 0)] *)
Definition scores_ok (scores : list Z) : bool :=
  forallb (fun score => (score >=? 0)%Z) scores.

(** [!winner || winner.equals(this.teamA) || winner.equals(this.teamB)] *)
Definition winner_ok (this : Match) (winner : string) : bool :=
  (winner =? teamA this)%string || (winner =? teamB this)%string.

Definition result_ok (this : Match) : bool :=
  match result this with
  | None => true
  | Some r =>
      scores_ok (teamAScore r) && scores_ok (teamBScore r)
      && winner_ok this (winner r)
  end.

(** [!this.actualStartTime || !endTime || endTime > this.actualStartTime] *)
Definition end_time_ok (this : Match) : bool :=
  match actualEndTime this with
  | None => true
  | Some endTime =>
      match actualStartTime this with
      | None => true
      | Some startTime => (endTime >? startTime)%Z
      end
  end.

(** [maxlength: [500, ...]] *)
Definition notes_ok (this : Match) : bool :=
  match notes this with
  | None => true
  | Some n => (String.length n <=? 500)%nat
  end.

(** What [match.save()] checks before it writes. *)
Definition validate_match (this : Match) : bool :=
  result_ok this && end_time_ok this && notes_ok this.

(** The fields of [LeagueDocument] the handler reads. *)
Record League := mkLeague {
  _id : string;
  pointsPerWin : Z;
  pointsPerLoss : Z
}.

(** [SubmitMatchResultRequest], as parsed from the request body: a score
    array may be missing. *)
Record SubmitMatchResultRequest := mkRequest {
  req_teamAScore : option (list Z);
  req_teamBScore : option (list Z);
  req_notes : option string
}.

(** The errors thrown while validating the scores, and the validation
    error of [match.save()], which the route answers with status 500. *)
Inductive SubmitError :=
| ScoresRequired     (* 'Scores for both teams are required' *)
| SetCountMismatch   (* 'Scores must have the same number of sets' *)
| NoSets             (* 'At least one set must be played' *)
| TiedSet            (* 'Ties are not allowed in sets' *)
| NoWinner           (* 'Match must have a winner' *)
| SaveRefused        (* [match.save()] rejecting the document *).

(** The stored state the handler works on: the match document and the
    [rankings] collection. *)
Record Db := mkDb {
  match_doc : Match;
  rankings : Rankings
}.

(** Handlers read and write the store and may throw: the store reached
    when the handler stops is part of the outcome. *)
Definition Handler (A : Type) : Type := Db -> Db * (SubmitError + A).

Definition ret {A} (a : A) : Handler A := fun db => (db, inr a).

Definition throw {A} (e : SubmitError) : Handler A := fun db => (db, inl e).

Definition bind {A B} (m : Handler A) (k : A -> Handler B) : Handler B :=
  fun db =>
    match m db with
    | (db', inr a) => k a db'
    | (db', inl e) => (db', inl e)
    end.

Definition get : Handler Db := fun db => (db, inr db).

Definition put (db' : Db) : Handler unit := fun _ => (db', inr tt).

Notation "x <- m ;; k" := (bind m (fun x => k))
  (at level 61, m at next level, right associativity).
Notation "m ;;; k" := (bind m (fun _ => k))
  (at level 61, right associativity).

(** The loop that counts set wins, over the indices [idxs]; a set that
    neither side wins throws. *)
Fixpoint count_wins (a b : list Z) (idxs : list nat) (teamAWins teamBWins : nat)
  : Handler (nat * nat) :=
  match idxs with
  | [] => ret (teamAWins, teamBWins)
  | i :: rest =>
      if js_gt (at_index a i) (at_index b i)
      then count_wins a b rest (S teamAWins) teamBWins
      else if js_gt (at_index b i) (at_index a i)
      then count_wins a b rest teamAWins (S teamBWins)
      else throw TiedSet
  end.

(** [data.notes || match.notes]: an absent or empty string is falsy. *)
Definition notes_or (new old : option string) : option string :=
  match new with
  | Some EmptyString => old
  | Some s => Some s
  | None => old
  end.

(** The handler from "Validate match scores" to the call of
    [updateRankings].  What precedes it in [POST] (session, look-ups, the
    status gate and the authorization gate) reads the store only; [userId]
    is [session.user.id] and [lg] the league found for the match.
    [match.save()] validates the document and writes it only when it
    passes; the [save()] calls of [updateRankings] are taken to accept
    their documents. *)
Definition submitResult (now : Date) (userId : string) (lg : League)
    (data : SubmitMatchResultRequest) : Handler unit :=
  match req_teamAScore data, req_teamBScore data with
  | Some a, Some b =>
      if negb (List.length a =? List.length b)%nat then throw SetCountMismatch
      else if (List.length a =? 0)%nat then throw NoSets
      else
        wins <- count_wins a b (seq 0 (List.length a)) 0 0 ;;
        let '(teamAWins, teamBWins) := wins in
        db <- get ;;
        let m := match_doc db in
        winnerId <-
          (if (teamBWins <? teamAWins)%nat then ret (teamA m)
           else if (teamAWins <? teamBWins)%nat then ret (teamB m)
           else throw NoWinner) ;;
        let m' := mkMatch (league m) (teamA m) (teamB m)
                    Schedule.completed
                    (Some (mkMatchResult a b winnerId))
                    (actualStartTime m)
                    (Some now)
                    (notes_or (req_notes data) (notes m))
                    (Some userId) in
        (if validate_match m' then put (mkDb m' (rankings db))
         else throw SaveRefused) ;;;
        db <- get ;;
        put (mkDb (match_doc db)
               (updateRankings now (_id lg) (teamA m') (teamB m') winnerId
                  a b (pointsPerWin lg) (pointsPerLoss lg) (rankings db)))
  | _, _ => throw ScoresRequired
  end.

End MatchRoute.

(** ** I.4  Notions used to state and prove the properties *)

Module RoundRobin.

Import Schedule.

(** The index, in the working list the rounds start from, of the team
    that sits at position [p] after [r] rotations; the list has [M + 1]
    elements. *)
Definition src (M r p : nat) : nat :=
  if (p =? 0)%nat then 0
  else if (r <? p)%nat then p - r
  else M + p - r.

(** The pair of indices that meet in round [r], inner iteration [i]. *)
Definition slot (M : nat) (ri : nat * nat) : nat * nat :=
  (src M (fst ri) (snd ri), src M (fst ri) (M - snd ri)).

(** All [(round, i)] in the order the loops visit them. *)
Definition visits (M : nat) : list (nat * nat) :=
  list_prod (seq 0 M) (seq 0 ((M + 2) / 2)).

(** An unordered pair of indices, smaller index first. *)
Definition norm (ab : nat * nat) : nat * nat :=
  (Nat.min (fst ab) (snd ab), Nat.max (fst ab) (snd ab)).

(** The unordered pair of indices that meet at the visit [v]. *)
Definition meet (M : nat) (v : nat * nat) : nat * nat := norm (slot M v).

(** All pairs [(a, b)] with [a < b < n]. *)
Definition all_pairs (n : nat) : list (nat * nat) :=
  flat_map (fun b => map (fun a => (a, b)) (seq 0 b)) (seq 0 n).

Definition pair_eqb (x y : nat * nat) : bool :=
  ((fst x =? fst y) && (snd x =? snd y))%nat.

(** The teams read by the inner loop at iteration [i]. *)
Definition pair_at (teams : list string) (n i : nat) : string * string :=
  (nth i teams EmptyString, nth (n - 1 - i) teams EmptyString).

(** The test [team1 !== 'dummy' && team2 !== 'dummy']. *)
Definition keep (p : string * string) : bool :=
  negb (fst p =? dummy)%string && negb (snd p =? dummy)%string.

(** The fixtures pushed for the pairs [ps], the first with [matchIndex = k]. *)
Fixpoint fixtures_from (leagueId : string) (start : Date)
    (venue : option string) (days_between : Z) (k : nat)
    (ps : list (string * string)) : list Fixture :=
  match ps with
  | [] => []
  | p :: ps' =>
      mkFixture leagueId (fst p) (snd p)
        (addDays start (Z.of_nat k * days_between)) venue scheduled
      :: fixtures_from leagueId start venue days_between (S k) ps'
  end.

(** The pairs read in the rounds [0 .. rounds - 1], in order. *)
Definition pairs_read (teams : list string) (n rounds : nat)
  : list (string * string) :=
  flat_map (fun r => map (pair_at (Nat.iter r rotate teams) n)
                         (seq 0 ((n + 1) / 2)))
           (seq 0 rounds).

(** The fixture [f] is played between [x] and [y], in either order. *)
Definition plays (x y : string) (f : Fixture) : bool :=
  ((teamA f =? x)%string && (teamB f =? y)%string)
  || ((teamA f =? y)%string && (teamB f =? x)%string).

(** The fixture [f] involves the team [x]. *)
Definition involves (x : string) (f : Fixture) : bool :=
  (teamA f =? x)%string || (teamB f =? x)%string.

(** [teams[j]] *)
Definition team_at (teams : list string) (j : nat) : string :=
  nth j teams EmptyString.

(** The teams found at the pair of indices [ab] of the list [teams]. *)
Definition teams_at (teams : list string) (ab : nat * nat) : string * string :=
  (team_at teams (fst ab), team_at teams (snd ab)).

(** [p] is the pair of [x] and [y], in either order. *)
Definition pair_of (x y : string) (p : string * string) : bool :=
  ((fst p =? x)%string && (snd p =? y)%string)
  || ((fst p =? y)%string && (snd p =? x)%string).
(** The list the rounds start from: [teamIds], with ['dummy'] pushed when
    the length is odd. *)
Definition working_list (teamIds : list string) : list string :=
  if (List.length teamIds mod 2 =? 1)%nat then teamIds ++ [dummy] else teamIds.

(** The claim of a round robin over [teamIds]. *)
Definition round_robin (teamIds : list string) (fixtures : list Fixture) : Prop :=
  List.length fixtures = List.length teamIds * (List.length teamIds - 1) / 2
  /\ (forall x y, In x teamIds -> In y teamIds -> x <> y ->
        List.length (filter (plays x y) fixtures) = 1)
  /\ (forall f, In f fixtures -> teamA f <> teamB f)
  /\ (forall f, In f fixtures -> involves dummy f = false).

(** The scheduling-window precondition. *)
Definition window_ok (teamIds : list string) (startDate endDate : Date) : Prop :=
  (Z.of_nat (totalMatches (List.length teamIds)) <= totalDays startDate endDate)%Z.
(** The three outcomes of the generator. *)
Definition fails_for_participants (r : ScheduleError + list Fixture) : Prop :=
  r = inl InsufficientParticipants.

Definition fails_for_window (r : ScheduleError + list Fixture) : Prop :=
  exists days total, r = inl (InsufficientSchedulingWindow days total).

Definition succeeds (r : ScheduleError + list Fixture) : Prop :=
  exists fixtures, r = inr fixtures.

(** What a fixture says besides the league it belongs to. *)
Definition pairing (f : Fixture)
  : string * string * Date * option string * MatchStatus :=
  (teamA f, teamB f, scheduledDate f, location f, status f).

Definition pairings (r : ScheduleError + list Fixture)
  : ScheduleError + list (string * string * Date * option string * MatchStatus) :=
  match r with
  | inl e => inl e
  | inr fixtures => inr (map pairing fixtures)
  end.
End RoundRobin.

(** ** I.5  Notions used to state the properties of the standings *)

Module Ledger.
Import Standings.

(** The identity of a document under the unique index. *)
Definition key (r : Ranking) : string * string := (league r, team r).

Definition keys (db : Rankings) : list (string * string) := map key db.

(** The entry the update of one side starts from: the stored one, or a
    zeroed one. *)
Definition entry_or_zero (now : Date) (leagueId teamId : string) (db : Rankings)
  : Ranking :=
  match findOne leagueId teamId db with
  | Some r => r
  | None => newRanking now leagueId teamId
  end.

(** What an entry gained between two states: matches played, won and
    lost, points, sets won and lost, games won and lost. *)
Definition gained (before after : Ranking) : Z * Z * Z * Z * Z * Z * Z * Z :=
  (matchesPlayed after - matchesPlayed before,
   matchesWon after - matchesWon before,
   matchesLost after - matchesLost before,
   points after - points before,
   setsWon after - setsWon before,
   setsLost after - setsLost before,
   gamesWon after - gamesWon before,
   gamesLost after - gamesLost before)%Z.

(** Set wins of one side: the sets in which its score is the larger one. *)
Definition set_wins (mine theirs : list Z) : Z :=
  Z.of_nat (List.length
              (filter (fun p => (fst p >? snd p)%Z) (combine mine theirs))).

(** Games of one side: the sum of its set scores. *)
Definition games (scores : list Z) : Z := fold_right Z.add 0%Z scores.

(** Some set has the same score on both sides. *)
Definition has_tied_set (a b : list Z) : Prop :=
  exists i x, nth_error a i = Some x /\ nth_error b i = Some x.

(** The [MatchResult] invariant of the specification. *)
Definition valid_result (a b : list Z) : Prop :=
  List.length a = List.length b
  /\ a <> []
  /\ ~ has_tied_set a b
  /\ set_wins a b <> set_wins b a.

(** The order of the ranking: more points first, then more matches won. *)
Definition in_rank_order (x y : Ranking) : Prop :=
  (points x > points y)%Z
  \/ (points x = points y /\ matchesWon x >= matchesWon y)%Z.

(** The documents of [allRankings] with the ranks the loop gives them,
    the first one getting [i + 1]. *)
Fixpoint ranked (i : nat) (allRankings : list Ranking) : list Ranking :=
  match allRankings with
  | [] => []
  | r :: rest => set_rank (i + 1) r :: ranked (S i) rest
  end.
End Ledger.

Module Validation.

Import Standings MatchRoute Ledger.

(** The errors of the specification's [InvalidResult]. *)
Definition invalid_result_error (e : SubmitError) : Prop :=
  e = SetCountMismatch \/ e = NoSets \/ e = TiedSet \/ e = NoWinner.

(** The counting loop on the pairs of scores it reads. *)
Fixpoint tally (sets : list (option Z * option Z)) (teamAWins teamBWins : nat)
  : SubmitError + (nat * nat) :=
  match sets with
  | [] => inr (teamAWins, teamBWins)
  | s :: rest =>
      if js_gt (fst s) (snd s) then tally rest (S teamAWins) teamBWins
      else if js_gt (snd s) (fst s) then tally rest teamAWins (S teamBWins)
      else inl TiedSet
  end.

Definition both (p : Z * Z) : option Z * option Z := (Some (fst p), Some (snd p)).

Definition a_wins (p : Z * Z) : bool := (fst p >? snd p)%Z.
Definition b_wins (p : Z * Z) : bool := (snd p >? fst p)%Z.
Definition tied (p : Z * Z) : bool := (fst p =? snd p)%Z.

(** The document of a match whose result was recorded with [winnerId] as
    the winner. *)
Definition completed_match (now : Date) (userId : string)
    (notes' : option string) (a b : list Z) (winnerId : string) (m : Match)
  : Match :=
  mkMatch (MatchRoute.league m) (teamA m) (teamB m) Schedule.completed
          (Some (mkMatchResult a b winnerId)) (actualStartTime m) (Some now)
          (notes_or notes' (notes m)) (Some userId).

(** The store after a submission that was accepted with [winnerId] as
    the winner. *)
Definition accepted (now : Date) (userId : string) (lg : League)
    (notes' : option string) (a b : list Z) (winnerId : string) (db : Db) : Db :=
  let m := match_doc db in
  mkDb (completed_match now userId notes' a b winnerId m)
       (updateRankings now (_id lg) (teamA m) (teamB m) winnerId a b
          (pointsPerWin lg) (pointsPerLoss lg) (rankings db)).

(** The conditions under which the documents of a submission pass their
    schemas: no score is negative, the notes kept for the match have at
    most 500 characters, and a recorded start lies before [now]. *)
Definition nonnegative (scores : list Z) : Prop :=
  Forall (fun score => (0 <= score)%Z) scores.

Definition notes_fit (notes' : option string) (m : Match) : Prop :=
  match notes_or notes' (notes m) with
  | None => True
  | Some n => String.length n <= 500
  end.

Definition started_before (now : Date) (m : Match) : Prop :=
  match actualStartTime m with
  | None => True
  | Some startTime => (startTime < now)%Z
  end.

Definition storable (now : Date) (notes' : option string) (a b : list Z)
    (m : Match) : Prop :=
  nonnegative a /\ nonnegative b /\ notes_fit notes' m /\ started_before now m.

End Validation.

(** ** I.6  [createLeagueSchedule] and the routes of
    [/api/leagues/[id]/schedule] *)

Module LeagueStatus.
Inductive t := draft | registration | active | completed | canceled.
End LeagueStatus.

Module ScheduleRoute.

Import Schedule.

(** The fields of [LeagueDocument] the schedule code reads or writes. *)
Record League := mkLeague {
  _id : string;
  organizer : string;
  status : LeagueStatus.t;
  teams : list string;
  startDate : Date;
  endDate : Date;
  venue : option string;
  scheduleGenerated : bool
}.

(** The [leagues] and [matches] collections. *)
Record Db := mkDb {
  leagues : list League;
  matches : list Fixture
}.

(** The errors thrown by [createLeagueSchedule] and by the two routes, by
    message; [Unauthorized] is the 401 answer given without a session. *)
Inductive RouteError :=
| Unauthorized
| LeagueNotFound        (* 'League not found' *)
| NotOrganizerGenerate  (* 'Only the league organizer can generate a schedule' *)
| NotOrganizerClear     (* 'Only the league organizer can clear a schedule' *)
| StatusNoGenerate      (* 'Schedule can only be generated for leagues in draft or registration status' *)
| StatusNoClear         (* 'Schedule can only be cleared for leagues in draft or registration status' *)
| ScheduleExists        (* 'Schedule already exists for this league' *)
| TooFewTeams           (* 'League must have at least 2 teams to generate a schedule' *)
| AlreadyGenerated      (* 'Schedule has already been generated for this league' *)
| Generator (e : ScheduleError)
| LeagueSaveRefused     (* [league.save()] rejecting the document; answered with status 500 *).

(** A request handler: the store it leaves and its answer. *)
Definition Action (A : Type) : Type := Db -> Db * (RouteError + A).

(** [LeagueModel.findById(leagueId)] *)
Definition findById (leagueId : string) (db : Db) : option League :=
  find (fun l => (_id l =? leagueId)%string) (leagues db).

(** [league.save()] of a document that was found: it replaces the stored
    one. *)
Fixpoint save_league (doc : League) (ls : list League) : list League :=
  match ls with
  | [] => [doc]
  | l :: ls' => if (_id l =? _id doc)%string then doc :: ls'
                else l :: save_league doc ls'
  end.

(** [MatchModel.countDocuments({ league: leagueId })] *)
Definition countDocuments (leagueId : string) (db : Db) : nat :=
  List.length (filter (fun f => (league f =? leagueId)%string) (matches db)).

(** [MatchModel.deleteMany({ league: leagueId })] *)
Definition deleteMany (leagueId : string) (ms : list Fixture) : list Fixture :=
  filter (fun f => negb (league f =? leagueId)%string) ms.

Definition set_generated (flag : bool) (l : League) : League :=
  mkLeague (_id l) (organizer l) (status l) (teams l) (startDate l) (endDate l)
           (venue l) flag.

(** The validators of [leagueSchema] on these fields, as [league.save()]
    runs them before it writes; [now] is the value of [new Date()]:
    [startDate >= new Date()] ('Start date must be in the future') and
    [this.startDate && endDate > this.startDate].  The validators of the
    fields left out here read neither the clock nor a field written by this
    code, and are taken to pass as they did when the document was stored. *)
Definition validate_league (now : Date) (this : League) : bool :=
  (startDate this >=? now)%Z && (endDate this >? startDate this)%Z.

(** [createLeagueSchedule]; the team ids of the league are strings here, as
    in the generator.  [insertMany] writes the fixtures, which carry every
    field the schema of a match requires; [league.save()] comes after it and
    can still refuse the league. *)
Definition createLeagueSchedule (now : Date) (leagueId : string)
  : Action (list Fixture) :=
  fun db =>
    match findById leagueId db with
    | None => (db, inl LeagueNotFound)
    | Some league =>
        if (List.length (teams league) <? 2)%nat then (db, inl TooFewTeams)
        else if scheduleGenerated league then (db, inl AlreadyGenerated)
        else
          match generateRoundRobinSchedule leagueId (teams league)
                  (startDate league) (endDate league) (venue league) with
          | inl e => (db, inl (Generator e))
          | inr matchData =>
              (* insertMany *)
              let createdMatches := matchData in
              let db := mkDb (leagues db) (matches db ++ createdMatches) in
              (* league.scheduleGenerated = true; await league.save() *)
              let league := set_generated true league in
              if validate_league now league
              then (mkDb (save_league league (leagues db)) (matches db),
                    inr createdMatches)
              else (db, inl LeagueSaveRefused)
          end
    end.

Definition schedulable (s : LeagueStatus.t) : bool :=
  match s with
  | LeagueStatus.draft | LeagueStatus.registration => true
  | _ => false
  end.

(** [POST /api/leagues/[id]/schedule]; [session] is [session.user.id]
    when there is a session. *)
Definition POST (now : Date) (session : option string) (leagueId : string)
  : Action (list Fixture) :=
  fun db =>
    match session with
    | None => (db, inl Unauthorized)
    | Some user =>
        match findById leagueId db with
        | None => (db, inl LeagueNotFound)
        | Some league =>
            if negb (organizer league =? user)%string
            then (db, inl NotOrganizerGenerate)
            else if negb (schedulable (status league))
            then (db, inl StatusNoGenerate)
            else if (0 <? countDocuments leagueId db)%nat
            then (db, inl ScheduleExists)
            else if (List.length (teams league) <? 2)%nat
            then (db, inl TooFewTeams)
            else createLeagueSchedule now leagueId db
        end
    end.

(** [DELETE /api/leagues/[id]/schedule]: the matches are deleted before
    [league.save()] validates the league. *)
Definition DELETE (now : Date) (session : option string) (leagueId : string)
  : Action unit :=
  fun db =>
    match session with
    | None => (db, inl Unauthorized)
    | Some user =>
        match findById leagueId db with
        | None => (db, inl LeagueNotFound)
        | Some league =>
            if negb (organizer league =? user)%string
            then (db, inl NotOrganizerClear)
            else if negb (schedulable (status league))
            then (db, inl StatusNoClear)
            else
              (* deleteMany *)
              let db := mkDb (leagues db) (deleteMany leagueId (matches db)) in
              (* league.scheduleGenerated = false; await league.save() *)
              let league := set_generated false league in
              if validate_league now league
              then (mkDb (save_league league (leagues db)) (matches db), inr tt)
              else (db, inl LeagueSaveRefused)
        end
    end.

End ScheduleRoute.

(** ** I.7  The methods of [src/models/match.ts] *)

Module MatchMethods.

Import Standings MatchRoute.

(** The loop of [hasValidResult] and [calculateWinner]: it counts the sets
    each side wins and passes over a set that nobody wins. *)
Fixpoint count_sets (a b : list Z) (idxs : list nat) (teamAWins teamBWins : nat)
  : nat * nat :=
  match idxs with
  | [] => (teamAWins, teamBWins)
  | i :: rest =>
      if js_gt (at_index a i) (at_index b i)
      then count_sets a b rest (S teamAWins) teamBWins
      else if js_gt (at_index b i) (at_index a i)
      then count_sets a b rest teamAWins (S teamBWins)
      else count_sets a b rest teamAWins teamBWins
  end.

(** [matchSchema.methods.hasValidResult] *)
Definition hasValidResult (this : Match) : bool :=
  match result this with
  | None => false
  | Some r =>
      if negb (List.length (teamAScore r) =? List.length (teamBScore r))%nat
      then false
      else if (List.length (teamAScore r) =? 0)%nat then false
      else
        let '(teamAWins, teamBWins) :=
          count_sets (teamAScore r) (teamBScore r)
                     (seq 0 (List.length (teamAScore r))) 0 0 in
        negb (teamAWins =? teamBWins)%nat
  end.

(** [matchSchema.methods.calculateWinner]; [None] is [null]. *)
Definition calculateWinner (this : Match) : option string :=
  if negb (hasValidResult this) then None
  else
    match result this with
    | None => None
    | Some r =>
        let '(teamAWins, teamBWins) :=
          count_sets (teamAScore r) (teamBScore r)
                     (seq 0 (List.length (teamAScore r))) 0 0 in
        if (teamBWins <? teamAWins)%nat then Some (teamA this)
        else if (teamAWins <? teamBWins)%nat then Some (teamB this)
        else None
    end.

End MatchMethods.

(** ** I.8  [POST] of [src/app/api/matches/[id]/route.ts], with its gates *)

Module SubmitRoute.

Import Standings MatchRoute.

(** What the handler finds before it validates the scores. *)
Record Context := mkContext {
  session : option string;      (* [session.user.id], when there is a session *)
  league : option League;       (* [LeagueModel.findById(match.league)] *)
  organizer : string;           (* [league.organizer.toString()] *)
  teamsFound : bool;            (* [teamA && teamB], from [TeamModel.findById] *)
  isTeamAMember : bool;
  isTeamBMember : bool
}.

Inductive PostError :=
| Unauthorized          (* the 401 answer given without a session *)
| LeagueNotFound        (* 'League not found' *)
| StatusNotAllowed      (* 'Results can only be submitted for scheduled or in-progress matches' *)
| TeamsNotFound         (* 'One or both teams not found' *)
| NotAllowed            (* 'Only league organizers or team members can submit results' *)
| Invalid (e : SubmitError)
                        (* the errors of the score validation and of [match.save()] *).

(** The handler for a match that was found; the two membership tests are
    taken as they evaluate. *)
Definition POST (now : Date) (ctx : Context) (data : SubmitMatchResultRequest)
  : Db -> Db * (PostError + unit) :=
  fun db =>
    match session ctx with
    | None => (db, inl Unauthorized)
    | Some user =>
        match league ctx with
        | None => (db, inl LeagueNotFound)
        | Some lg =>
            match status (match_doc db) with
            | Schedule.in_progress | Schedule.scheduled =>
                let isLeagueOrganizer := (organizer ctx =? user)%string in
                if negb (teamsFound ctx) then (db, inl TeamsNotFound)
                else if negb isLeagueOrganizer && negb (isTeamAMember ctx)
                        && negb (isTeamBMember ctx)
                then (db, inl NotAllowed)
                else
                  match submitResult now user lg data db with
                  | (db', inl e) => (db', inl (Invalid e))
                  | (db', inr tt) => (db', inr tt)
                  end
            | _ => (db, inl StatusNotAllowed)
            end
        end
    end.

End SubmitRoute.

(** ** I.9  The differentials of [src/models/ranking.ts] *)

Module RankingMethods.

Import Standings.

(** [rankingSchema.methods.getSetDifferential] *)
Definition getSetDifferential (this : Ranking) : Z := (setsWon this - setsLost this)%Z.

(** [rankingSchema.methods.getGameDifferential] *)
Definition getGameDifferential (this : Ranking) : Z :=
  (gamesWon this - gamesLost this)%Z.

(** The sum of [f] over the entries of a league. *)
Definition league_total (f : Ranking -> Z) (leagueId : string) (db : Rankings) : Z :=
  fold_right (fun r acc => (f r + acc)%Z) 0%Z (find_league leagueId db).

(** Matches won minus matches lost. *)
Definition match_balance (r : Ranking) : Z := (matchesWon r - matchesLost r)%Z.

End RankingMethods.

(** ** I.10  [PATCH] of [src/app/api/matches/[id]/route.ts] and
    [isValidMatchStatusTransition] *)

Module PatchRoute.

Import Standings MatchRoute.
Import Schedule(MatchStatus, scheduled, in_progress, completed, canceled, postponed).

(** The string a status is stored as. *)
Definition status_name (s : MatchStatus) : string :=
  match s with
  | scheduled => "scheduled"
  | in_progress => "in_progress"
  | completed => "completed"
  | canceled => "canceled"
  | postponed => "postponed"
  end.

(** The table [validTransitions]. *)
Definition validTransitions (currentStatus : MatchStatus) : list MatchStatus :=
  match currentStatus with
  | scheduled => [in_progress; postponed; canceled]
  | in_progress => [completed; postponed; canceled]
  | completed => []
  | canceled => []
  | postponed => [scheduled; canceled]
  end.

(** [validTransitions[currentStatus]?.includes(newStatus) || false]; the
    current status is one of the schema's five, the new one is whatever
    string the request carries. *)
Definition isValidMatchStatusTransition (currentStatus : MatchStatus)
    (newStatus : string) : bool :=
  existsb (fun t => (status_name t =? newStatus)%string)
          (validTransitions currentStatus).

(** The status a string names, if any. *)
Definition status_of_name (s : string) : option MatchStatus :=
  find (fun t => (status_name t =? s)%string)
       [scheduled; in_progress; completed; canceled; postponed].

(** A match document with the further fields that [PATCH] writes. *)
Record MatchDetails := mkDetails {
  base : Match;
  scheduledDate : Date;
  scheduledTime : option string;
  location : option string
}.

(** [c] is one of the characters from [lo] to [hi]. *)
Definition char_in (lo hi c : ascii) : bool :=
  (nat_of_ascii lo <=? nat_of_ascii c)%nat
  && (nat_of_ascii c <=? nat_of_ascii hi)%nat.

(** [/^([01]\d|2[0-3]):([0-5]\d)$/.test(v)] *)
Definition time_format (v : string) : bool :=
  match v with
  | String h1 (String h2 (String colon (String m1 (String m2 EmptyString)))) =>
      ((char_in "0" "1" h1 && char_in "0" "9" h2)
       || ((h1 =? "2")%char && char_in "0" "3" h2))
      && (colon =? ":")%char
      && char_in "0" "5" m1 && char_in "0" "9" m2
  | _ => false
  end.

(** The validator of [scheduledTime]: [!v || /.../.test(v)], not run on
    [undefined]. *)
Definition scheduledTime_ok (v : option string) : bool :=
  match v with
  | None => true
  | Some EmptyString => true
  | Some v => time_format v
  end.

(** What [match.save()] checks on a document with these fields. *)
Definition validate_details (this : MatchDetails) : bool :=
  scheduledTime_ok (scheduledTime this) && validate_match (base this).

(** The white space that [trim()] removes, among the ASCII characters:
    tab, line feed, vertical tab, form feed, carriage return and space. *)
Definition is_space (c : ascii) : bool :=
  char_in "009" "013" c || (c =? " ")%char.

Fixpoint trimStart (s : string) : string :=
  match s with
  | EmptyString => EmptyString
  | String c s' => if is_space c then trimStart s' else s
  end.

Fixpoint trimEnd (s : string) : string :=
  match s with
  | EmptyString => EmptyString
  | String c s' =>
      match trimEnd s' with
      | EmptyString => if is_space c then EmptyString else String c EmptyString
      | t => String c t
      end
  end.

(** The setter of [location], declared by [trim: true]. *)
Definition trim (s : string) : string := trimEnd (trimStart s).

(** The body of the request; an absent field is [undefined]. *)
Record PatchRequest := mkPatch {
  p_scheduledDate : option Date;
  p_scheduledTime : option string;
  p_location : option string;
  p_status : option string;
  p_notes : option string
}.

Inductive PatchError :=
| Unauthorized        (* the 401 answer given without a session *)
| LeagueNotFound      (* 'League not found' *)
| NotOrganizer        (* 'Only league organizers can update match details' *)
| Locked              (* 'Cannot update matches that are completed or canceled' *)
| InvalidTransition (from : MatchStatus) (to : string)
                      (* `Invalid status transition from ${from} to ${to}` *)
| InvalidStatus       (* [save()] refusing a status outside the schema's enum *)
| SaveRefused         (* [save()] refusing the document for another field *).

Definition or_else {A} (new : option A) (old : A) : A :=
  match new with Some x => x | None => old end.

Definition or_keep {A} (new old : option A) : option A :=
  match new with Some x => Some x | None => old end.

Definition with_status (m : Match) (s : MatchStatus) (r : option MatchResult)
    (start : option Date) : Match :=
  mkMatch (MatchRoute.league m) (teamA m) (teamB m) s r start (actualEndTime m)
          (notes m) (submittedBy m).

Definition with_notes (m : Match) (n : option string) : Match :=
  mkMatch (MatchRoute.league m) (teamA m) (teamB m) (MatchRoute.status m)
          (result m) (actualStartTime m) (actualEndTime m) n (submittedBy m).

(** The handler, for a match that was found: [organizer] is the organizer
    of its league when the league is found, [stored] the match document.
    The handler changes its copy of the document and writes it with
    [match.save()] at the end, which validates it first.  The body carries
    a date that parses when it carries [scheduledDate]. *)
Definition PATCH (now : Date) (session : option string)
    (organizer : option string) (data : PatchRequest) (stored : MatchDetails)
  : MatchDetails * (PatchError + MatchDetails) :=
  match session with
  | None => (stored, inl Unauthorized)
  | Some user =>
      match organizer with
      | None => (stored, inl LeagueNotFound)
      | Some org =>
          if negb (org =? user)%string then (stored, inl NotOrganizer)
          else
            match MatchRoute.status (base stored) with
            | completed | canceled => (stored, inl Locked)
            | current =>
                let date := or_else (p_scheduledDate data) (scheduledDate stored) in
                let time := or_keep (p_scheduledTime data) (scheduledTime stored) in
                let place := or_keep (option_map trim (p_location data))
                                     (location stored) in
                let finish (m : Match) :=
                  let m' := match p_notes data with
                            | Some n => with_notes m (Some n)
                            | None => m
                            end in
                  let saved := mkDetails m' date time place in
                  if validate_details saved then (saved, inr saved)
                  else (stored, inl SaveRefused) in
                match p_status data with
                | None => finish (base stored)
                | Some s =>
                    if negb (isValidMatchStatusTransition current s)
                    then (stored, inl (InvalidTransition current s))
                    else
                      match status_of_name s with
                      | None => (stored, inl InvalidStatus)
                      | Some new =>
                          let start :=
                            if (s =? "in_progress")%string then Some now
                            else actualStartTime (base stored) in
                          let r :=
                            if (s =? "canceled")%string then None
                            else result (base stored) in
                          finish (with_status (base stored) new r start)
                      end
                end
            end
      end
  end.

End PatchRoute.

(** ** I.11  Requests for one match, in sequence *)

Module MatchLife.

Import Standings MatchRoute PatchRoute.

(** The stored match with the standings of its league. *)
Record World := mkWorld {
  doc : MatchDetails;
  standings : Rankings
}.

(** A request for the match: an update of its details or the submission
    of its result. *)
Inductive Request :=
| Patch (now : Date) (session : option string) (organizer : option string)
        (data : PatchRequest)
| Submit (now : Date) (ctx : SubmitRoute.Context)
         (data : SubmitMatchResultRequest).

(** The store after a request was handled. *)
Definition step (w : World) (rq : Request) : World :=
  match rq with
  | Patch now session organizer data =>
      mkWorld (fst (PATCH now session organizer data (doc w))) (standings w)
  | Submit now ctx data =>
      let db' := fst (SubmitRoute.POST now ctx data
                        (mkDb (base (doc w)) (standings w))) in
      mkWorld (mkDetails (match_doc db') (scheduledDate (doc w))
                 (scheduledTime (doc w)) (location (doc w)))
              (rankings db')
  end.

Definition run (rqs : list Request) (w : World) : World := fold_left step rqs w.

End MatchLife.

(** ** I.12  Further notions used to state and prove the properties *)

Module RoundRobinMore.
(** The index [a] is one of the pair [p]. *)
Definition contains (a : nat) (p : nat * nat) : bool :=
  ((fst p =? a) || (snd p =? a))%nat.
End RoundRobinMore.

Module MatchFacts.
Import Standings MatchRoute.
(** The counting loop of the methods on the pairs of scores it reads. *)
Fixpoint count_pairs (sets : list (option Z * option Z)) (teamAWins teamBWins : nat)
  : nat * nat :=
  match sets with
  | [] => (teamAWins, teamBWins)
  | s :: rest =>
      if js_gt (fst s) (snd s) then count_pairs rest (S teamAWins) teamBWins
      else if js_gt (snd s) (fst s) then count_pairs rest teamAWins (S teamBWins)
      else count_pairs rest teamAWins teamBWins
  end.
End MatchFacts.

Module Rerank.
Import Standings.
(** The last step of [updateRankings]: sort the entries of the league
    and store their ranks. *)
Definition rerank (leagueId : string) (db : Rankings) : Rankings :=
  assign_ranks 0 (sort_rankings (find_league leagueId db)) db.

(** The document stored in [db] under the key of [r], or [r] itself. *)
Definition stored_as (db : Rankings) (r : Ranking) : Ranking :=
  match findOne (league r) (team r) db with
  | Some x => x
  | None => r
  end.
End Rerank.

(* ===================================================================== *)
(** * Part II.  Properties                                                *)
(* ===================================================================== *)

(** ** II.1  The loops of the generator, in closed form *)

Lemma flat_map_seq_S {B : Type} (f : nat -> list B) (len : nat) :
  flat_map f (seq 0 (S len)) = f 0 ++ flat_map (fun r => f (S r)) (seq 0 len).
Proof.
  cbn [seq flat_map]. f_equal.
  rewrite <- seq_shift, !flat_map_concat_map, map_map. reflexivity.
Qed.

Section GeneratorLoops.

Import Schedule RoundRobin.

Variables (leagueId : string) (start : Date) (venue : option string)
          (days_between : Z).

Local Abbreviation fixtures_from' := (fixtures_from leagueId start venue days_between).

Lemma fixtures_from_app k ps qs :
  fixtures_from' k (ps ++ qs)
  = fixtures_from' k ps ++ fixtures_from' (k + List.length ps) qs.
Proof.
  revert k; induction ps as [|p ps IH]; intros k; simpl.
  - now rewrite Nat.add_0_r.
  - rewrite IH. do 3 f_equal. lia.
Qed.

Lemma length_fixtures_from k ps :
  List.length (fixtures_from' k ps) = List.length ps.
Proof. revert k; induction ps; intros; simpl; auto. Qed.

Lemma round_loop_fold teams n idxs ms k :
  fold_left (pair_step leagueId start venue days_between teams n) idxs (ms, k)
  = (ms ++ fixtures_from' k (filter keep (map (pair_at teams n) idxs)),
     k + List.length (filter keep (map (pair_at teams n) idxs))).
Proof.
  revert ms k; induction idxs as [|i idxs IH]; intros ms k; simpl.
  - now rewrite app_nil_r, Nat.add_0_r.
  - change (negb (nth i teams EmptyString =? dummy)%string
            && negb (nth (n - 1 - i) teams EmptyString =? dummy)%string)
      with (keep (pair_at teams n i)).
    destruct (keep (pair_at teams n i)); rewrite IH; simpl.
    + rewrite <- app_assoc. simpl. f_equal. lia.
    + reflexivity.
Qed.

Lemma rounds_loop_fold n rs teams ms k :
  fold_left
    (fun (acc : list string * GenState) (_ : nat) =>
       let '(teams, st) := acc in
       (rotate teams, round_loop leagueId start venue days_between teams n st))
    rs (teams, (ms, k))
  = (Nat.iter (List.length rs) rotate teams,
     (ms ++ fixtures_from' k (filter keep (pairs_read teams n (List.length rs))),
      k + List.length (filter keep (pairs_read teams n (List.length rs))))).
Proof.
  revert teams ms k; induction rs as [|r rs IH]; intros teams ms k.
  - simpl. now rewrite app_nil_r, Nat.add_0_r.
  - cbn [fold_left List.length]. unfold round_loop at 2.
    rewrite round_loop_fold, IH.
    unfold pairs_read. rewrite flat_map_seq_S.
    rewrite filter_app, fixtures_from_app, length_app.
    cbn [Nat.iter].
    rewrite (flat_map_ext (fun r0 => map (pair_at (Nat.iter (S r0) rotate teams) n)
                                         (seq 0 ((n + 1) / 2)))
                          (fun r0 => map (pair_at (Nat.iter r0 rotate (rotate teams)) n)
                                         (seq 0 ((n + 1) / 2)))).
    2:{ intros a. now rewrite Nat.iter_succ_r. }
    rewrite Nat.iter_succ_r, <- app_assoc, Nat.add_assoc. reflexivity.
Qed.

End GeneratorLoops.

(** ** II.2  The rotation *)

Section Rotation.

Import Schedule RoundRobin.

Lemma rotate_snoc t0 mid tl :
  rotate (t0 :: mid ++ [tl]) = t0 :: tl :: mid.
Proof.
  unfold rotate, pop.
  change (t0 :: mid ++ [tl]) with ((t0 :: mid) ++ [tl]).
  rewrite rev_app_distr. cbn [rev app].
  rewrite rev_app_distr, rev_involutive. reflexivity.
Qed.

Lemma split_ends (teams : list string) M :
  List.length teams = S M -> 1 <= M ->
  exists t0 mid tl, teams = t0 :: mid ++ [tl] /\ List.length mid = M - 1.
Proof.
  intros Hlen HM. destruct teams as [|t0 rest]; [discriminate|].
  destruct (exists_last (l := rest)) as (mid & tl & ->).
  { destruct rest; simpl in *; [lia | discriminate]. }
  exists t0, mid, tl. split; [reflexivity|].
  simpl in Hlen. rewrite length_app in Hlen. simpl in Hlen. lia.
Qed.

Lemma length_rotate teams M :
  List.length teams = S M -> 1 <= M -> List.length (rotate teams) = S M.
Proof.
  intros Hlen HM. destruct (split_ends teams M Hlen HM) as (t0 & mid & tl & -> & Hmid).
  rewrite rotate_snoc. simpl. lia.
Qed.

Lemma nth_rotate teams M p d :
  List.length teams = S M -> 1 <= M -> p <= M ->
  nth p (rotate teams) d = nth (src M 1 p) teams d.
Proof.
  intros Hlen HM Hp. destruct (split_ends teams M Hlen HM) as (t0 & mid & tl & -> & Hmid).
  rewrite rotate_snoc. unfold src.
  destruct p as [|[|p]]; cbn [Nat.eqb Nat.ltb Nat.leb].
  - reflexivity.
  - replace (M + 1 - 1) with (S (List.length mid)) by lia.
    cbn [nth]. rewrite app_nth2, Nat.sub_diag by lia. reflexivity.
  - cbn [nth]. replace (S (S p) - 1) with (S p) by lia. cbn [nth].
    rewrite app_nth1 by lia. reflexivity.
Qed.

Lemma length_iter_rotate teams M r :
  List.length teams = S M -> 1 <= M ->
  List.length (Nat.iter r rotate teams) = S M.
Proof.
  intros Hlen HM. induction r; simpl; [assumption|].
  now apply length_rotate.
Qed.

Lemma src_cases M r p :
  (p = 0 /\ src M r p = 0)
  \/ (0 < p /\ r < p /\ src M r p = p - r)
  \/ (0 < p /\ p <= r /\ src M r p = M + p - r).
Proof.
  unfold src. destruct (Nat.eqb_spec p 0); [lia|].
  destruct (Nat.ltb_spec r p); lia.
Qed.

Lemma src_step M r p :
  S r <= M -> p <= M -> src M r (src M 1 p) = src M (S r) p.
Proof.
  intros Hr Hp.
  pose proof (src_cases M 1 p). pose proof (src_cases M r (src M 1 p)).
  pose proof (src_cases M (S r) p). lia.
Qed.

Lemma src_bound M r p : r <= M -> p <= M -> src M r p <= M.
Proof. intros Hr Hp. pose proof (src_cases M r p). lia. Qed.

Lemma nth_iter_rotate teams M r p d :
  List.length teams = S M -> 1 <= M -> r <= M -> p <= M ->
  nth p (Nat.iter r rotate teams) d = nth (src M r p) teams d.
Proof.
  intros Hlen HM. revert p. induction r as [|r IH]; intros p Hr Hp.
  - simpl. f_equal. pose proof (src_cases M 0 p). lia.
  - rewrite Nat.iter_succ.
    rewrite (nth_rotate _ M) by (auto using length_iter_rotate).
    rewrite IH by (try lia; apply src_bound; lia).
    now rewrite src_step.
Qed.

End Rotation.

(** ** II.3  The circle method on indices *)

Section PairLists.

Import Schedule RoundRobin.

Lemma NoDup_list_prod {A B : Type} (l : list A) (l' : list B) :
  NoDup l -> NoDup l' -> NoDup (list_prod l l').
Proof.
  intros Hl Hl'. induction Hl as [|x l Hx Hl IH]; simpl; [constructor|].
  apply NoDup_app; repeat split.
  - apply Finite.Injective_map_NoDup; [|assumption].
    intros y z E. now injection E.
  - assumption.
  - intros [a b] Hin1 Hin2. apply in_map_iff in Hin1 as (y & E & _).
    injection E as <- <-. apply in_prod_iff in Hin2. tauto.
Qed.

Lemma in_all_pairs n a b : In (a, b) (all_pairs n) <-> a < b /\ b < n.
Proof.
  unfold all_pairs. rewrite in_flat_map. split.
  - intros (b' & Hb' & Hin). apply in_map_iff in Hin as (a' & E & Ha').
    injection E as <- <-. apply in_seq in Hb', Ha'. lia.
  - intros [Hab Hb]. exists b. split; [apply in_seq; lia|].
    apply in_map_iff. exists a. split; [reflexivity | apply in_seq; lia].
Qed.

Lemma all_pairs_S n :
  all_pairs (S n) = all_pairs n ++ map (fun a => (a, n)) (seq 0 n).
Proof.
  unfold all_pairs. rewrite seq_S, flat_map_app. simpl. now rewrite app_nil_r.
Qed.

Lemma NoDup_all_pairs n : NoDup (all_pairs n).
Proof.
  induction n as [|n IH]; [constructor|].
  rewrite all_pairs_S. apply NoDup_app; repeat split.
  - assumption.
  - apply Finite.Injective_map_NoDup; [|apply seq_NoDup].
    intros y z E. now injection E.
  - intros [a b] Hin1 Hin2. apply in_all_pairs in Hin1.
    apply in_map_iff in Hin2 as (y & E & _). injection E as <- <-. lia.
Qed.

Lemma length_all_pairs n : 2 * List.length (all_pairs n) = n * (n - 1).
Proof.
  induction n as [|n IH]; [reflexivity|].
  rewrite all_pairs_S, length_app, length_map, length_seq.
  destruct n; simpl in *; lia.
Qed.

Lemma totalMatches_double n : 2 * totalMatches n = n * (n - 1).
Proof.
  unfold totalMatches.
  assert (E : exists k, n * (n - 1) = 2 * k).
  { induction n as [|n [k IH]]; [exists 0; reflexivity|].
    destruct n; [exists 0; reflexivity|].
    exists (k + S n). simpl in *. lia. }
  destruct E as [k ->]. rewrite (Nat.mul_comm 2 k), Nat.div_mul by lia. lia.
Qed.

End PairLists.

Section CircleMethod.

Import Schedule RoundRobin.

(** The working list has an even number [M + 1 = 2 * h + 2] of teams. *)
Variables (M h : nat).
Hypothesis M_odd : M = 2 * h + 1.

Lemma visits_iff r i : In (r, i) (visits M) <-> r < M /\ i <= h.
Proof.
  unfold visits. rewrite in_prod_iff, !in_seq.
  replace ((M + 2) / 2) with (S h).
  - lia.
  - subst M. replace (2 * h + 1 + 2) with (1 + (h + 1) * 2) by lia.
    rewrite Nat.div_add by lia. simpl. lia.
Qed.

Lemma slot_shape r i :
  r < M -> i <= h ->
  (i = 0 /\ slot M (r, i) = (0, M - r))
  \/ (1 <= i /\ r < i /\ slot M (r, i) = (i - r, M - i - r))
  \/ (1 <= i /\ i <= r /\ r < M - i /\ slot M (r, i) = (M + i - r, M - i - r))
  \/ (1 <= i /\ M - i <= r /\ slot M (r, i) = (M + i - r, 2 * M - i - r)).
Proof.
  intros Hr Hi. unfold slot. cbn [fst snd].
  pose proof (src_cases M r i) as H1. pose proof (src_cases M r (M - i)) as H2.
  assert (E : forall a b c d : nat, a = c -> b = d -> (a, b) = (c, d)) by (intros; subst; auto).
  destruct (Nat.eq_dec i 0) as [Hi0|Hi0].
  - left. split; [assumption|]. apply E; lia.
  - right. destruct (Nat.lt_ge_cases r i).
    + left. repeat split; try lia. apply E; lia.
    + right. destruct (Nat.lt_ge_cases r (M - i)).
      * left. repeat split; try lia. apply E; lia.
      * right. repeat split; try lia. apply E; lia.
Qed.

Lemma slot_inj r i r' i' :
  r < M -> i <= h -> r' < M -> i' <= h ->
  norm (slot M (r, i)) = norm (slot M (r', i')) -> r = r' /\ i = i'.
Proof.
  intros Hr Hi Hr' Hi'.
  destruct (slot_shape r i Hr Hi) as [S1|[S1|[S1|S1]]];
  destruct (slot_shape r' i' Hr' Hi') as [S2|[S2|[S2|S2]]];
  repeat match goal with H : _ /\ _ |- _ => destruct H end;
  match goal with H1 : slot M (r, i) = _, H2 : slot M (r', i') = _ |- _ =>
    rewrite H1, H2 end;
  unfold norm; cbn [fst snd]; intros E;
  apply pair_equal_spec in E; destruct E as [E1 E2]; lia.
Qed.

Lemma slot_bounds r i :
  r < M -> i <= h ->
  fst (slot M (r, i)) <= M /\ snd (slot M (r, i)) <= M
  /\ fst (slot M (r, i)) <> snd (slot M (r, i)).
Proof.
  intros Hr Hi.
  destruct (slot_shape r i Hr Hi) as [S1|[S1|[S1|S1]]];
  repeat match goal with H : _ /\ _ |- _ => destruct H end;
  match goal with H1 : slot M (r, i) = _ |- _ => rewrite H1 end;
  cbn [fst snd]; lia.
Qed.

Lemma length_visits : List.length (visits M) = totalMatches (S M).
Proof.
  unfold visits. rewrite length_prod, !length_seq.
  pose proof (totalMatches_double (S M)) as E.
  replace ((M + 2) / 2) with (S h).
  - replace (S M - 1) with M in E by lia.
    enough (2 * (M * S h) = S M * M) by lia.
    rewrite M_odd at 2. ring.
  - subst M. replace (2 * h + 1 + 2) with (1 + (h + 1) * 2) by lia.
    rewrite Nat.div_add by lia. simpl. lia.
Qed.

Lemma NoDup_meet : NoDup (map (meet M) (visits M)).
Proof.
  apply NoDup_map_NoDup_ForallPairs.
  - intros [r i] [r' i'] Hv Hv' E.
    apply visits_iff in Hv, Hv'.
    destruct (slot_inj r i r' i') as [-> ->]; tauto.
  - apply NoDup_list_prod; apply seq_NoDup.
Qed.

Lemma meet_in_all_pairs v : In v (visits M) -> In (meet M v) (all_pairs (S M)).
Proof.
  destruct v as [r i]. intros Hv. apply visits_iff in Hv.
  destruct (slot_bounds r i) as (Ha & Hb & Hab); try tauto.
  unfold meet, norm. apply in_all_pairs. lia.
Qed.

Lemma meet_covers a b :
  a < b -> b <= M -> In (a, b) (map (meet M) (visits M)).
Proof.
  intros Hab Hb.
  apply (NoDup_length_incl NoDup_meet (l' := all_pairs (S M))).
  - rewrite length_map, length_visits.
    pose proof (length_all_pairs (S M)). pose proof (totalMatches_double (S M)). lia.
  - intros p Hp. apply in_map_iff in Hp as (v & <- & Hv).
    now apply meet_in_all_pairs.
  - apply in_all_pairs. lia.
Qed.

End CircleMethod.

(** ** II.4  Counting fixtures *)

Section ListCounting.

Import Schedule RoundRobin.

Lemma pair_of_comm x y p : pair_of x y p = pair_of y x p.
Proof. unfold pair_of. apply orb_comm. Qed.

Lemma pair_eqb_spec x y : reflect (x = y) (pair_eqb x y).
Proof.
  destruct x as [a b], y as [c d]. unfold pair_eqb. cbn [fst snd].
  destruct (Nat.eqb_spec a c), (Nat.eqb_spec b d); constructor; congruence.
Qed.

Lemma map_list_prod {A B C : Type} (g : A * B -> C) l l' :
  map g (list_prod l l') = flat_map (fun a => map (fun b => g (a, b)) l') l.
Proof.
  induction l as [|a l IH]; simpl; [reflexivity|].
  now rewrite map_app, map_map, IH.
Qed.

Lemma flat_map_ext_in {A B : Type} (f g : A -> list B) l :
  (forall a, In a l -> f a = g a) -> flat_map f l = flat_map g l.
Proof.
  intros E. rewrite !flat_map_concat_map. f_equal. now apply map_ext_in.
Qed.

Lemma length_filter_map {A B : Type} (p : B -> bool) (g : A -> B) l :
  List.length (filter p (map g l)) = List.length (filter (fun a => p (g a)) l).
Proof.
  induction l as [|a l IH]; simpl; [reflexivity|].
  destruct (p (g a)); simpl; now rewrite IH.
Qed.

Lemma filter_none {A : Type} (p : A -> bool) l :
  (forall a, In a l -> p a = false) -> filter p l = [].
Proof.
  induction l as [|a l IH]; intros E; simpl; [reflexivity|].
  rewrite (E a) by now left. apply IH. intros; apply E; now right.
Qed.

(** In a list whose images under [g] are pairwise different, exactly one
    element is sent to a value that occurs among the images. *)
Lemma count_unique {A : Type} (g : A -> nat * nat) l z :
  NoDup (map g l) -> In z (map g l) ->
  List.length (filter (fun v => pair_eqb (g v) z) l) = 1.
Proof.
  induction l as [|v l IH]; intros Hnd Hin; [destruct Hin|].
  cbn [map] in Hnd, Hin. apply NoDup_cons_iff in Hnd as [Hv Hnd].
  cbn [filter]. destruct (pair_eqb_spec (g v) z) as [E|E].
  - subst z. rewrite filter_none; [reflexivity|].
    intros a Ha. destruct (pair_eqb_spec (g a) (g v)) as [E|E]; [|reflexivity].
    exfalso. apply Hv. rewrite <- E. now apply in_map.
  - destruct Hin as [Hin|Hin]; [contradiction|]. now apply IH.
Qed.

Lemma filter_fixtures_from lg st vn d x y k ps :
  List.length (filter (plays x y) (fixtures_from lg st vn d k ps))
  = List.length (filter (pair_of x y) ps).
Proof.
  revert k; induction ps as [|p ps IH]; intros k; [reflexivity|].
  cbn [fixtures_from filter]. unfold plays at 1. cbn [teamA teamB].
  fold (pair_of x y p). destruct (pair_of x y p); simpl; now rewrite IH.
Qed.

Lemma in_fixtures_from lg st vn d k ps f :
  In f (fixtures_from lg st vn d k ps) -> In (teamA f, teamB f) ps.
Proof.
  revert k; induction ps as [|p ps IH]; intros k Hin; [destruct Hin|].
  destruct Hin as [<-|Hin]; cbn [teamA teamB].
  - left. now destruct p.
  - right. eauto.
Qed.

Lemma nth_error_fixtures_from lg st vn d k ps j f :
  nth_error (fixtures_from lg st vn d k ps) j = Some f ->
  scheduledDate f = addDays st (Z.of_nat (k + j) * d).
Proof.
  revert k j; induction ps as [|p ps IH]; intros k j E.
  - destruct j; discriminate.
  - destruct j as [|j]; cbn in E.
    + injection E as <-. cbn. now rewrite Nat.add_0_r.
    + apply IH in E. rewrite E. do 3 f_equal. lia.
Qed.

Lemma map_teams_fixtures_from lg st vn d k ps :
  map (fun f => (teamA f, teamB f)) (fixtures_from lg st vn d k ps) = ps.
Proof.
  revert k; induction ps as [|[a b] ps IH]; intros k; [reflexivity|].
  cbn. now rewrite IH.
Qed.

End ListCounting.

(** ** II.5  The circle method on the list of teams *)

Section CircleOnTeams.

Import Schedule RoundRobin.

Variables (teamIds teams0 : list string) (M h n0 : nat).
Hypothesis M_odd : M = 2 * h + 1.
Hypothesis len_teams0 : List.length teams0 = S M.
Hypothesis len_ids : List.length teamIds = n0.
Hypothesis n0_le : n0 <= S M.
Hypothesis ids_distinct : NoDup teamIds.
Hypothesis ids_real : ~ In dummy teamIds.
Hypothesis teams0_ids :
  forall j, j < n0 -> nth j teams0 EmptyString = nth j teamIds EmptyString.
Hypothesis teams0_bye :
  forall j, n0 <= j -> j <= M -> nth j teams0 EmptyString = dummy.

Local Abbreviation T := (team_at teams0).
Local Abbreviation paired := (fun v => teams_at teams0 (slot M v)).

Lemma pairs_read_visits :
  pairs_read teams0 (S M) M = map paired (visits M).
Proof.
  unfold pairs_read, visits. rewrite map_list_prod.
  replace ((S M + 1) / 2) with ((M + 2) / 2) by (f_equal; lia).
  apply flat_map_ext_in. intros r Hr. apply in_seq in Hr.
  apply map_ext_in. intros i Hi. apply in_seq in Hi.
  assert (Hih : i <= M).
  { assert ((M + 2) / 2 <= M + 1); [|lia].
    apply Nat.Div0.div_le_upper_bound. lia. }
  unfold pair_at, teams_at, team_at, slot. cbn [fst snd].
  rewrite !(nth_iter_rotate teams0 M) by lia.
  do 3 f_equal. lia.
Qed.

Lemma team_inj a b : a < n0 -> b < n0 -> T a = T b -> a = b.
Proof.
  unfold team_at. intros Ha Hb E. rewrite !teams0_ids in E by assumption.
  apply (proj1 (NoDup_nth teamIds EmptyString) ids_distinct); [lia|lia|assumption].
Qed.

Lemma team_real j : j < n0 -> T j <> dummy.
Proof.
  unfold team_at. intros Hj E. apply ids_real. rewrite <- E, teams0_ids by assumption.
  apply nth_In. lia.
Qed.

Lemma team_dummy j : j <= M -> (T j =? dummy)%string = negb (j <? n0)%nat.
Proof.
  intros Hj. destruct (Nat.ltb_spec j n0) as [Hlt|Hge]; cbn [negb].
  - apply String.eqb_neq. now apply team_real.
  - apply String.eqb_eq. now apply teams0_bye.
Qed.

Lemma keep_iff v :
  In v (visits M) ->
  keep (paired v) = true <-> In (meet M v) (all_pairs n0).
Proof.
  destruct v as [r i]. intros Hv. apply (visits_iff M h M_odd) in Hv.
  destruct (slot_bounds M h M_odd r i) as (Ha & Hb & Hab); try tauto.
  unfold keep, teams_at, meet, norm. cbn [fst snd].
  rewrite !team_dummy, !negb_involutive, andb_true_iff, !Nat.ltb_lt by assumption.
  rewrite in_all_pairs. lia.
Qed.

(** The visits that produce a fixture. *)
Local Abbreviation kept := (filter (fun v => keep (paired v)) (visits M)).

Lemma NoDup_kept : NoDup (map (meet M) kept).
Proof.
  apply NoDup_map_NoDup_ForallPairs.
  - intros [r i] [r' i'] Hv Hv' E.
    apply filter_In in Hv as [Hv _], Hv' as [Hv' _].
    apply (visits_iff M h M_odd) in Hv, Hv'.
    destruct (slot_inj M h M_odd r i r' i') as [-> ->]; tauto.
  - apply NoDup_filter, NoDup_list_prod; apply seq_NoDup.
Qed.

Lemma in_kept p : In p (map (meet M) kept) <-> In p (all_pairs n0).
Proof.
  split.
  - intros Hin. apply in_map_iff in Hin as (v & <- & Hv).
    apply filter_In in Hv as [Hv Hk]. now apply keep_iff.
  - intros Hp. destruct p as [a b]. pose proof Hp as Hab.
    apply in_all_pairs in Hab.
    assert (Hin : In (a, b) (map (meet M) (visits M))).
    { apply (meet_covers M h M_odd); lia. }
    apply in_map_iff in Hin as (v & E & Hv).
    apply in_map_iff. exists v. split; [assumption|].
    apply filter_In. split; [assumption|].
    apply keep_iff; [assumption|]. now rewrite E.
Qed.

Lemma length_kept : List.length kept = totalMatches n0.
Proof.
  rewrite <- (length_map (meet M)).
  rewrite (Permutation_length
             (NoDup_Permutation NoDup_kept (NoDup_all_pairs n0) in_kept)).
  pose proof (length_all_pairs n0). pose proof (totalMatches_double n0). lia.
Qed.

Lemma kept_pairs :
  filter keep (pairs_read teams0 (S M) M) = map paired kept.
Proof.
  rewrite pairs_read_visits. apply filter_map_swap.
Qed.

(** Among the indices of real teams, meeting at [v] is playing each other. *)
Lemma pair_of_meet a b v :
  a < b -> b < n0 -> In v kept ->
  pair_of (T a) (T b) (paired v) = pair_eqb (meet M v) (a, b).
Proof.
  intros Hab Hb Hv. apply filter_In in Hv as [Hv Hk].
  apply keep_iff in Hk; [|assumption].
  destruct v as [r i]. unfold meet, norm in *. apply in_all_pairs in Hk.
  unfold pair_of, teams_at, pair_eqb. cbn [fst snd].
  set (A := fst (slot M (r, i))) in *. set (B := snd (slot M (r, i))) in *.
  destruct (String.eqb_spec (T A) (T a)) as [E1|E1];
  destruct (String.eqb_spec (T B) (T b)) as [E2|E2];
  destruct (String.eqb_spec (T A) (T b)) as [E3|E3];
  destruct (String.eqb_spec (T B) (T a)) as [E4|E4];
  repeat match goal with
         | E : T _ = T _ |- _ => apply team_inj in E; [|lia|lia]
         end;
  cbn [andb orb]; symmetry;
  try (apply andb_true_iff; rewrite !Nat.eqb_eq; lia);
  apply andb_false_iff; rewrite !Nat.eqb_neq;
  (assert (A <> a \/ B <> b) by (clear - E1 E2 E3 E4; try (left; congruence); right; congruence));
  (assert (A <> b \/ B <> a) by (clear - E1 E2 E3 E4; try (left; congruence); right; congruence));
  lia.
Qed.

Lemma kept_real v :
  In v kept ->
  fst (slot M v) < n0 /\ snd (slot M v) < n0 /\ fst (slot M v) <> snd (slot M v).
Proof.
  intros Hv. apply filter_In in Hv as [Hv Hk].
  apply keep_iff in Hk; [|assumption].
  unfold meet, norm in Hk. apply in_all_pairs in Hk. cbn [fst snd] in Hk. lia.
Qed.

Lemma count_meeting a b :
  a < b -> b < n0 ->
  List.length (filter (fun v => pair_of (T a) (T b) (paired v)) kept) = 1.
Proof.
  intros Hab Hb.
  rewrite (filter_ext_in _ (fun v => pair_eqb (meet M v) (a, b))).
  - apply count_unique; [apply NoDup_kept|].
    apply in_kept, in_all_pairs. lia.
  - intros v Hv. now apply pair_of_meet.
Qed.

Variables (leagueId : string) (start : Date) (venue : option string)
          (days_between : Z).

Lemma circle_round_robin :
  round_robin teamIds
    (fixtures_from leagueId start venue days_between 0
       (filter keep (pairs_read teams0 (S M) M))).
Proof.
  rewrite kept_pairs. unfold round_robin. repeat split.
  - rewrite length_fixtures_from, length_map, length_kept, len_ids. reflexivity.
  - intros x y Hx Hy Hxy.
    destruct (In_nth teamIds x EmptyString Hx) as (a & Ha & Ea).
    destruct (In_nth teamIds y EmptyString Hy) as (b & Hb & Eb).
    rewrite len_ids in Ha, Hb.
    rewrite <- teams0_ids in Ea, Eb by assumption.
    fold (team_at teams0 a) in Ea. fold (team_at teams0 b) in Eb. subst x y.
    assert (a <> b) by congruence.
    rewrite filter_fixtures_from, length_filter_map.
    destruct (Nat.lt_ge_cases a b).
    + now apply count_meeting.
    + rewrite (filter_ext _ (fun v => pair_of (T b) (T a) (paired v))).
      * apply count_meeting; lia.
      * intros v. apply pair_of_comm.
  - intros f Hf. apply in_fixtures_from, in_map_iff in Hf as (v & E & Hv).
    apply kept_real in Hv as (HA & HB & HAB).
    unfold teams_at in E. injection E as EA EB. rewrite <- EA, <- EB.
    intros E. apply HAB. now apply team_inj.
  - intros f Hf. apply in_fixtures_from, in_map_iff in Hf as (v & E & Hv).
    apply kept_real in Hv as (HA & HB & HAB).
    unfold teams_at in E. injection E as EA EB.
    unfold involves. rewrite <- EA, <- EB. apply orb_false_iff.
    split; apply String.eqb_neq; now apply team_real.
Qed.

End CircleOnTeams.

(** ** II.6  The generator *)

Section Generator.

Import Schedule RoundRobin.

Lemma generate_closed_form leagueId teamIds startDate endDate venue :
  2 <= List.length teamIds ->
  window_ok teamIds startDate endDate ->
  generateRoundRobinSchedule leagueId teamIds startDate endDate venue
  = inr (fixtures_from leagueId startDate venue
           (daysBetweenMatches (totalDays startDate endDate)
                               (totalMatches (List.length teamIds)))
           0
           (filter keep
              (pairs_read (working_list teamIds)
                          (List.length (working_list teamIds))
                          (List.length (working_list teamIds) - 1)))).
Proof.
  intros Hn Hw. unfold generateRoundRobinSchedule.
  destruct (Nat.ltb_spec (List.length teamIds) 2) as [Hlt|_]; [lia|].
  unfold window_ok in Hw.
  destruct (Z.ltb_spec (totalDays startDate endDate)
                       (Z.of_nat (totalMatches (List.length teamIds)))) as [Hlt|_];
    [lia|].
  fold (working_list teamIds). unfold rounds_loop.
  rewrite rounds_loop_fold, length_seq. reflexivity.
Qed.

Lemma generate_inr leagueId teamIds startDate endDate venue fixtures :
  generateRoundRobinSchedule leagueId teamIds startDate endDate venue = inr fixtures ->
  2 <= List.length teamIds /\ window_ok teamIds startDate endDate.
Proof.
  unfold generateRoundRobinSchedule, window_ok.
  destruct (Nat.ltb_spec (List.length teamIds) 2) as [Hlt|Hge]; [discriminate|].
  destruct (Z.ltb_spec (totalDays startDate endDate)
                       (Z.of_nat (totalMatches (List.length teamIds)))) as [Hlt|Hge'];
    [discriminate|].
  intros _. split; lia.
Qed.

(** The shape of the working list: an even length [M + 1 = 2 * h + 2], the
    teams first and, for an odd number of teams, the placeholder last. *)
Lemma working_list_shape teamIds :
  2 <= List.length teamIds ->
  exists M h,
    M = 2 * h + 1
    /\ List.length (working_list teamIds) = S M
    /\ List.length teamIds <= S M
    /\ (forall j, j < List.length teamIds ->
          nth j (working_list teamIds) EmptyString = nth j teamIds EmptyString)
    /\ (forall j, List.length teamIds <= j -> j <= M ->
          nth j (working_list teamIds) EmptyString = dummy).
Proof.
  intros Hn. unfold working_list.
  pose proof (Nat.div_mod_eq (List.length teamIds) 2) as E.
  pose proof (Nat.mod_upper_bound (List.length teamIds) 2).
  destruct (Nat.eqb_spec (List.length teamIds mod 2) 1) as [Hodd|Heven].
  - exists (List.length teamIds), (List.length teamIds / 2).
    rewrite length_app. cbn [List.length]. repeat split; try lia.
    + intros j Hj. now rewrite app_nth1.
    + intros j Hj1 Hj2. rewrite app_nth2 by lia.
      replace (j - List.length teamIds) with 0 by lia. reflexivity.
  - exists (List.length teamIds - 1), (List.length teamIds / 2 - 1).
    repeat split; lia.
Qed.

End Generator.

(** ** II.7  The generator: the properties of the specification *)

Section GeneratorClaims.

Import Schedule RoundRobin.

Lemma totalMatches_pos n : 2 <= n -> 1 <= totalMatches n.
Proof. intros Hn. pose proof (totalMatches_double n). nia. Qed.

Lemma pairing_fixtures_from lg lg' st vn d k ps :
  map pairing (fixtures_from lg st vn d k ps)
  = map pairing (fixtures_from lg' st vn d k ps).
Proof.
  revert k; induction ps as [|p ps IH]; intros k; [reflexivity|].
  cbn [fixtures_from map]. now rewrite IH.
Qed.

(** C5. The generator fails with [InsufficientParticipants] exactly when
    there are fewer than 2 teams; with 2 teams or more it fails with
    [InsufficientSchedulingWindow] exactly when [totalDays < totalMatches];
    on all other inputs it succeeds. *)
Theorem generate_failure_modes leagueId teamIds startDate endDate venue :
  let r := generateRoundRobinSchedule leagueId teamIds startDate endDate venue in
  let n := List.length teamIds in
  (fails_for_participants r <-> n < 2)
  /\ (fails_for_window r
      <-> 2 <= n /\ (totalDays startDate endDate < Z.of_nat (totalMatches n))%Z)
  /\ (succeeds r
      <-> 2 <= n /\ (Z.of_nat (totalMatches n) <= totalDays startDate endDate)%Z).
Proof.
  cbv zeta. unfold fails_for_participants, fails_for_window, succeeds.
  assert (Hcases :
    (List.length teamIds < 2
     /\ generateRoundRobinSchedule leagueId teamIds startDate endDate venue
        = inl InsufficientParticipants)
    \/ (2 <= List.length teamIds
        /\ (totalDays startDate endDate
            < Z.of_nat (totalMatches (List.length teamIds)))%Z
        /\ generateRoundRobinSchedule leagueId teamIds startDate endDate venue
           = inl (InsufficientSchedulingWindow (totalDays startDate endDate)
                    (totalMatches (List.length teamIds))))
    \/ (2 <= List.length teamIds
        /\ (Z.of_nat (totalMatches (List.length teamIds))
            <= totalDays startDate endDate)%Z
        /\ exists fixtures,
             generateRoundRobinSchedule leagueId teamIds startDate endDate venue
             = inr fixtures)).
  { destruct (Nat.lt_ge_cases (List.length teamIds) 2) as [Hn|Hn].
    - left. split; [assumption|]. unfold generateRoundRobinSchedule.
      destruct (Nat.ltb_spec (List.length teamIds) 2); [reflexivity | lia].
    - right.
      destruct (Z.lt_ge_cases (totalDays startDate endDate)
                  (Z.of_nat (totalMatches (List.length teamIds)))) as [Hw|Hw].
      + left. repeat split; try assumption. unfold generateRoundRobinSchedule.
        destruct (Nat.ltb_spec (List.length teamIds) 2); [lia|].
        destruct (Z.ltb_spec (totalDays startDate endDate)
                    (Z.of_nat (totalMatches (List.length teamIds))));
          [reflexivity | lia].
      + right. repeat split; try assumption.
        rewrite generate_closed_form by assumption. eauto. }
  destruct Hcases as [(Hn & E)|[(Hn & Hw & E)|(Hn & Hw & fx & E)]]; rewrite E;
    (split; [|split]); split; intros H;
    repeat match goal with
           | H : exists _, _ |- _ => destruct H
           | H : _ /\ _ |- _ => destruct H
           end;
    try discriminate; try lia; eauto.
Qed.

(** The window rejection of the specification: 4 teams need 6 matches,
    a window of 3 days is refused. *)
Example window_of_3_days_for_4_teams :
  generateRoundRobinSchedule "L" ["a"; "b"; "c"; "d"] 0%Z (3 * MS_PER_DAY)%Z None
  = inl (InsufficientSchedulingWindow 3 6).
Proof. reflexivity. Qed.

(** C1, as stated, fails: a team whose id is the string 'dummy' is
    taken for the placeholder, and its matches are skipped. *)
Lemma round_robin_fails_for_dummy_id :
  ~ (forall leagueId teamIds startDate endDate venue,
       NoDup teamIds -> 2 <= List.length teamIds ->
       window_ok teamIds startDate endDate ->
       exists fixtures,
         generateRoundRobinSchedule leagueId teamIds startDate endDate venue
         = inr fixtures
         /\ round_robin teamIds fixtures).
Proof.
  intros H.
  destruct (H "L" ["a"; "dummy"] 0%Z MS_PER_DAY None) as (fx & E & Hlen & _).
  - repeat constructor; simpl; intuition discriminate.
  - simpl. lia.
  - unfold window_ok. vm_compute. discriminate.
  - vm_compute in E. injection E as <-. discriminate Hlen.
Qed.

(** C1, amended.  For distinct team ids, 2 or more, none of them the
    string 'dummy', and a window that is long enough, the generator returns
    [n * (n - 1) / 2] fixtures; every two different teams meet in exactly
    one of them, no fixture pairs a team with itself, and none refers to the
    placeholder. *)
Theorem generate_round_robin leagueId teamIds startDate endDate venue :
  NoDup teamIds ->
  2 <= List.length teamIds ->
  ~ In dummy teamIds ->
  window_ok teamIds startDate endDate ->
  exists fixtures,
    generateRoundRobinSchedule leagueId teamIds startDate endDate venue
    = inr fixtures
    /\ round_robin teamIds fixtures.
Proof.
  intros Hnd Hn Hreal Hw. rewrite generate_closed_form by assumption.
  eexists. split; [reflexivity|].
  destruct (working_list_shape teamIds Hn) as (M & h & HM & Hlen & Hle & Hids & Hbye).
  rewrite Hlen. replace (S M - 1) with M by lia.
  eapply circle_round_robin; eauto.
Qed.

Lemma generate_round_robin_5_teams :
  exists fixtures,
    generateRoundRobinSchedule "L" ["a"; "b"; "c"; "d"; "e"]
      0%Z (30 * MS_PER_DAY)%Z (Some "Club")
    = inr fixtures
    /\ round_robin ["a"; "b"; "c"; "d"; "e"] fixtures.
Proof.
  apply generate_round_robin.
  - repeat constructor; simpl; intuition discriminate.
  - simpl. lia.
  - simpl. intuition discriminate.
  - unfold window_ok. vm_compute. discriminate.
Defined.

(** C6. The fixture at position [k] of the returned list is dated
    [startDate + k * floor(totalDays / totalMatches)] days; the dates never
    decrease along the list; the list holds, in the order of generation, the
    pairs read by the rounds that do not involve the placeholder. *)
Theorem fixture_dates leagueId teamIds startDate endDate venue fixtures :
  generateRoundRobinSchedule leagueId teamIds startDate endDate venue
  = inr fixtures ->
  let step := daysBetweenMatches (totalDays startDate endDate)
                                 (totalMatches (List.length teamIds)) in
  map (fun f => (teamA f, teamB f)) fixtures
  = filter keep (pairs_read (working_list teamIds)
                            (List.length (working_list teamIds))
                            (List.length (working_list teamIds) - 1))
  /\ (forall k f, nth_error fixtures k = Some f ->
        scheduledDate f = addDays startDate (Z.of_nat k * step))
  /\ (forall j k fj fk, j <= k ->
        nth_error fixtures j = Some fj -> nth_error fixtures k = Some fk ->
        (scheduledDate fj <= scheduledDate fk)%Z).
Proof.
  intros E step. pose proof (generate_inr _ _ _ _ _ _ E) as [Hn Hw].
  rewrite generate_closed_form in E by assumption. injection E as <-.
  fold step.
  assert (Hdate : forall k f,
             nth_error (fixtures_from leagueId startDate venue step 0
                          (filter keep (pairs_read (working_list teamIds)
                             (List.length (working_list teamIds))
                             (List.length (working_list teamIds) - 1)))) k = Some f ->
             scheduledDate f = addDays startDate (Z.of_nat k * step)).
  { intros k f Hk. now apply nth_error_fixtures_from in Hk. }
  split; [apply map_teams_fixtures_from|]. split; [exact Hdate|].
  intros j k fj fk Hjk Hj Hk.
  rewrite (Hdate _ _ Hj), (Hdate _ _ Hk). unfold addDays, MS_PER_DAY.
  assert (0 <= step)%Z.
  { unfold step, daysBetweenMatches. unfold window_ok in Hw.
    pose proof (totalMatches_pos _ Hn). apply Z.div_pos; lia. }
  nia.
Qed.

Lemma fixture_dates_4_teams :
  let fixtures :=
    [mkFixture "L" "a" "d" 0%Z None scheduled;
     mkFixture "L" "b" "c" (2 * MS_PER_DAY)%Z None scheduled;
     mkFixture "L" "a" "c" (4 * MS_PER_DAY)%Z None scheduled;
     mkFixture "L" "d" "b" (6 * MS_PER_DAY)%Z None scheduled;
     mkFixture "L" "a" "b" (8 * MS_PER_DAY)%Z None scheduled;
     mkFixture "L" "c" "d" (10 * MS_PER_DAY)%Z None scheduled] in
  map (fun f => (teamA f, teamB f)) fixtures
  = [("a", "d"); ("b", "c"); ("a", "c"); ("d", "b"); ("a", "b"); ("c", "d")]
  /\ (forall k f, nth_error fixtures k = Some f ->
        scheduledDate f = addDays 0%Z (Z.of_nat k * 2)%Z)
  /\ (forall j k fj fk, j <= k ->
        nth_error fixtures j = Some fj -> nth_error fixtures k = Some fk ->
        (scheduledDate fj <= scheduledDate fk)%Z).
Proof.
  exact (fixture_dates "L" ["a"; "b"; "c"; "d"] 0%Z (12 * MS_PER_DAY)%Z None _
           eq_refl).
Defined.

(** C8. The generator is a function of its arguments, and the league id
    only labels the fixtures: two runs on the same teams, dates and venue
    fail in the same way or return the same pairs, in the same order, with
    the same dates. *)
Theorem generate_deterministic leagueId leagueId' teamIds startDate endDate venue :
  pairings (generateRoundRobinSchedule leagueId teamIds startDate endDate venue)
  = pairings (generateRoundRobinSchedule leagueId' teamIds startDate endDate venue).
Proof.
  destruct (Nat.lt_ge_cases (List.length teamIds) 2) as [Hn|Hn].
  - unfold generateRoundRobinSchedule.
    destruct (Nat.ltb_spec (List.length teamIds) 2); [reflexivity | lia].
  - destruct (Z.lt_ge_cases (totalDays startDate endDate)
                (Z.of_nat (totalMatches (List.length teamIds)))) as [Hw|Hw].
    + unfold generateRoundRobinSchedule.
      destruct (Nat.ltb_spec (List.length teamIds) 2); [lia|].
      destruct (Z.ltb_spec (totalDays startDate endDate)
                  (Z.of_nat (totalMatches (List.length teamIds))));
        [reflexivity | lia].
    + rewrite !generate_closed_form by assumption. cbn [pairings].
      f_equal. apply pairing_fixtures_from.
Qed.

(** C9. The placeholder is the string 'dummy', and a team with that id is
    taken for it: the generator succeeds on the teams a, b and dummy, but
    returns fewer than [3 * 2 / 2] fixtures, none of which involves the team
    dummy. *)
Theorem dummy_id_is_skipped :
  dummy = "dummy"
  /\ exists teamIds,
       NoDup teamIds /\ 2 <= List.length teamIds /\ In "dummy" teamIds
       /\ forall leagueId startDate endDate venue,
            window_ok teamIds startDate endDate ->
            exists fixtures,
              generateRoundRobinSchedule leagueId teamIds startDate endDate venue
              = inr fixtures
              /\ List.length fixtures
                 < List.length teamIds * (List.length teamIds - 1) / 2
              /\ forall f, In f fixtures -> involves "dummy" f = false.
Proof.
  split; [reflexivity|]. exists ["a"; "b"; "dummy"]. repeat split.
  - repeat constructor; simpl; intuition discriminate.
  - simpl. lia.
  - simpl. tauto.
  - intros leagueId startDate endDate venue Hw.
    rewrite generate_closed_form by (assumption || (simpl; lia)).
    eexists. split; [reflexivity|].
    change (filter keep _) with [("a", "b")].
    cbn [fixtures_from List.length]. split.
    + change (3 * (3 - 1) / 2) with 3. lia.
    + intros f [<-|[]]. reflexivity.
Qed.

End GeneratorClaims.

(** ** II.8  The update of one entry *)

Section PerEntryUpdate.

Import Standings Ledger.

(** C7. Applying the update of an entry twice with the same arguments
    counts the match twice: two matches played, and twice the gain of one
    application in every other counter.  The update does not detect the
    repetition. *)
Theorem update_twice_counts_twice now isWinner sw sl gw gl ppw ppl (r : Ranking) :
  let once := updateWithMatchResult now isWinner sw sl gw gl ppw ppl r in
  let twice := updateWithMatchResult now isWinner sw sl gw gl ppw ppl once in
  matchesPlayed once = (matchesPlayed r + 1)%Z
  /\ matchesPlayed twice = (matchesPlayed r + 2)%Z
  /\ (matchesWon twice - matchesWon r = 2 * (matchesWon once - matchesWon r))%Z
  /\ (matchesLost twice - matchesLost r = 2 * (matchesLost once - matchesLost r))%Z
  /\ (points twice - points r = 2 * (points once - points r))%Z
  /\ (setsWon twice - setsWon r = 2 * (setsWon once - setsWon r))%Z
  /\ (setsLost twice - setsLost r = 2 * (setsLost once - setsLost r))%Z
  /\ (gamesWon twice - gamesWon r = 2 * (gamesWon once - gamesWon r))%Z
  /\ (gamesLost twice - gamesLost r = 2 * (gamesLost once - gamesLost r))%Z
  /\ twice <> once.
Proof.
  cbv zeta. unfold updateWithMatchResult.
  destruct isWinner; cbn [matchesPlayed matchesWon matchesLost points
                          setsWon setsLost gamesWon gamesLost];
    repeat split; try lia;
    intros E; injection E; lia.
Qed.

(** C10. The update of an entry keeps [matchesWon + matchesLost =
    matchesPlayed]; and with non-negative points per win and per loss, set
    counts and game counts it lowers none of the counters.  Each of the two
    holds on its own. *)
Theorem update_keeps_invariant now isWinner sw sl gw gl ppw ppl (r : Ranking) :
  let r' := updateWithMatchResult now isWinner sw sl gw gl ppw ppl r in
  ((matchesWon r + matchesLost r = matchesPlayed r)%Z ->
   (matchesWon r' + matchesLost r' = matchesPlayed r')%Z)
  /\ ((0 <= ppw)%Z -> (0 <= ppl)%Z ->
      (0 <= sw)%Z -> (0 <= sl)%Z -> (0 <= gw)%Z -> (0 <= gl)%Z ->
      (matchesPlayed r <= matchesPlayed r')%Z
      /\ (matchesWon r <= matchesWon r')%Z
      /\ (matchesLost r <= matchesLost r')%Z
      /\ (setsWon r <= setsWon r')%Z
      /\ (setsLost r <= setsLost r')%Z
      /\ (gamesWon r <= gamesWon r')%Z
      /\ (gamesLost r <= gamesLost r')%Z
      /\ (points r <= points r')%Z).
Proof.
  cbv zeta. unfold updateWithMatchResult.
  destruct isWinner; cbn [matchesPlayed matchesWon matchesLost points
                          setsWon setsLost gamesWon gamesLost];
    (split; [intros Hinv | intros Hw Hl Hsw Hsl Hgw Hgl; repeat split]); lia.
Qed.

Lemma update_keeps_invariant_example :
  let r := mkRanking "L" "A" 2 3%Z 2%Z 1%Z 4%Z 3%Z 30%Z 25%Z 6%Z 0%Z in
  let r' := updateWithMatchResult 7%Z true 2%Z 1%Z 16%Z 11%Z 3%Z 0%Z r in
  (matchesWon r' + matchesLost r' = matchesPlayed r')%Z
  /\ (matchesPlayed r <= matchesPlayed r')%Z
  /\ (matchesWon r <= matchesWon r')%Z
  /\ (matchesLost r <= matchesLost r')%Z
  /\ (setsWon r <= setsWon r')%Z
  /\ (setsLost r <= setsLost r')%Z
  /\ (gamesWon r <= gamesWon r')%Z
  /\ (gamesLost r <= gamesLost r')%Z
  /\ (points r <= points r')%Z.
Proof.
  destruct (update_keeps_invariant 7%Z true 2%Z 1%Z 16%Z 11%Z 3%Z 0%Z
              (mkRanking "L" "A" 2 3%Z 2%Z 1%Z 4%Z 3%Z 30%Z 25%Z 6%Z 0%Z))
    as [Hinv Hmono].
  split; [apply Hinv; reflexivity | apply Hmono; simpl; lia].
Defined.

End PerEntryUpdate.

(** ** II.9  The collection of rankings *)

Section Store.

Import Standings Ledger.

Lemma same_doc_key x y : same_doc x y = true <-> key x = key y.
Proof.
  unfold same_doc, key. rewrite andb_true_iff, !String.eqb_eq.
  split; [intros [-> ->]; reflexivity | intros E; injection E; auto].
Qed.

Lemma key_set_rank k r : key (set_rank k r) = key r.
Proof. reflexivity. Qed.

Lemma key_update now w sw sl gw gl ppw ppl r :
  key (updateWithMatchResult now w sw sl gw gl ppw ppl r) = key r.
Proof. unfold updateWithMatchResult. now destruct w. Qed.

Lemma findOne_cons lg tm r db :
  findOne lg tm (r :: db)
  = if (league r =? lg)%string && (team r =? tm)%string then Some r
    else findOne lg tm db.
Proof. reflexivity. Qed.

Lemma key_eqb lg tm r :
  (league r =? lg)%string && (team r =? tm)%string = true <-> key r = (lg, tm).
Proof.
  unfold key. rewrite andb_true_iff, !String.eqb_eq.
  split; [intros [-> ->]; reflexivity | intros E; injection E; auto].
Qed.

Lemma findOne_save_same doc db :
  findOne (league doc) (team doc) (save doc db) = Some doc.
Proof.
  assert (Hd : (league doc =? league doc)%string
               && (team doc =? team doc)%string = true)
    by (apply key_eqb; reflexivity).
  induction db as [|r db IH]; cbn [save].
  - rewrite findOne_cons, Hd. reflexivity.
  - destruct (same_doc r doc) eqn:E; rewrite findOne_cons.
    + now rewrite Hd.
    + destruct ((league r =? league doc)%string && (team r =? team doc)%string) eqn:E'.
      * apply key_eqb in E'. apply (proj2 (same_doc_key r doc)) in E'. congruence.
      * exact IH.
Qed.

Lemma findOne_save_other doc db lg tm :
  key doc <> (lg, tm) -> findOne lg tm (save doc db) = findOne lg tm db.
Proof.
  intros Hk.
  assert (Hd : (league doc =? lg)%string && (team doc =? tm)%string = false).
  { destruct ((league doc =? lg)%string && (team doc =? tm)%string) eqn:E;
      [apply key_eqb in E; contradiction | reflexivity]. }
  induction db as [|r db IH]; cbn [save].
  - rewrite findOne_cons, Hd. reflexivity.
  - destruct (same_doc r doc) eqn:E; rewrite !findOne_cons.
    + rewrite Hd. apply same_doc_key in E.
      destruct ((league r =? lg)%string && (team r =? tm)%string) eqn:E';
        [apply key_eqb in E'; congruence | reflexivity].
    + now rewrite IH.
Qed.

Lemma keys_save_present doc db :
  In (key doc) (keys db) -> keys (save doc db) = keys db.
Proof.
  induction db as [|r db IH]; intros Hin; [destruct Hin|].
  cbn [save]. destruct (same_doc r doc) eqn:E.
  - apply same_doc_key in E. cbn [keys map]. now rewrite E.
  - cbn [keys map]. f_equal. apply IH. destruct Hin as [Hin|Hin]; [|assumption].
    apply (proj2 (same_doc_key r doc)) in Hin. congruence.
Qed.

Lemma keys_save_absent doc db :
  ~ In (key doc) (keys db) -> keys (save doc db) = keys db ++ [key doc].
Proof.
  induction db as [|r db IH]; intros Hin; [reflexivity|].
  cbn [save]. destruct (same_doc r doc) eqn:E.
  - apply same_doc_key in E. exfalso. apply Hin. left. assumption.
  - cbn [keys map app]. f_equal. apply IH. intros H. apply Hin. now right.
Qed.

Lemma NoDup_keys_save doc db : NoDup (keys db) -> NoDup (keys (save doc db)).
Proof.
  intros Hnd.
  assert (dec : forall x y : string * string, {x = y} + {x <> y})
    by (decide equality; apply String.string_dec).
  destruct (in_dec dec (key doc) (keys db)) as [Hin|Hin].
  - now rewrite keys_save_present.
  - rewrite keys_save_absent by assumption.
    apply NoDup_app; repeat split; auto.
    + repeat constructor. intros [].
    + intros k Hk [<-|[]]. contradiction.
Qed.

Lemma findOne_Some lg tm db r :
  findOne lg tm db = Some r -> In r db /\ key r = (lg, tm).
Proof.
  unfold findOne. intros E. apply find_some in E as [Hin Hk].
  split; [assumption | now apply key_eqb].
Qed.

Lemma findOne_In db r :
  NoDup (keys db) -> In r db -> findOne (league r) (team r) db = Some r.
Proof.
  induction db as [|x db IH]; intros Hnd Hin; [destruct Hin|].
  cbn [keys map] in Hnd. apply NoDup_cons_iff in Hnd as [Hx Hnd].
  rewrite findOne_cons. destruct Hin as [->|Hin].
  - replace ((league r =? league r)%string && (team r =? team r)%string) with true;
      [reflexivity|]. symmetry. now apply key_eqb.
  - destruct ((league x =? league r)%string && (team x =? team r)%string) eqn:E.
    + apply key_eqb in E. exfalso. apply Hx. change (league r, team r) with (key r) in E.
      rewrite E. now apply in_map.
    + now apply IH.
Qed.

Lemma NoDup_keys_elements db : NoDup (keys db) -> NoDup db.
Proof. apply NoDup_map_inv. Qed.

Lemma in_find_league lg db r :
  In r (find_league lg db) <-> In r db /\ league r = lg.
Proof. unfold find_league. now rewrite filter_In, String.eqb_eq. Qed.

Lemma NoDup_keys_find_league lg db :
  NoDup (keys db) -> NoDup (keys (find_league lg db)).
Proof.
  unfold keys, find_league. induction db as [|r db IH]; intros Hnd; [constructor|].
  cbn [map] in Hnd. apply NoDup_cons_iff in Hnd as [Hr Hnd]. cbn [filter].
  destruct (league r =? lg)%string; [|auto].
  cbn [map]. constructor; [|auto].
  intros Hin. apply Hr. apply in_map_iff in Hin as (x & E & Hx).
  apply filter_In in Hx as [Hx _]. rewrite <- E. now apply in_map.
Qed.

End Store.

(** ** II.10  Sorting and the assignment of ranks *)

Section Sorting.

Import Standings Ledger.

Lemma sorts_before_order x y : sorts_before x y = true -> in_rank_order x y.
Proof.
  unfold sorts_before, in_rank_order. rewrite orb_true_iff, andb_true_iff.
  rewrite !Z.gtb_gt, Z.eqb_eq. lia.
Qed.

Lemma not_sorts_before_order x y : sorts_before y x = false -> in_rank_order x y.
Proof.
  unfold sorts_before, in_rank_order. rewrite orb_false_iff, andb_false_iff.
  rewrite !Z.gtb_ltb, !Z.ltb_ge, Z.eqb_neq. lia.
Qed.

Lemma in_rank_order_trans x y z :
  in_rank_order x y -> in_rank_order y z -> in_rank_order x z.
Proof. unfold in_rank_order. lia. Qed.

Lemma insert_sorted_perm x l : Permutation (insert_sorted x l) (x :: l).
Proof.
  induction l as [|y l IH]; cbn [insert_sorted]; [reflexivity|].
  destruct (sorts_before y x); [|reflexivity].
  rewrite IH. apply perm_swap.
Qed.

Lemma sort_rankings_perm l : Permutation (sort_rankings l) l.
Proof.
  induction l as [|x l IH]; cbn [sort_rankings fold_right]; [reflexivity|].
  fold (sort_rankings l). now rewrite insert_sorted_perm, IH.
Qed.

Lemma insert_sorted_sorted x l :
  StronglySorted in_rank_order l ->
  StronglySorted in_rank_order (insert_sorted x l).
Proof.
  induction 1 as [|y l Hl IH Hy]; cbn [insert_sorted].
  - repeat constructor.
  - destruct (sorts_before y x) eqn:E.
    + constructor; [assumption|].
      apply (Permutation_Forall (Permutation_sym (insert_sorted_perm x l))).
      constructor; [now apply sorts_before_order | assumption].
    + apply not_sorts_before_order in E.
      constructor; [now constructor|].
      constructor; [assumption|].
      eapply Forall_impl; [|exact Hy]. intros z. now apply in_rank_order_trans.
Qed.

Lemma sort_rankings_sorted l : StronglySorted in_rank_order (sort_rankings l).
Proof.
  induction l as [|x l IH]; cbn [sort_rankings fold_right]; [constructor|].
  now apply insert_sorted_sorted.
Qed.

Lemma in_ranked i l x :
  In x (ranked i l)
  <-> exists j r, nth_error l j = Some r /\ x = set_rank (i + j + 1) r.
Proof.
  revert i; induction l as [|y l IH]; intros i; cbn [ranked].
  - split; [intros [] | intros (j & r & E & _); destruct j; discriminate].
  - cbn [In]. rewrite IH. split.
    + intros [<-|(j & r & E & ->)].
      * exists 0, y. rewrite Nat.add_0_r. auto.
      * exists (S j), r. split; [assumption|]. f_equal. lia.
    + intros ([|j] & r & E & ->); cbn in E.
      * left. injection E as ->. now rewrite Nat.add_0_r.
      * right. exists j, r. split; [assumption|]. f_equal. lia.
Qed.

Lemma keys_ranked i l : keys (ranked i l) = keys l.
Proof.
  revert i; induction l as [|y l IH]; intros i; [reflexivity|].
  cbn [ranked keys map]. f_equal. apply IH.
Qed.

Lemma rank_ranked i l : map rank (ranked i l) = seq (i + 1) (List.length l).
Proof.
  revert i; induction l as [|y l IH]; intros i; [reflexivity|].
  cbn [ranked map List.length seq]. f_equal. rewrite IH. reflexivity.
Qed.

Lemma ranked_sorted i l :
  StronglySorted in_rank_order l -> StronglySorted in_rank_order (ranked i l).
Proof.
  intros Hl. revert i. induction Hl as [|y l Hl IH Hy]; intros i; cbn [ranked].
  - constructor.
  - constructor; [apply IH|].
    apply Forall_forall. intros x Hx. apply in_ranked in Hx as (j & r & E & ->).
    apply nth_error_In in E. rewrite Forall_forall in Hy. exact (Hy r E).
Qed.

End Sorting.

Section AssignRanks.

Import Standings Ledger.

Lemma keys_assign_ranks i l db :
  (forall r, In r l -> In (key r) (keys db)) ->
  keys (assign_ranks i l db) = keys db.
Proof.
  revert i db; induction l as [|x l IH]; intros i db Hin; [reflexivity|].
  cbn [assign_ranks].
  assert (E : keys (save (set_rank (i + 1) x) db) = keys db).
  { apply keys_save_present. rewrite key_set_rank. apply Hin. now left. }
  rewrite IH; [assumption|]. intros r Hr. rewrite E. apply Hin. now right.
Qed.

Lemma findOne_assign_ranks_other i l db lg tm :
  ~ In (lg, tm) (keys l) ->
  findOne lg tm (assign_ranks i l db) = findOne lg tm db.
Proof.
  revert i db; induction l as [|x l IH]; intros i db Hin; [reflexivity|].
  cbn [assign_ranks]. rewrite IH.
  - apply findOne_save_other. rewrite key_set_rank. intros E. apply Hin. now left.
  - intros H. apply Hin. now right.
Qed.

Lemma findOne_assign_ranks_at i l db j r :
  NoDup (keys l) -> nth_error l j = Some r ->
  findOne (league r) (team r) (assign_ranks i l db)
  = Some (set_rank (i + j + 1) r).
Proof.
  revert i j db; induction l as [|x l IH]; intros i j db Hnd E.
  - destruct j; discriminate.
  - cbn [keys map] in Hnd. apply NoDup_cons_iff in Hnd as [Hx Hnd].
    cbn [assign_ranks]. destruct j as [|j]; cbn in E.
    + injection E as ->. rewrite findOne_assign_ranks_other by exact Hx.
      rewrite Nat.add_0_r. apply (findOne_save_same (set_rank (i + 1) r)).
    + rewrite (IH (S i) j) by assumption. do 2 f_equal. lia.
Qed.

End AssignRanks.

(** ** II.11  The recomputation of the ranks *)

Section Recompute.

Import Standings Ledger.

Lemma key_entry_or_zero now lg tm db : key (entry_or_zero now lg tm db) = (lg, tm).
Proof.
  unfold entry_or_zero. destruct (findOne lg tm db) as [r|] eqn:E; [|reflexivity].
  now apply findOne_Some in E.
Qed.

Lemma update_side_save now lg tm w sw sl gw gl ppw ppl db :
  update_side now lg tm w sw sl gw gl ppw ppl db
  = save (updateWithMatchResult now w sw sl gw gl ppw ppl
            (entry_or_zero now lg tm db)) db.
Proof. reflexivity. Qed.

Lemma findOne_update_side_same now lg tm w sw sl gw gl ppw ppl db :
  findOne lg tm (update_side now lg tm w sw sl gw gl ppw ppl db)
  = Some (updateWithMatchResult now w sw sl gw gl ppw ppl
            (entry_or_zero now lg tm db)).
Proof.
  rewrite update_side_save.
  pose proof (key_update now w sw sl gw gl ppw ppl (entry_or_zero now lg tm db)) as E.
  rewrite key_entry_or_zero in E. unfold key in E. injection E as E1 E2.
  pose proof (findOne_save_same
                (updateWithMatchResult now w sw sl gw gl ppw ppl
                   (entry_or_zero now lg tm db)) db) as F.
  now rewrite E1, E2 in F.
Qed.

Lemma findOne_update_side_other now lg tm w sw sl gw gl ppw ppl db lg' tm' :
  (lg, tm) <> (lg', tm') ->
  findOne lg' tm' (update_side now lg tm w sw sl gw gl ppw ppl db)
  = findOne lg' tm' db.
Proof.
  intros Hk. rewrite update_side_save. apply findOne_save_other.
  now rewrite key_update, key_entry_or_zero.
Qed.

Lemma NoDup_keys_update_side now lg tm w sw sl gw gl ppw ppl db :
  NoDup (keys db) -> NoDup (keys (update_side now lg tm w sw sl gw gl ppw ppl db)).
Proof. rewrite update_side_save. apply NoDup_keys_save. Qed.

(** The loop that follows the sort: the league's documents, as stored
    afterwards, are the sorted ones with the ranks 1, 2, ... *)
Lemma rerank_stored lg db :
  NoDup (keys db) ->
  let sorted := sort_rankings (find_league lg db) in
  Permutation (ranked 0 sorted) (find_league lg (assign_ranks 0 sorted db)).
Proof.
  intros Hnd sorted.
  assert (Hperm : Permutation sorted (find_league lg db))
    by apply sort_rankings_perm.
  assert (Hin : forall r, In r sorted <-> In r db /\ league r = lg).
  { intros r. rewrite <- in_find_league. split; apply Permutation_in;
      [assumption | now apply Permutation_sym]. }
  assert (Hks : NoDup (keys sorted)).
  { unfold keys. rewrite Hperm. now apply NoDup_keys_find_league. }
  assert (Hkeys : keys (assign_ranks 0 sorted db) = keys db).
  { apply keys_assign_ranks. intros r Hr. apply Hin in Hr as [Hr _].
    now apply in_map. }
  assert (Hnd' : NoDup (keys (assign_ranks 0 sorted db))) by now rewrite Hkeys.
  apply NoDup_Permutation.
  - apply NoDup_keys_elements. now rewrite keys_ranked.
  - apply NoDup_keys_elements. now apply NoDup_keys_find_league.
  - intros x. rewrite in_ranked, in_find_league. split.
    + intros (j & r & E & ->).
      pose proof (findOne_assign_ranks_at 0 sorted db j r Hks E) as F.
      apply findOne_Some in F as [F _]. split; [exact F|].
      apply nth_error_In, Hin in E. apply E.
    + intros [Hx Hlg].
      assert (Hk : In (key x) (keys db)) by (rewrite <- Hkeys; now apply in_map).
      apply in_map_iff in Hk as (r0 & Hk & Hr0).
      assert (Hs : In r0 sorted).
      { apply Hin. split; [assumption|]. unfold key in Hk. injection Hk as -> _.
        assumption. }
      apply In_nth_error in Hs as [j E]. exists j, r0. split; [assumption|].
      pose proof (findOne_assign_ranks_at 0 sorted db j r0 Hks E) as F.
      pose proof (findOne_In _ x Hnd' Hx) as G.
      unfold key in Hk. injection Hk as E1 E2. rewrite E1, E2 in F. congruence.
Qed.

Lemma keys_update_side now lg tm w sw sl gw gl ppw ppl db :
  (In (lg, tm) (keys db)
   /\ keys (update_side now lg tm w sw sl gw gl ppw ppl db) = keys db)
  \/ (~ In (lg, tm) (keys db)
      /\ keys (update_side now lg tm w sw sl gw gl ppw ppl db)
         = keys db ++ [(lg, tm)]).
Proof.
  rewrite update_side_save.
  pose proof (key_update now w sw sl gw gl ppw ppl (entry_or_zero now lg tm db)) as K.
  rewrite key_entry_or_zero in K.
  assert (dec : forall x y : string * string, {x = y} + {x <> y})
    by (decide equality; apply String.string_dec).
  destruct (in_dec dec (lg, tm) (keys db)) as [Hin|Hin]; [left|right];
    (split; [assumption|]).
  - apply keys_save_present. now rewrite K.
  - rewrite keys_save_absent by now rewrite K. now rewrite K.
Qed.

Lemma In_save doc db r : In r (save doc db) -> r = doc \/ In r db.
Proof.
  induction db as [|x db IH]; cbn [save].
  - intros [<-|[]]. now left.
  - destruct (same_doc x doc); cbn [In]; intros [<-|H]; auto.
    destruct (IH H); auto.
Qed.

Lemma team_updated now lg tm w sw sl gw gl ppw ppl db :
  team (updateWithMatchResult now w sw sl gw gl ppw ppl (entry_or_zero now lg tm db))
  = tm.
Proof.
  pose proof (key_update now w sw sl gw gl ppw ppl (entry_or_zero now lg tm db)) as K.
  rewrite key_entry_or_zero in K. unfold key in K. now injection K.
Qed.

Lemma In_update_side now lg tm w sw sl gw gl ppw ppl db r :
  In r (update_side now lg tm w sw sl gw gl ppw ppl db) -> team r = tm \/ In r db.
Proof.
  rewrite update_side_save. intros H. apply In_save in H as [->|H]; [left|now right].
  apply team_updated.
Qed.

Lemma key_in_update_side now lg tm w sw sl gw gl ppw ppl db :
  In (lg, tm) (keys (update_side now lg tm w sw sl gw gl ppw ppl db))
  /\ incl (keys db) (keys (update_side now lg tm w sw sl gw gl ppw ppl db)).
Proof.
  destruct (keys_update_side now lg tm w sw sl gw gl ppw ppl db) as [[I K]|[I K]];
    rewrite K; unfold incl; split; intros; rewrite ?in_app_iff; cbn [In]; auto.
Qed.

(** An entry with the key [(lg, tm)] is among the ranked ones. *)
Lemma key_ranked lg tm db :
  In (lg, tm) (keys db) ->
  exists x, In x (ranked 0 (sort_rankings (find_league lg db))) /\ team x = tm.
Proof.
  intros H. apply in_map_iff in H as (r & K & Hr).
  unfold key in K. injection K as Hl Ht.
  assert (Hs : In r (sort_rankings (find_league lg db))).
  { apply (Permutation_in _ (Permutation_sym (sort_rankings_perm _))).
    now apply in_find_league. }
  apply In_nth_error in Hs as [j Hj].
  exists (set_rank (0 + j + 1) r). split; [|exact Ht].
  apply in_ranked. eauto.
Qed.

(** C3. After an update of the standings the league's entries, as
    stored, are in the order of non-increasing points, ties by non-increasing
    matches won, with the ranks 1 .. N along that order.  They are the
    entries of all the teams of the league: each team once; every entry the
    league had for a team that did not play, unchanged but for its rank; an
    entry for each of the two teams that played; and no other. *)
Theorem ranks_follow_points now leagueId teamAId teamBId winnerId
    teamAScore teamBScore pointsPerWin pointsPerLoss (db : Rankings) :
  NoDup (keys db) ->
  let db' := updateRankings now leagueId teamAId teamBId winnerId
               teamAScore teamBScore pointsPerWin pointsPerLoss db in
  exists standings,
    Permutation standings (find_league leagueId db')
    /\ StronglySorted in_rank_order standings
    /\ map rank standings = seq 1 (List.length standings)
    /\ NoDup (map team standings)
    /\ (forall r, In r (find_league leagueId db) ->
          team r <> teamAId -> team r <> teamBId ->
          exists k, In (set_rank k r) standings)
    /\ (exists x, In x standings /\ team x = teamAId)
    /\ (exists y, In y standings /\ team y = teamBId)
    /\ (forall x, In x standings ->
          team x = teamAId \/ team x = teamBId
          \/ exists r, In r (find_league leagueId db) /\ x = set_rank (rank x) r).
Proof.
  intros Hnd db'. unfold updateRankings in db'.
  set (db1 := update_side now leagueId teamAId _ _ _ _ _ _ _ db) in db'.
  set (db2 := update_side now leagueId teamBId _ _ _ _ _ _ _ db1) in db'.
  assert (Hnd1 : NoDup (keys db1)) by (unfold db1; auto using NoDup_keys_update_side).
  assert (Hnd2 : NoDup (keys db2)) by (unfold db2; auto using NoDup_keys_update_side).
  set (sorted := sort_rankings (find_league leagueId db2)).
  assert (Hsorted : forall r, In r sorted <-> In r db2 /\ league r = leagueId).
  { intros r. rewrite <- in_find_league. split; apply Permutation_in;
      [apply sort_rankings_perm | apply Permutation_sym, sort_rankings_perm]. }
  exists (ranked 0 sorted).
  split; [now apply rerank_stored|].
  split; [apply ranked_sorted, sort_rankings_sorted|].
  split.
  { rewrite rank_ranked. f_equal. clear.
    generalize sorted as l. generalize 0.
    intros i l; revert i; induction l; intros; cbn [ranked List.length]; auto. }
  split.
  { assert (Hk : NoDup (keys (ranked 0 sorted))).
    { rewrite keys_ranked. unfold keys, sorted.
      rewrite (sort_rankings_perm (find_league leagueId db2)).
      now apply NoDup_keys_find_league. }
    assert (Hl : forall x, In x (ranked 0 sorted) -> league x = leagueId).
    { intros x Hx. apply in_ranked in Hx as (j & r & E & ->).
      apply nth_error_In, Hsorted in E. apply E. }
    revert Hk Hl. generalize (ranked 0 sorted) as l.
    induction l as [|x l IH]; intros Hk Hl; cbn [map]; [constructor|].
    cbn [keys map] in Hk. apply NoDup_cons_iff in Hk as [Hx Hk].
    constructor; [|apply IH; auto; intros; apply Hl; now right].
    intros Hin. apply Hx. apply in_map_iff in Hin as (y & Ey & Hy).
    apply in_map_iff. exists y. split; [|assumption].
    unfold key. rewrite Ey, (Hl y) by now right. now rewrite (Hl x) by now left. }
  split.
  { intros r Hr HA HB. apply in_find_league in Hr as [Hr Hl].
    pose proof (findOne_In db r Hnd Hr) as F. rewrite Hl in F.
    assert (F2 : findOne leagueId (team r) db2 = Some r).
    { unfold db2, db1. rewrite !findOne_update_side_other by congruence. exact F. }
    apply findOne_Some in F2 as [Hin _].
    assert (Hs : In r sorted) by (apply Hsorted; auto).
    apply In_nth_error in Hs as [j Hj]. exists (0 + j + 1).
    apply in_ranked. eauto. }
  split.
  { apply key_ranked. unfold db2.
    apply (proj2 (key_in_update_side _ _ _ _ _ _ _ _ _ _ db1)).
    unfold db1. exact (proj1 (key_in_update_side _ _ _ _ _ _ _ _ _ _ db)). }
  split.
  { apply key_ranked. unfold db2.
    exact (proj1 (key_in_update_side _ _ _ _ _ _ _ _ _ _ db1)). }
  intros x Hx. apply in_ranked in Hx as (j & r & E & ->).
  apply nth_error_In, Hsorted in E as [Hr Hl]. cbn [set_rank team rank].
  apply In_update_side in Hr as [Ht|Hr]; [auto|].
  apply In_update_side in Hr as [Ht|Hr]; [auto|].
  right. right. exists r. split; [now apply in_find_league | reflexivity].
Qed.

End Recompute.

(** ** II.12  Counting sets and games *)

Section Scores.

Import Standings MatchRoute Ledger Validation.

Lemma count_wins_tally a b idxs wA wB db :
  count_wins a b idxs wA wB db
  = (db, tally (map (fun i => (at_index a i, at_index b i)) idxs) wA wB).
Proof.
  revert wA wB; induction idxs as [|i idxs IH]; intros wA wB; [reflexivity|].
  cbn [count_wins map tally fst snd].
  destruct (js_gt (at_index a i) (at_index b i)); [apply IH|].
  destruct (js_gt (at_index b i) (at_index a i)); [apply IH|reflexivity].
Qed.

Lemma sets_read a b :
  List.length a = List.length b ->
  map (fun i => (at_index a i, at_index b i)) (seq 0 (List.length a))
  = map both (combine a b).
Proof.
  revert b; induction a as [|x a IH]; intros [|y b] E; try discriminate;
    [reflexivity|].
  cbn [List.length seq map combine]. f_equal.
  rewrite <- seq_shift, map_map. cbn [at_index nth_error].
  apply IH. now injection E.
Qed.

Lemma tally_sets ps wA wB :
  tally (map both ps) wA wB
  = if existsb tied ps then inl TiedSet
    else inr (wA + List.length (filter a_wins ps),
              wB + List.length (filter b_wins ps)).
Proof.
  revert wA wB; induction ps as [|[x y] ps IH]; intros wA wB.
  - cbn. now rewrite !Nat.add_0_r.
  - cbn [map tally both fst snd js_gt existsb filter].
    unfold a_wins at 1, b_wins at 1, tied at 1. cbn [fst snd].
    destruct (Z.gtb_spec x y), (Z.gtb_spec y x), (Z.eqb_spec x y); try lia;
      cbn [orb]; rewrite ?IH; try reflexivity;
      destruct (existsb tied ps); try reflexivity;
      cbn [List.length]; do 2 f_equal; lia.
Qed.

Lemma filter_wins_swap a b :
  List.length (filter b_wins (combine a b))
  = List.length (filter a_wins (combine b a)).
Proof.
  revert b; induction a as [|x a IH]; intros [|y b]; try reflexivity.
  cbn [combine filter]. unfold a_wins at 1, b_wins at 1. cbn [fst snd].
  destruct (y >? x)%Z; cbn [List.length]; now rewrite IH.
Qed.

Lemma set_wins_filter a b :
  set_wins a b = Z.of_nat (List.length (filter a_wins (combine a b))).
Proof. reflexivity. Qed.

Lemma tied_iff a b :
  existsb tied (combine a b) = true <-> has_tied_set a b.
Proof.
  unfold has_tied_set. revert b; induction a as [|x a IH]; intros b.
  - cbn. split; [discriminate | intros ([|i] & y & E & _); discriminate].
  - destruct b as [|y b].
    + cbn. split; [discriminate | intros ([|i] & z & _ & E); discriminate].
    + cbn [combine existsb]. rewrite orb_true_iff, IH.
      unfold tied at 1. cbn [fst snd]. rewrite Z.eqb_eq. split.
      * intros [->|(i & z & E1 & E2)]; [exists 0, y; auto | exists (S i), z; auto].
      * intros ([|i] & z & E1 & E2); cbn in E1, E2; [left; congruence | right; eauto].
Qed.

Lemma filter_indexed_beyond theirs k mine :
  List.length theirs <= k ->
  filter_indexed (fun score index => js_gt (Some score) (at_index theirs index))
                 k mine = [].
Proof.
  revert k; induction mine as [|x mine IH]; intros k Hk; [reflexivity|].
  cbn [filter_indexed]. unfold at_index at 1.
  rewrite (proj2 (nth_error_None _ _)) by assumption. cbn [js_gt].
  apply IH. lia.
Qed.

Lemma setsWonBy_set_wins mine theirs : setsWonBy mine theirs = set_wins mine theirs.
Proof.
  unfold setsWonBy, set_wins. f_equal.
  enough (G : forall pre,
             List.length
               (filter_indexed
                  (fun score index => js_gt (Some score) (at_index (pre ++ theirs) index))
                  (List.length pre) mine)
             = List.length (filter (fun p => (fst p >? snd p)%Z) (combine mine theirs)))
    by exact (G []).
  revert theirs; induction mine as [|x mine IH]; intros theirs pre; [reflexivity|].
  destruct theirs as [|y theirs].
  - rewrite filter_indexed_beyond by (rewrite app_nil_r; lia). reflexivity.
  - assert (E : at_index (pre ++ y :: theirs) (List.length pre) = Some y).
    { unfold at_index. now rewrite nth_error_app2, Nat.sub_diag by lia. }
    specialize (IH theirs (pre ++ [y])).
    rewrite <- app_assoc, length_app, Nat.add_1_r in IH. cbn [app] in IH.
    cbn [filter_indexed combine filter fst snd]. rewrite E.
    change (js_gt (Some x) (Some y)) with (x >? y)%Z.
    destruct (x >? y)%Z; cbn [List.length]; now rewrite IH.
Qed.

Lemma gamesWonBy_games scores : gamesWonBy scores = games scores.
Proof.
  unfold gamesWonBy, games.
  enough (G : forall acc, fold_left (fun sum score => (sum + score)%Z) scores acc
                          = (acc + fold_right Z.add 0 scores)%Z) by (rewrite G; lia).
  induction scores as [|x l IH]; intros acc; cbn; [lia|]. rewrite IH. lia.
Qed.

End Scores.

(** ** II.13  The submission of a result *)

Section Submission.

Import Standings MatchRoute Ledger Validation.

Lemma scores_ok_nonnegative scores : scores_ok scores = true <-> nonnegative scores.
Proof.
  unfold scores_ok, nonnegative. rewrite forallb_forall, Forall_forall.
  split; intros H x Hx; specialize (H x Hx); lia.
Qed.

(** [match.save()] accepts the document of a recorded result exactly when
    it is storable. *)
Lemma validate_completed now userId nt a b w m :
  w = teamA m \/ w = teamB m ->
  validate_match (completed_match now userId nt a b w m) = true
  <-> storable now nt a b m.
Proof.
  intros Hw. unfold validate_match, result_ok, end_time_ok, notes_ok, winner_ok,
    storable, notes_fit, started_before, completed_match.
  cbn [result teamAScore teamBScore winner teamA teamB actualEndTime
       actualStartTime notes].
  assert (W : (w =? teamA m)%string || (w =? teamB m)%string = true).
  { apply orb_true_iff. rewrite !String.eqb_eq. exact Hw. }
  rewrite W, andb_true_r, !andb_true_iff, !scores_ok_nonnegative.
  destruct (actualStartTime m) as [st|]; destruct (notes_or nt (notes m)) as [n|];
    rewrite ?Z.gtb_gt, ?Nat.leb_le; intuition lia.
Qed.

Lemma submit_outcome now userId lg nt a b db :
  submitResult now userId lg (mkRequest (Some a) (Some b) nt) db
  = if negb (List.length a =? List.length b)%nat then (db, inl SetCountMismatch)
    else if (List.length a =? 0)%nat then (db, inl NoSets)
    else if existsb tied (combine a b) then (db, inl TiedSet)
    else if (set_wins b a <? set_wins a b)%Z
         then if validate_match
                   (completed_match now userId nt a b (teamA (match_doc db))
                      (match_doc db))
              then (accepted now userId lg nt a b (teamA (match_doc db)) db, inr tt)
              else (db, inl SaveRefused)
    else if (set_wins a b <? set_wins b a)%Z
         then if validate_match
                   (completed_match now userId nt a b (teamB (match_doc db))
                      (match_doc db))
              then (accepted now userId lg nt a b (teamB (match_doc db)) db, inr tt)
              else (db, inl SaveRefused)
    else (db, inl NoWinner).
Proof.
  unfold submitResult. cbn [req_teamAScore req_teamBScore req_notes].
  destruct (Nat.eqb_spec (List.length a) (List.length b)) as [Hlen|Hlen];
    cbn [negb]; [|reflexivity].
  destruct (List.length a =? 0)%nat; [reflexivity|].
  unfold bind at 1. rewrite count_wins_tally, sets_read, tally_sets by assumption.
  destruct (existsb tied (combine a b)); [reflexivity|].
  rewrite filter_wins_swap. cbn [Nat.add].
  rewrite !set_wins_filter.
  set (wA := List.length (filter a_wins (combine a b))).
  set (wB := List.length (filter a_wins (combine b a))).
  unfold bind, get, put, ret, throw, accepted, completed_match.
  destruct (Nat.ltb_spec wB wA), (Z.ltb_spec (Z.of_nat wB) (Z.of_nat wA)); try lia.
  { cbn [match_doc rankings]. now destruct (validate_match _). }
  destruct (Nat.ltb_spec wA wB), (Z.ltb_spec (Z.of_nat wA) (Z.of_nat wB)); try lia;
    [|reflexivity].
  cbn [match_doc rankings]. now destruct (validate_match _).
Qed.

(** The same, by the outcome: the four refusals of the result, the refusal
    of the document, or the store of an accepted submission. *)
Lemma submit_cases now userId lg nt a b db :
  let out := submitResult now userId lg (mkRequest (Some a) (Some b) nt) db in
  (out = (db, inl SetCountMismatch) /\ List.length a <> List.length b)
  \/ (out = (db, inl NoSets) /\ List.length a = List.length b /\ a = [])
  \/ (out = (db, inl TiedSet) /\ List.length a = List.length b /\ a <> []
       /\ has_tied_set a b)
  \/ (out = (db, inl NoWinner) /\ List.length a = List.length b /\ a <> []
       /\ ~ has_tied_set a b /\ set_wins a b = set_wins b a)
  \/ (valid_result a b
       /\ exists w,
            ((w = teamA (match_doc db) /\ (set_wins b a < set_wins a b)%Z)
             \/ (w = teamB (match_doc db) /\ (set_wins a b < set_wins b a)%Z))
            /\ ((out = (db, inl SaveRefused)
                 /\ ~ storable now nt a b (match_doc db))
                \/ (out = (accepted now userId lg nt a b w db, inr tt)
                    /\ storable now nt a b (match_doc db)))).
Proof.
  cbv zeta. rewrite submit_outcome.
  destruct (Nat.eqb_spec (List.length a) (List.length b)) as [Hlen|Hlen]; cbn [negb];
    [|now left].
  destruct (Nat.eqb_spec (List.length a) 0) as [H0|H0].
  { right. left. apply length_zero_iff_nil in H0. auto. }
  assert (Hne : a <> []) by (intros ->; now apply H0).
  destruct (existsb tied (combine a b)) eqn:Ht.
  { apply tied_iff in Ht. right. right. left. auto. }
  assert (Hnt : ~ has_tied_set a b) by (rewrite <- tied_iff; congruence).
  assert (S : forall w, w = teamA (match_doc db) \/ w = teamB (match_doc db) ->
              ((if validate_match (completed_match now userId nt a b w (match_doc db))
                then (accepted now userId lg nt a b w db, inr tt)
                else (db, inl SaveRefused)) = (db, inl SaveRefused)
               /\ ~ storable now nt a b (match_doc db))
              \/ ((if validate_match (completed_match now userId nt a b w (match_doc db))
                   then (accepted now userId lg nt a b w db, inr tt)
                   else (db, inl SaveRefused))
                  = (accepted now userId lg nt a b w db, inr tt)
                  /\ storable now nt a b (match_doc db))).
  { intros w Hw. pose proof (validate_completed now userId nt a b w _ Hw) as V.
    destruct (validate_match _); [right | left]; split; try reflexivity.
    - now apply V.
    - intros Hs. apply V in Hs. discriminate. }
  destruct (Z.ltb_spec (set_wins b a) (set_wins a b)) as [HA|HA].
  { do 4 right. split; [repeat split; auto; lia|].
    exists (teamA (match_doc db)). split; [left; auto|]. apply S. now left. }
  destruct (Z.ltb_spec (set_wins a b) (set_wins b a)) as [HB|HB].
  { do 4 right. split; [repeat split; auto; lia|].
    exists (teamB (match_doc db)). split; [right; auto|]. apply S. now right. }
  do 3 right. left. repeat split; auto. lia.
Qed.

Lemma submit_no_write now userId lg data db e :
  snd (submitResult now userId lg data db) = inl e ->
  fst (submitResult now userId lg data db) = db.
Proof.
  destruct data as [[a|] [b|] nt]; try (intros _; reflexivity).
  destruct (submit_cases now userId lg nt a b db)
    as [[E _]|[[E _]|[[E _]|[[E _]|(_ & w & _ & [[E _]|[E _]])]]]];
    cbv zeta in E; rewrite E; cbn [fst snd]; intros H; (reflexivity || discriminate).
Qed.

(** C4. A submission with both score arrays fails with an error of the
    specification's [InvalidResult] exactly when the arrays differ in length,
    are empty, hold a tied set or give both sides the same number of set
    wins.  A submission that fails, with one of these errors or because
    [match.save()] refuses the document, leaves the match and the standings
    as they were. *)
Theorem validation_precedes_mutation now userId lg (data : SubmitMatchResultRequest)
    nt a b (db : Db) :
  let out := submitResult now userId lg (mkRequest (Some a) (Some b) nt) db in
  ((exists e, snd out = inl e /\ invalid_result_error e)
   <-> (List.length a <> List.length b \/ (a = [] \/ b = [])
        \/ has_tied_set a b \/ set_wins a b = set_wins b a))
  /\ (forall e, snd out = inl e -> fst out = db)
  /\ (forall e, snd (submitResult now userId lg data db) = inl e ->
        fst (submitResult now userId lg data db) = db).
Proof.
  cbv zeta. split; [|split].
  - unfold invalid_result_error.
    destruct (submit_cases now userId lg nt a b db)
      as [[E H]|[[E H]|[[E H]|[[E H]|((Hlen & Hne & Hnt & Hw) & w & _ & [[E H]|[E H]])]]]];
      cbv zeta in E; rewrite E; cbn [snd].
    + split; [tauto | eauto 6].
    + split; [tauto | eauto 6].
    + split; [tauto | eauto 6].
    + split; [tauto | eauto 6].
    + split.
      * intros (e & Ee & He). injection Ee as <-.
        destruct He as [He|[He|[He|He]]]; discriminate.
      * intros [?|[[?|Hb]|[?|?]]]; try contradiction.
        subst b. destruct a; [contradiction | discriminate].
    + split.
      * intros (e & Ee & He). discriminate.
      * intros [?|[[?|Hb]|[?|?]]]; try contradiction.
        subst b. destruct a; [contradiction | discriminate].
  - apply submit_no_write.
  - apply submit_no_write.
Qed.

(** The refusal of the document by [match.save()], which the route answers
    with status 500, is the one other failure; nothing is written then. *)
Example negative_scores_are_not_stored :
  submitResult 100%Z "u" (mkLeague "L" 3 0)
    (mkRequest (Some [-1]%Z) (Some [-2]%Z) None)
    (mkDb (mkMatch "L" "A" "B" Schedule.scheduled None None None None None) [])
  = (mkDb (mkMatch "L" "A" "B" Schedule.scheduled None None None None None) [],
     inl SaveRefused).
Proof. reflexivity. Qed.

End Submission.

(** ** II.14  Both sides of a match *)

Section Symmetry.

Import Standings MatchRoute Ledger Validation.

Lemma gained_set_rank k before after :
  gained before (set_rank k after) = gained before after.
Proof. reflexivity. Qed.

Lemma gained_update now w sw sl gw gl ppw ppl r :
  gained r (updateWithMatchResult now w sw sl gw gl ppw ppl r)
  = (1, if w then 1 else 0, if w then 0 else 1, if w then ppw else ppl,
     sw, sl, gw, gl)%Z.
Proof.
  unfold gained, updateWithMatchResult.
  destruct w; cbn [matchesPlayed matchesWon matchesLost points
                   setsWon setsLost gamesWon gamesLost];
    repeat (f_equal; try lia).
Qed.

(** The recomputation of the ranks changes the rank of an entry only. *)
Lemma rerank_keeps_entry lg tm db r :
  NoDup (keys db) -> findOne lg tm db = Some r ->
  exists k,
    findOne lg tm (assign_ranks 0 (sort_rankings (find_league lg db)) db)
    = Some (set_rank k r).
Proof.
  intros Hnd E. apply findOne_Some in E as [Hin Hk].
  unfold key in Hk. injection Hk as Hl Ht.
  assert (Hs : In r (sort_rankings (find_league lg db))).
  { apply (Permutation_in _ (Permutation_sym (sort_rankings_perm _))).
    now apply in_find_league. }
  apply In_nth_error in Hs as [j Hj]. exists (0 + j + 1).
  rewrite <- Hl at 1. rewrite <- Ht. apply findOne_assign_ranks_at; [|assumption].
  unfold keys. rewrite (sort_rankings_perm (find_league lg db)).
  now apply NoDup_keys_find_league.
Qed.

Lemma updateRankings_sides now lg tA tB winnerId a b ppw ppl db :
  tA <> tB -> NoDup (keys db) ->
  let db' := updateRankings now lg tA tB winnerId a b ppw ppl db in
  exists kA kB,
    findOne lg tA db'
    = Some (set_rank kA
              (updateWithMatchResult now (winnerId =? tA)%string
                 (set_wins a b) (set_wins b a) (games a) (games b) ppw ppl
                 (entry_or_zero now lg tA db)))
    /\ findOne lg tB db'
       = Some (set_rank kB
                 (updateWithMatchResult now (winnerId =? tB)%string
                    (set_wins b a) (set_wins a b) (games b) (games a) ppw ppl
                    (entry_or_zero now lg tB db))).
Proof.
  intros Hab Hnd. cbv zeta. unfold updateRankings.
  rewrite !setsWonBy_set_wins, !gamesWonBy_games.
  set (db1 := update_side now lg tA _ _ _ _ _ _ _ db).
  set (db2 := update_side now lg tB _ _ _ _ _ _ _ db1).
  assert (Hnd2 : NoDup (keys db2))
    by (unfold db2, db1; auto using NoDup_keys_update_side).
  assert (EA : findOne lg tA db2
               = Some (updateWithMatchResult now (winnerId =? tA)%string
                         (set_wins a b) (set_wins b a) (games a) (games b) ppw ppl
                         (entry_or_zero now lg tA db))).
  { unfold db2. rewrite findOne_update_side_other by congruence.
    apply findOne_update_side_same. }
  assert (EB : findOne lg tB db2
               = Some (updateWithMatchResult now (winnerId =? tB)%string
                         (set_wins b a) (set_wins a b) (games b) (games a) ppw ppl
                         (entry_or_zero now lg tB db))).
  { unfold db2. rewrite findOne_update_side_same. do 2 f_equal.
    unfold entry_or_zero, db1. now rewrite findOne_update_side_other by congruence. }
  destruct (rerank_keeps_entry lg tA db2 _ Hnd2 EA) as [kA FA].
  destruct (rerank_keeps_entry lg tB db2 _ Hnd2 EB) as [kB FB].
  exists kA, kB. split; assumption.
Qed.

Lemma validate_set_rank k r :
  1 <= k -> validate_ranking r = true -> validate_ranking (set_rank k r) = true.
Proof.
  unfold validate_ranking. cbn [set_rank rank matchesPlayed matchesWon matchesLost
    setsWon setsLost gamesWon gamesLost points].
  rewrite !andb_true_iff, !Nat.leb_le. tauto.
Qed.

Lemma validate_update now w sw sl gw gl ppw ppl r :
  (0 <= sw)%Z -> (0 <= sl)%Z -> (0 <= gw)%Z -> (0 <= gl)%Z ->
  (0 <= ppw)%Z -> (0 <= ppl)%Z ->
  validate_ranking r = true ->
  validate_ranking (updateWithMatchResult now w sw sl gw gl ppw ppl r) = true.
Proof.
  intros Hsw Hsl Hgw Hgl Hw Hl. unfold validate_ranking, updateWithMatchResult.
  destruct w; cbn [rank matchesPlayed matchesWon matchesLost
                   setsWon setsLost gamesWon gamesLost points];
    rewrite !andb_true_iff, !Z.leb_le; intuition lia.
Qed.

Lemma validate_entry_or_zero now lg tm db :
  Forall (fun r => validate_ranking r = true) db ->
  validate_ranking (entry_or_zero now lg tm db) = true.
Proof.
  intros Hdb. unfold entry_or_zero. destruct (findOne lg tm db) as [r|] eqn:E.
  - apply findOne_Some in E as [Hin _]. rewrite Forall_forall in Hdb. auto.
  - reflexivity.
Qed.

Lemma Forall_save (P : Ranking -> Prop) doc db :
  Forall P db -> P doc -> Forall P (save doc db).
Proof.
  intros Hdb Hdoc. induction Hdb as [|r db Hr Hdb IH]; cbn [save].
  - now constructor.
  - destruct (same_doc r doc); constructor; auto.
Qed.

Lemma Forall_assign_ranks (P : Ranking -> Prop) i l db :
  Forall P db -> (forall k r, In r l -> 1 <= k -> P (set_rank k r)) ->
  Forall P (assign_ranks i l db).
Proof.
  revert i db. induction l as [|x l IH]; intros i db Hdb Hl; [exact Hdb|].
  cbn [assign_ranks]. apply IH.
  - apply Forall_save; [assumption|]. apply Hl; [now left | lia].
  - intros k r Hr. apply Hl. now right.
Qed.

Lemma set_wins_nonneg a b : (0 <= set_wins a b)%Z.
Proof. unfold set_wins. lia. Qed.

Lemma games_nonneg scores : nonnegative scores -> (0 <= games scores)%Z.
Proof.
  unfold games. induction 1 as [|x l Hx _ IH]; cbn [fold_right]; lia.
Qed.

(** With scores, points and stored entries within the schema of the
    rankings, every entry is within it after the update. *)
Lemma updateRankings_validates now lg tA tB winnerId a b ppw ppl db :
  nonnegative a -> nonnegative b -> (0 <= ppw)%Z -> (0 <= ppl)%Z ->
  Forall (fun r => validate_ranking r = true) db ->
  Forall (fun r => validate_ranking r = true)
         (updateRankings now lg tA tB winnerId a b ppw ppl db).
Proof.
  intros Ha Hb Hw Hl Hdb. unfold updateRankings.
  rewrite !setsWonBy_set_wins, !gamesWonBy_games.
  set (db1 := update_side now lg tA _ _ _ _ _ _ _ db).
  set (db2 := update_side now lg tB _ _ _ _ _ _ _ db1).
  assert (H1 : Forall (fun r => validate_ranking r = true) db1).
  { unfold db1. rewrite update_side_save. apply Forall_save; [assumption|].
    apply validate_update;
      auto using set_wins_nonneg, games_nonneg, validate_entry_or_zero. }
  assert (H2 : Forall (fun r => validate_ranking r = true) db2).
  { unfold db2. rewrite update_side_save. apply Forall_save; [assumption|].
    apply validate_update;
      auto using set_wins_nonneg, games_nonneg, validate_entry_or_zero. }
  apply Forall_assign_ranks; [assumption|].
  intros k r Hr Hk. apply validate_set_rank; [assumption|].
  apply (Permutation_in _ (sort_rankings_perm _)) in Hr.
  apply in_find_league in Hr as [Hr _]. rewrite Forall_forall in H2. auto.
Qed.

Lemma assign_ranks_accepted i l db :
  Forall (fun r => validate_ranking r = true) l ->
  assign_ranks_validated i l db = (assign_ranks i l db, true).
Proof.
  intros Hl. revert i db. induction Hl as [|r l Hr _ IH]; intros i db; [reflexivity|].
  cbn [assign_ranks_validated assign_ranks]. unfold save_validated.
  rewrite validate_set_rank by (lia || assumption). apply IH.
Qed.

Lemma update_side_accepted now lg tm w sw sl gw gl ppw ppl db :
  (0 <= sw)%Z -> (0 <= sl)%Z -> (0 <= gw)%Z -> (0 <= gl)%Z ->
  (0 <= ppw)%Z -> (0 <= ppl)%Z ->
  Forall (fun r => validate_ranking r = true) db ->
  update_side_validated now lg tm w sw sl gw gl ppw ppl db
  = Some (update_side now lg tm w sw sl gw gl ppw ppl db)
  /\ Forall (fun r => validate_ranking r = true)
            (update_side now lg tm w sw sl gw gl ppw ppl db).
Proof.
  intros Hsw Hsl Hgw Hgl Hw Hl Hdb.
  assert (V : validate_ranking
                (updateWithMatchResult now w sw sl gw gl ppw ppl
                   (entry_or_zero now lg tm db)) = true)
    by (apply validate_update; auto using validate_entry_or_zero).
  split.
  - unfold update_side_validated, save_validated. fold (entry_or_zero now lg tm db).
    now rewrite V.
  - rewrite update_side_save. now apply Forall_save.
Qed.

(** With scores, points and stored entries within the schema of the
    rankings, every [save()] of the update accepts its document, and the
    update is the function [updateRankings]. *)
Lemma updateRankings_accepted now lg tA tB winnerId a b ppw ppl db :
  nonnegative a -> nonnegative b -> (0 <= ppw)%Z -> (0 <= ppl)%Z ->
  Forall (fun r => validate_ranking r = true) db ->
  updateRankings_validated now lg tA tB winnerId a b ppw ppl db
  = (updateRankings now lg tA tB winnerId a b ppw ppl db, true).
Proof.
  intros Ha Hb Hw Hl Hdb. unfold updateRankings_validated, updateRankings.
  rewrite !setsWonBy_set_wins, !gamesWonBy_games.
  destruct (update_side_accepted now lg tA (winnerId =? tA)%string
              (set_wins a b) (set_wins b a) (games a) (games b) ppw ppl db)
    as [E1 H1]; auto using set_wins_nonneg, games_nonneg.
  rewrite E1.
  destruct (update_side_accepted now lg tB (winnerId =? tB)%string
              (set_wins b a) (set_wins a b) (games b) (games a) ppw ppl
              (update_side now lg tA (winnerId =? tA)%string
                 (set_wins a b) (set_wins b a) (games a) (games b) ppw ppl db))
    as [E2 H2]; auto using set_wins_nonneg, games_nonneg.
  rewrite E2.
  apply assign_ranks_accepted. apply Forall_forall. intros r Hr.
  apply (Permutation_in _ (sort_rankings_perm _)) in Hr.
  apply in_find_league in Hr as [Hr _]. rewrite Forall_forall in H2. auto.
Qed.

(** Outside these conditions a [save()] can be refused half-way, and what
    was written before it stays: with a negative [pointsPerLoss] the entry of
    the winner is stored and the entry of the loser is refused. *)
Example refused_entry_stops_the_update :
  updateRankings_validated 100%Z "L" "A" "B" "A" [6; 6]%Z [2; 3]%Z 3%Z (-1)%Z []
  = ([mkRanking "L" "A" 1 1%Z 1%Z 0%Z 2%Z 0%Z 12%Z 5%Z 3%Z 100%Z], false).
Proof. reflexivity. Qed.

(** C2. A valid result is applied to the entries of both teams, each
    created zeroed when absent: one more match played for each; for the
    winner one more match won and [pointsPerWin] points, for the loser one
    more match lost and [pointsPerLoss] points; each side gains its own set
    wins as sets won and the other side's as sets lost, its own games as
    games won and the other side's as games lost.  This is what the route
    does with a result it takes: the documents must be storable, that is,
    within their schemas (no negative score, notes of at most 500
    characters, a recorded start before now; points per win and per loss
    not negative, stored entries with counters that are not negative).
    Then every [save()] of the update accepts its document, and the entries
    stored afterwards are within the schema again. *)
Theorem standings_update_is_symmetric now userId lg nt a b (m : Match)
    (stored : Rankings) :
  valid_result a b ->
  storable now nt a b m ->
  (0 <= pointsPerWin lg)%Z -> (0 <= pointsPerLoss lg)%Z ->
  Forall (fun r => validate_ranking r = true) stored ->
  teamA m <> teamB m ->
  NoDup (keys stored) ->
  let out := submitResult now userId lg (mkRequest (Some a) (Some b) nt)
                          (mkDb m stored) in
  let aWon := (set_wins b a <? set_wins a b)%Z in
  snd out = inr tt
  /\ updateRankings_validated now (_id lg) (teamA m) (teamB m)
       (if aWon then teamA m else teamB m) a b
       (pointsPerWin lg) (pointsPerLoss lg) stored
     = (rankings (fst out), true)
  /\ Forall (fun r => validate_ranking r = true) (rankings (fst out))
  /\ exists entryA entryB,
       findOne (_id lg) (teamA m) (rankings (fst out)) = Some entryA
       /\ findOne (_id lg) (teamB m) (rankings (fst out)) = Some entryB
       /\ gained (entry_or_zero now (_id lg) (teamA m) stored) entryA
          = (1, if aWon then 1 else 0, if aWon then 0 else 1,
             if aWon then pointsPerWin lg else pointsPerLoss lg,
             set_wins a b, set_wins b a, games a, games b)%Z
       /\ gained (entry_or_zero now (_id lg) (teamB m) stored) entryB
          = (1, if aWon then 0 else 1, if aWon then 1 else 0,
             if aWon then pointsPerLoss lg else pointsPerWin lg,
             set_wins b a, set_wins a b, games b, games a)%Z.
Proof.
  intros (Hlen & Hne & Hnt & Hw) Hst Hppw Hppl Hval Hab Hnd. cbv zeta.
  rewrite submit_outcome.
  destruct (Nat.eqb_spec (List.length a) (List.length b)) as [_|?]; [|contradiction].
  cbn [negb].
  destruct (Nat.eqb_spec (List.length a) 0) as [H0|_].
  { apply length_zero_iff_nil in H0. contradiction. }
  destruct (existsb tied (combine a b)) eqn:Ht.
  { apply tied_iff in Ht. contradiction. }
  assert (EAB : (teamA m =? teamB m)%string = false) by now apply String.eqb_neq.
  assert (EBA : (teamB m =? teamA m)%string = false)
    by (apply String.eqb_neq; congruence).
  cbn [match_doc].
  rewrite (proj2 (validate_completed now userId nt a b (teamA m) m (or_introl eq_refl)))
    by exact Hst.
  rewrite (proj2 (validate_completed now userId nt a b (teamB m) m (or_intror eq_refl)))
    by exact Hst.
  destruct Hst as (Ha & Hb & _ & _).
  destruct (Z.ltb_spec (set_wins b a) (set_wins a b)) as [HA|HA].
  - cbn [fst snd accepted rankings match_doc]. split; [reflexivity|].
    split; [now apply updateRankings_accepted|].
    split; [now apply updateRankings_validates|].
    destruct (updateRankings_sides now (_id lg) (teamA m) (teamB m) (teamA m)
                a b (pointsPerWin lg) (pointsPerLoss lg) stored Hab Hnd)
      as (kA & kB & FA & FB).
    rewrite String.eqb_refl in FA. rewrite EAB in FB.
    eexists _, _. split; [exact FA|]. split; [exact FB|].
    rewrite !gained_set_rank, !gained_update. split; reflexivity.
  - destruct (Z.ltb_spec (set_wins a b) (set_wins b a)) as [HB|HB]; [|lia].
    cbn [fst snd accepted rankings match_doc]. split; [reflexivity|].
    split; [now apply updateRankings_accepted|].
    split; [now apply updateRankings_validates|].
    destruct (updateRankings_sides now (_id lg) (teamA m) (teamB m) (teamB m)
                a b (pointsPerWin lg) (pointsPerLoss lg) stored Hab Hnd)
      as (kA & kB & FA & FB).
    rewrite String.eqb_refl in FB. rewrite EBA in FA.
    eexists _, _. split; [exact FA|]. split; [exact FB|].
    rewrite !gained_set_rank, !gained_update. split; reflexivity.
Qed.

End Symmetry.

(** ** II.15  The examples of the specification *)

Section Examples.

Import Standings MatchRoute Ledger Validation.

Local Abbreviation theLeague := (mkLeague "L" 3 1).
Local Abbreviation theMatch :=
  (mkMatch "L" "A" "B" Schedule.in_progress None (Some 40%Z) None None None).
Local Abbreviation entryC :=
  (mkRanking "L" "C" 1 2%Z 2%Z 0%Z 4%Z 1%Z 26%Z 17%Z 6%Z 0%Z).

(** The result of the specification: A wins the sets 6-3 and 6-2, B the
    set 6-4. *)
Lemma result_6_4_6_is_valid : valid_result [6; 4; 6]%Z [3; 6; 2]%Z.
Proof.
  repeat split; try discriminate.
  rewrite <- tied_iff. vm_compute. discriminate.
Qed.

Lemma result_6_4_6_is_storable :
  storable 100%Z None [6; 4; 6]%Z [3; 6; 2]%Z theMatch.
Proof.
  unfold storable, nonnegative, notes_fit, started_before.
  cbn [notes_or notes actualStartTime].
  split; [repeat constructor; lia|]. split; [repeat constructor; lia|].
  split; [exact I | lia].
Qed.

Lemma standings_update_6_4_6 :
  let out := submitResult 100%Z "u" theLeague
               (mkRequest (Some [6; 4; 6]%Z) (Some [3; 6; 2]%Z) None)
               (mkDb theMatch [entryC]) in
  let aWon := (set_wins [3; 6; 2] [6; 4; 6] <? set_wins [6; 4; 6] [3; 6; 2])%Z in
  snd out = inr tt
  /\ updateRankings_validated 100%Z "L" "A" "B" (if aWon then "A" else "B")
       [6; 4; 6]%Z [3; 6; 2]%Z 3%Z 1%Z [entryC]
     = (rankings (fst out), true)
  /\ Forall (fun r => validate_ranking r = true) (rankings (fst out))
  /\ exists entryA entryB,
       findOne "L" "A" (rankings (fst out)) = Some entryA
       /\ findOne "L" "B" (rankings (fst out)) = Some entryB
       /\ gained (entry_or_zero 100%Z "L" "A" [entryC]) entryA
          = (1, if aWon then 1 else 0, if aWon then 0 else 1,
             if aWon then 3 else 1,
             set_wins [6; 4; 6] [3; 6; 2], set_wins [3; 6; 2] [6; 4; 6],
             games [6; 4; 6], games [3; 6; 2])%Z
       /\ gained (entry_or_zero 100%Z "L" "B" [entryC]) entryB
          = (1, if aWon then 0 else 1, if aWon then 1 else 0,
             if aWon then 1 else 3,
             set_wins [3; 6; 2] [6; 4; 6], set_wins [6; 4; 6] [3; 6; 2],
             games [3; 6; 2], games [6; 4; 6])%Z.
Proof.
  apply (standings_update_is_symmetric 100%Z "u" theLeague None
           [6; 4; 6]%Z [3; 6; 2]%Z theMatch [entryC]).
  - exact result_6_4_6_is_valid.
  - exact result_6_4_6_is_storable.
  - simpl. lia.
  - simpl. lia.
  - repeat constructor.
  - discriminate.
  - repeat constructor. simpl. tauto.
Defined.

(** The same submission, evaluated: the entries of A and B are created,
    A gets 2 sets and 16 games, B 1 set and 11 games, and the three teams
    are ranked by their points. *)
Example rankings_after_6_4_6 :
  rankings (fst (submitResult 100%Z "u" theLeague
                   (mkRequest (Some [6; 4; 6]%Z) (Some [3; 6; 2]%Z) None)
                   (mkDb theMatch [entryC])))
  = [mkRanking "L" "C" 1 2%Z 2%Z 0%Z 4%Z 1%Z 26%Z 17%Z 6%Z 0%Z;
     mkRanking "L" "A" 2 1%Z 1%Z 0%Z 2%Z 1%Z 16%Z 11%Z 3%Z 100%Z;
     mkRanking "L" "B" 3 1%Z 0%Z 1%Z 1%Z 2%Z 11%Z 16%Z 1%Z 100%Z].
Proof. reflexivity. Qed.

(** C2, as stated, fails in its example: B scores 3 + 6 + 2 = 11 games,
    so A loses 11 games, not 13. *)
Lemma games_lost_for_6_4_6_is_not_13 :
  ~ (exists entryA,
       findOne "L" "A"
         (rankings (fst (submitResult 100%Z "u" theLeague
                           (mkRequest (Some [6; 4; 6]%Z) (Some [3; 6; 2]%Z) None)
                           (mkDb theMatch [entryC]))))
       = Some entryA
       /\ (setsWon entryA, setsLost entryA, gamesWon entryA, gamesLost entryA)
          = (2, 1, 16, 13)%Z).
Proof.
  intros (entryA & E & G). vm_compute in E. injection E as <-. discriminate G.
Qed.

(** Tied sets are refused and nothing is written. *)
Example tied_sets_are_refused :
  submitResult 100%Z "u" theLeague
    (mkRequest (Some [6; 6]%Z) (Some [6; 6]%Z) None) (mkDb theMatch [entryC])
  = (mkDb theMatch [entryC], inl TiedSet).
Proof. reflexivity. Qed.

(** One set each is refused as well. *)
Example one_set_each_is_refused :
  submitResult 100%Z "u" theLeague
    (mkRequest (Some [6; 3]%Z) (Some [4; 6]%Z) None) (mkDb theMatch [entryC])
  = (mkDb theMatch [entryC], inl NoWinner).
Proof. reflexivity. Qed.

Local Abbreviation three_entries :=
  [mkRanking "L" "T3" 1 4%Z 2%Z 2%Z 5%Z 5%Z 40%Z 41%Z 6%Z 0%Z;
   mkRanking "L" "T2" 1 3%Z 2%Z 1%Z 5%Z 3%Z 40%Z 31%Z 9%Z 0%Z;
   mkRanking "M" "T1" 1 9%Z 9%Z 0%Z 18%Z 0%Z 99%Z 10%Z 27%Z 0%Z;
   mkRanking "L" "T1" 1 3%Z 3%Z 0%Z 6%Z 1%Z 40%Z 22%Z 9%Z 0%Z].

(** The ranking of the specification: points 9, 9, 6 with 3, 2, 2 matches
    won are ranked 1, 2, 3; the entry of another league is left alone. *)
Example ranks_for_9_9_6 :
  map (fun r => (Standings.league r, team r, points r, matchesWon r, rank r))
      (assign_ranks 0 (sort_rankings (find_league "L" three_entries))
                    three_entries)
  = [("L", "T3", 6%Z, 2%Z, 3); ("L", "T2", 9%Z, 2%Z, 2);
     ("M", "T1", 27%Z, 9%Z, 1); ("L", "T1", 9%Z, 3%Z, 1)].
Proof. reflexivity. Qed.

Lemma ranks_follow_points_example :
  let db' := updateRankings 100%Z "L" "T1" "T2" "T1" [6; 6]%Z [2; 3]%Z 3%Z 0%Z
               three_entries in
  exists standings,
    Permutation standings (find_league "L" db')
    /\ StronglySorted in_rank_order standings
    /\ map rank standings = seq 1 (List.length standings)
    /\ NoDup (map team standings)
    /\ (forall r, In r (find_league "L" three_entries) ->
          team r <> "T1" -> team r <> "T2" ->
          exists k, In (set_rank k r) standings)
    /\ (exists x, In x standings /\ team x = "T1")
    /\ (exists y, In y standings /\ team y = "T2")
    /\ (forall x, In x standings ->
          team x = "T1" \/ team x = "T2"
          \/ exists r, In r (find_league "L" three_entries)
                       /\ x = set_rank (rank x) r).
Proof.
  apply (ranks_follow_points 100%Z "L" "T1" "T2" "T1" [6; 6]%Z [2; 3]%Z 3%Z 0%Z
           three_entries).
  repeat constructor; simpl; intuition discriminate.
Defined.

(** Applying the same result to an entry twice counts it twice. *)
Example second_application_counts_again :
  let once := updateWithMatchResult 100%Z true 2 1 16 11 3 0 entryC in
  let twice := updateWithMatchResult 100%Z true 2 1 16 11 3 0 once in
  (matchesPlayed once, matchesWon once, points once, gamesWon once)
  = (3, 3, 9, 42)%Z
  /\ (matchesPlayed twice, matchesWon twice, points twice, gamesWon twice)
     = (4, 4, 12, 58)%Z.
Proof. split; reflexivity. Qed.

End Examples.

(* ===================================================================== *)
(** * Part III.  Further properties of the code                            *)
(* ===================================================================== *)

(** ** III.1  Every generated fixture, whatever the team ids *)

Section AnyTeams.

Import Schedule RoundRobin.

Lemma pairs_read_any (teams0 : list string) M h :
  M = 2 * h + 1 -> List.length teams0 = S M ->
  pairs_read teams0 (S M) M
  = map (fun v => teams_at teams0 (slot M v)) (visits M).
Proof.
  intros HM Hlen.
  apply (pairs_read_visits [] teams0 M h 0 HM Hlen eq_refl). lia.
Qed.

Lemma working_list_real teamIds x :
  In x (working_list teamIds) -> x <> dummy -> In x teamIds.
Proof.
  unfold working_list. destruct (List.length teamIds mod 2 =? 1)%nat; [|auto].
  intros Hin Hx. apply in_app_or in Hin as [Hin|[<-|[]]]; [assumption|].
  now contradiction Hx.
Qed.

Lemma kept_pair_teams teamIds p :
  2 <= List.length teamIds ->
  In p (filter keep
          (pairs_read (working_list teamIds)
                      (List.length (working_list teamIds))
                      (List.length (working_list teamIds) - 1))) ->
  In (fst p) teamIds /\ In (snd p) teamIds
  /\ fst p <> dummy /\ snd p <> dummy.
Proof.
  intros Hn Hp.
  destruct (working_list_shape teamIds Hn) as (M & h & HM & Hlen & _).
  rewrite Hlen in Hp. replace (S M - 1) with M in Hp by lia.
  rewrite (pairs_read_any _ M h HM Hlen) in Hp.
  apply filter_In in Hp as [Hp Hk]. apply in_map_iff in Hp as ([r i] & <- & Hv).
  apply (visits_iff M h HM) in Hv.
  destruct (slot_bounds M h HM r i) as (Ha & Hb & _); try tauto.
  unfold keep in Hk. apply andb_true_iff in Hk as [K1 K2].
  apply negb_true_iff, String.eqb_neq in K1, K2.
  unfold teams_at, team_at in *. cbn [fst snd] in *.
  repeat split; try assumption;
    (apply working_list_real; [apply nth_In; lia | assumption]).
Qed.

Lemma fixtures_from_fields lg st vn d k ps f :
  In f (fixtures_from lg st vn d k ps) ->
  league f = lg /\ location f = vn /\ status f = scheduled.
Proof.
  revert k; induction ps as [|p ps IH]; intros k Hin; [destruct Hin|].
  destruct Hin as [<-|Hin]; [now cbn | eauto].
Qed.

Lemma generated_league leagueId teamIds startDate endDate venue fixtures f :
  generateRoundRobinSchedule leagueId teamIds startDate endDate venue
  = inr fixtures ->
  In f fixtures -> league f = leagueId.
Proof.
  intros E Hf. pose proof (generate_inr _ _ _ _ _ _ E) as [Hn Hw].
  rewrite generate_closed_form in E by assumption. injection E as <-.
  now apply fixtures_from_fields in Hf.
Qed.

Lemma generated_is_round_robin leagueId teamIds startDate endDate venue fixtures :
  NoDup teamIds -> ~ In dummy teamIds ->
  generateRoundRobinSchedule leagueId teamIds startDate endDate venue
  = inr fixtures ->
  round_robin teamIds fixtures.
Proof.
  intros Hnd Hreal E. pose proof (generate_inr _ _ _ _ _ _ E) as [Hn Hw].
  rewrite generate_closed_form in E by assumption. injection E as <-.
  destruct (working_list_shape teamIds Hn) as (M & h & HM & Hlen & Hle & Hids & Hbye).
  rewrite Hlen. replace (S M - 1) with M by lia.
  eapply circle_round_robin; eauto.
Qed.

(** X1. Every fixture the generator returns belongs to the league it
    was asked for, is scheduled at the venue, and opposes two of the given
    teams, neither being the placeholder; this holds for any list of ids. *)
Theorem fixtures_are_well_formed leagueId teamIds startDate endDate venue fixtures :
  generateRoundRobinSchedule leagueId teamIds startDate endDate venue
  = inr fixtures ->
  forall f, In f fixtures ->
    league f = leagueId /\ location f = venue /\ status f = scheduled
    /\ In (teamA f) teamIds /\ In (teamB f) teamIds
    /\ teamA f <> dummy /\ teamB f <> dummy.
Proof.
  intros E f Hf. pose proof (generate_inr _ _ _ _ _ _ E) as [Hn Hw].
  rewrite generate_closed_form in E by assumption. injection E as <-.
  pose proof (fixtures_from_fields _ _ _ _ _ _ _ Hf) as (F1 & F2 & F3).
  apply in_fixtures_from in Hf.
  apply (kept_pair_teams teamIds _ Hn) in Hf. cbn [fst snd] in Hf. tauto.
Qed.

Lemma fixtures_are_well_formed_example :
  let f := mkFixture "L" "x" "dummy2" 0%Z (Some "Club") scheduled in
  league f = "L" /\ location f = Some "Club" /\ status f = scheduled
  /\ In (teamA f) ["x"; "dummy"; "dummy2"] /\ In (teamB f) ["x"; "dummy"; "dummy2"]
  /\ teamA f <> dummy /\ teamB f <> dummy.
Proof.
  apply (fixtures_are_well_formed "L" ["x"; "dummy"; "dummy2"] 0%Z
           (5 * MS_PER_DAY)%Z (Some "Club")
           [mkFixture "L" "x" "dummy2" 0%Z (Some "Club") scheduled]).
  - reflexivity.
  - left. reflexivity.
Defined.

End AnyTeams.

(** ** III.2  The dates and the number of the fixtures *)

Section Window.

Import Schedule RoundRobin.

Lemma working_list_last teamIds :
  (List.length teamIds mod 2 =? 1)%nat = true ->
  team_at (working_list teamIds) (List.length teamIds) = dummy.
Proof.
  intros Hodd. unfold working_list, team_at. rewrite Hodd.
  now rewrite app_nth2, Nat.sub_diag by lia.
Qed.

(** There are never more fixtures than pairs of teams, whatever the ids. *)
Lemma length_kept_any teamIds :
  2 <= List.length teamIds ->
  List.length
    (filter keep
       (pairs_read (working_list teamIds)
                   (List.length (working_list teamIds))
                   (List.length (working_list teamIds) - 1)))
  <= totalMatches (List.length teamIds).
Proof.
  intros Hn.
  destruct (working_list_shape teamIds Hn) as (M & h & HM & Hlen & Hle & _).
  rewrite Hlen. replace (S M - 1) with M by lia.
  rewrite (pairs_read_any _ M h HM Hlen).
  rewrite (filter_map_swap keep (fun v => teams_at (working_list teamIds) (slot M v))),
          length_map.
  destruct (List.length teamIds mod 2 =? 1)%nat eqn:Hodd.
  - (* odd: the last index holds the placeholder *)
    assert (HM' : M = List.length teamIds).
    { unfold working_list in Hlen. rewrite Hodd, length_app in Hlen.
      simpl in Hlen. lia. }
    rewrite <- (length_map (meet M)).
    pose proof (length_all_pairs (List.length teamIds)) as Hall.
    pose proof (totalMatches_double (List.length teamIds)) as Htot.
    enough (List.length (map (meet M)
              (filter (fun v => keep (teams_at (working_list teamIds) (slot M v)))
                      (visits M)))
            <= List.length (all_pairs (List.length teamIds))) by lia.
    apply NoDup_incl_length; [apply (NoDup_kept _ M h HM)|].
    intros p Hp. apply in_map_iff in Hp as ([r i] & <- & Hv).
    apply filter_In in Hv as [Hv Hk]. apply (visits_iff M h HM) in Hv.
    destruct (slot_bounds M h HM r i) as (Ha & Hb & Hab); try tauto.
    unfold keep in Hk. apply andb_true_iff in Hk as [K1 K2].
    apply negb_true_iff, String.eqb_neq in K1, K2.
    unfold teams_at in K1, K2. cbn [fst snd] in K1, K2.
    pose proof (working_list_last teamIds Hodd) as Hlast.
    assert (fst (slot M (r, i)) <> M) by (intros E; rewrite E, HM' in K1; contradiction).
    assert (snd (slot M (r, i)) <> M) by (intros E; rewrite E, HM' in K2; contradiction).
    unfold meet, norm. apply in_all_pairs. lia.
  - (* even: every visit may produce a fixture *)
    assert (HM' : S M = List.length teamIds).
    { unfold working_list in Hlen. now rewrite Hodd in Hlen. }
    rewrite <- HM', <- (length_visits M h HM). apply filter_length_le.
Qed.

Lemma step_positive teamIds startDate endDate :
  2 <= List.length teamIds -> window_ok teamIds startDate endDate ->
  (1 <= daysBetweenMatches (totalDays startDate endDate)
                           (totalMatches (List.length teamIds)))%Z.
Proof.
  intros Hn Hw. unfold daysBetweenMatches, window_ok in *.
  pose proof (totalMatches_pos _ Hn).
  apply Z.div_le_lower_bound; lia.
Qed.

(** X2. Every fixture is dated within the league: not before
    [startDate], not after [endDate]. *)
Theorem fixtures_within_window leagueId teamIds startDate endDate venue fixtures :
  generateRoundRobinSchedule leagueId teamIds startDate endDate venue
  = inr fixtures ->
  forall f, In f fixtures ->
    (startDate <= scheduledDate f <= endDate)%Z.
Proof.
  intros E f Hf. pose proof (generate_inr _ _ _ _ _ _ E) as [Hn Hw].
  rewrite generate_closed_form in E by assumption. injection E as <-.
  pose proof (length_kept_any teamIds Hn) as Hlen.
  pose proof (step_positive teamIds startDate endDate Hn Hw) as Hstep.
  pose proof (totalMatches_pos _ Hn) as Hpos.
  apply In_nth_error in Hf as [k Hk].
  assert (Hk' : k < List.length
                      (filter keep
                         (pairs_read (working_list teamIds)
                            (List.length (working_list teamIds))
                            (List.length (working_list teamIds) - 1)))).
  { rewrite <- (length_fixtures_from leagueId startDate venue
                  (daysBetweenMatches (totalDays startDate endDate)
                     (totalMatches (List.length teamIds))) 0).
    apply nth_error_Some. congruence. }
  apply nth_error_fixtures_from in Hk. rewrite Hk. cbn [Nat.add].
  set (T := totalMatches (List.length teamIds)) in *.
  set (D := totalDays startDate endDate) in *.
  set (step := daysBetweenMatches D T) in *.
  assert (HT : (Z.of_nat T * step <= D)%Z).
  { unfold step, daysBetweenMatches. apply Z.mul_div_le. lia. }
  assert (HD : (D * MS_PER_DAY <= endDate - startDate)%Z).
  { unfold D, totalDays. rewrite Z.mul_comm. apply Z.mul_div_le. reflexivity. }
  unfold addDays. assert (0 < MS_PER_DAY)%Z by reflexivity.
  assert (0 <= Z.of_nat k * step <= D)%Z by nia.
  nia.
Qed.

Lemma fixtures_within_window_example :
  let f := mkFixture "L" "a" "b" (6 * MS_PER_DAY)%Z None scheduled in
  (0 <= scheduledDate f <= 10 * MS_PER_DAY)%Z.
Proof.
  apply (fixtures_within_window "L" ["a"; "b"; "c"] 0%Z (10 * MS_PER_DAY)%Z None
           [mkFixture "L" "b" "c" 0%Z None scheduled;
            mkFixture "L" "a" "c" (3 * MS_PER_DAY)%Z None scheduled;
            mkFixture "L" "a" "b" (6 * MS_PER_DAY)%Z None scheduled]).
  - reflexivity.
  - simpl. tauto.
Defined.

(** X3. Two fixtures never fall on the same calendar day: counted in
    days from the start date, as [setDate] moves it, a later fixture in the
    list lies at least as many days later as it is positions later. *)
Theorem fixtures_on_distinct_days leagueId teamIds startDate endDate venue fixtures :
  generateRoundRobinSchedule leagueId teamIds startDate endDate venue
  = inr fixtures ->
  forall j k fj fk,
    j < k -> nth_error fixtures j = Some fj -> nth_error fixtures k = Some fk ->
    exists dj dk,
      scheduledDate fj = addDays startDate dj
      /\ scheduledDate fk = addDays startDate dk
      /\ (0 <= dj)%Z /\ (dj + Z.of_nat (k - j) <= dk)%Z.
Proof.
  intros E j k fj fk Hjk Hj Hk. pose proof (generate_inr _ _ _ _ _ _ E) as [Hn Hw].
  rewrite generate_closed_form in E by assumption. injection E as <-.
  pose proof (step_positive teamIds startDate endDate Hn Hw) as Hstep.
  apply nth_error_fixtures_from in Hj, Hk. cbn [Nat.add] in Hj, Hk.
  set (step := daysBetweenMatches _ _) in *.
  exists (Z.of_nat j * step)%Z, (Z.of_nat k * step)%Z.
  split; [exact Hj|]. split; [exact Hk|]. nia.
Qed.

Lemma fixtures_on_distinct_days_example :
  let fj := mkFixture "L" "b" "c" 0%Z None scheduled in
  let fk := mkFixture "L" "a" "b" (6 * MS_PER_DAY)%Z None scheduled in
  exists dj dk,
    scheduledDate fj = addDays 0%Z dj
    /\ scheduledDate fk = addDays 0%Z dk
    /\ (0 <= dj)%Z /\ (dj + Z.of_nat (2 - 0) <= dk)%Z.
Proof.
  apply (fixtures_on_distinct_days "L" ["a"; "b"; "c"] 0%Z (10 * MS_PER_DAY)%Z None
           [mkFixture "L" "b" "c" 0%Z None scheduled;
            mkFixture "L" "a" "c" (3 * MS_PER_DAY)%Z None scheduled;
            mkFixture "L" "a" "b" (6 * MS_PER_DAY)%Z None scheduled]).
  - reflexivity.
  - lia.
  - reflexivity.
  - reflexivity.
Defined.

End Window.

Section MatchesPerTeam.

Import Schedule RoundRobin RoundRobinMore.

Lemma length_filter_perm {A : Type} (p : A -> bool) l l' :
  Permutation l l' -> List.length (filter p l) = List.length (filter p l').
Proof.
  induction 1 as [|x l l' _ IH|x y l|l l' l'' _ IH1 _ IH2]; cbn [filter].
  - reflexivity.
  - destruct (p x); cbn [List.length]; now rewrite IH.
  - destruct (p x), (p y); reflexivity.
  - congruence.
Qed.

Lemma count_in_seq a n :
  List.length (filter (fun x => (x =? a)%nat) (seq 0 n))
  = if (a <? n)%nat then 1 else 0.
Proof.
  induction n as [|n IH]; [reflexivity|].
  rewrite seq_S, filter_app, length_app, IH. cbn [Nat.add filter].
  destruct (Nat.eqb_spec n a), (Nat.ltb_spec a n), (Nat.ltb_spec a (S n));
    cbn [List.length]; lia.
Qed.

Lemma count_in_all_pairs a n :
  List.length (filter (contains a) (all_pairs n))
  = if (a <? n)%nat then n - 1 else 0.
Proof.
  induction n as [|n IH]; [reflexivity|].
  rewrite all_pairs_S, filter_app, length_app, IH, length_filter_map.
  unfold contains. cbn [fst snd].
  destruct (Nat.eqb_spec n a) as [->|Hna].
  - rewrite (filter_ext _ (fun _ => true)) by (intros; apply orb_true_r).
    assert (E : forall l : list nat, filter (fun _ => true) l = l).
    { induction l as [|x l IHl]; cbn; [reflexivity | now rewrite IHl]. }
    rewrite E, length_seq.
    destruct (Nat.ltb_spec a a), (Nat.ltb_spec a (S a)); lia.
  - rewrite (filter_ext _ (fun x => (x =? a)%nat)) by (intros; apply orb_false_r).
    rewrite count_in_seq.
    destruct (Nat.ltb_spec a n), (Nat.ltb_spec a (S n)); lia.
Qed.

Lemma filter_involves_fixtures_from lg st vn d x k ps :
  List.length (filter (involves x) (fixtures_from lg st vn d k ps))
  = List.length
      (filter (fun p => (fst p =? x)%string || (snd p =? x)%string) ps).
Proof.
  revert k; induction ps as [|p ps IH]; intros k; [reflexivity|].
  cbn [fixtures_from filter]. unfold involves at 1. cbn [teamA teamB].
  destruct ((fst p =? x)%string || (snd p =? x)%string); simpl; now rewrite IH.
Qed.

Variables (teamIds teams0 : list string) (M h n0 : nat).
Hypothesis M_odd : M = 2 * h + 1.
Hypothesis len_teams0 : List.length teams0 = S M.
Hypothesis len_ids : List.length teamIds = n0.
Hypothesis n0_le : n0 <= S M.
Hypothesis ids_distinct : NoDup teamIds.
Hypothesis ids_real : ~ In dummy teamIds.
Hypothesis teams0_ids :
  forall j, j < n0 -> nth j teams0 EmptyString = nth j teamIds EmptyString.
Hypothesis teams0_bye :
  forall j, n0 <= j -> j <= M -> nth j teams0 EmptyString = dummy.

Local Abbreviation paired := (fun v => teams_at teams0 (slot M v)).
Local Abbreviation kept := (filter (fun v => keep (paired v)) (visits M)).

Lemma circle_matches_per_team leagueId start venue days_between a :
  a < n0 ->
  List.length
    (filter (involves (team_at teams0 a))
       (fixtures_from leagueId start venue days_between 0
          (filter keep (pairs_read teams0 (S M) M))))
  = n0 - 1.
Proof.
  intros Ha.
  rewrite (kept_pairs teamIds teams0 M h n0 M_odd len_teams0 len_ids n0_le).
  rewrite filter_involves_fixtures_from, length_filter_map.
  rewrite (filter_ext_in _ (fun v => contains a (meet M v))).
  - rewrite <- (length_filter_map (contains a) (meet M)).
    rewrite (length_filter_perm _ _ (all_pairs n0)).
    + rewrite count_in_all_pairs. destruct (Nat.ltb_spec a n0); lia.
    + apply NoDup_Permutation.
      * apply (NoDup_kept teams0 M h M_odd).
      * apply NoDup_all_pairs.
      * apply (in_kept teamIds teams0 M h n0); assumption.
  - intros v Hv.
    destruct (kept_real teamIds teams0 M h n0 M_odd len_teams0 len_ids n0_le
                ids_real teams0_ids teams0_bye v Hv) as (HA & HB & _).
    unfold teams_at, contains, meet, norm. cbn [fst snd].
    set (A := fst (slot M v)) in *. set (B := snd (slot M v)) in *.
    assert (Hinj : forall c, c < n0 ->
                     (team_at teams0 c =? team_at teams0 a)%string = (c =? a)%nat).
    { intros c Hc. destruct (String.eqb_spec (team_at teams0 c) (team_at teams0 a)) as [E|E];
        destruct (Nat.eqb_spec c a) as [E'|E']; try reflexivity.
      - apply (team_inj teamIds teams0 M h n0) in E; assumption || lia.
      - subst c. contradiction. }
    rewrite !Hinj by assumption.
    destruct (Nat.eqb_spec A a), (Nat.eqb_spec B a),
             (Nat.eqb_spec (Nat.min A B) a), (Nat.eqb_spec (Nat.max A B) a);
      cbn [orb]; try reflexivity; lia.
Qed.

End MatchesPerTeam.

Section MatchesPerTeamClaim.

Import Schedule RoundRobin RoundRobinMore.

(** X5. With distinct ids, none of them 'dummy', every team plays in
    exactly [n - 1] of the returned fixtures. *)
Theorem every_team_plays_all_others leagueId teamIds startDate endDate venue
    fixtures x :
  NoDup teamIds -> ~ In dummy teamIds ->
  generateRoundRobinSchedule leagueId teamIds startDate endDate venue
  = inr fixtures ->
  In x teamIds ->
  List.length (filter (involves x) fixtures) = List.length teamIds - 1.
Proof.
  intros Hnd Hreal E Hx. pose proof (generate_inr _ _ _ _ _ _ E) as [Hn Hw].
  rewrite generate_closed_form in E by assumption. injection E as <-.
  destruct (working_list_shape teamIds Hn) as (M & h & HM & Hlen & Hle & Hids & Hbye).
  rewrite Hlen. replace (S M - 1) with M by lia.
  destruct (In_nth teamIds x EmptyString Hx) as (a & Ha & Ea).
  rewrite <- Hids in Ea by assumption. fold (team_at (working_list teamIds) a) in Ea.
  rewrite <- Ea.
  apply (circle_matches_per_team teamIds (working_list teamIds) M h
           (List.length teamIds)); auto.
Qed.

Lemma every_team_plays_all_others_example :
  List.length
    (filter (involves "c")
       [mkFixture "L" "a" "d" 0%Z None scheduled;
        mkFixture "L" "b" "c" (2 * MS_PER_DAY)%Z None scheduled;
        mkFixture "L" "a" "c" (4 * MS_PER_DAY)%Z None scheduled;
        mkFixture "L" "d" "b" (6 * MS_PER_DAY)%Z None scheduled;
        mkFixture "L" "a" "b" (8 * MS_PER_DAY)%Z None scheduled;
        mkFixture "L" "c" "d" (10 * MS_PER_DAY)%Z None scheduled])
  = 3.
Proof.
  apply (every_team_plays_all_others "L" ["a"; "b"; "c"; "d"] 0%Z
           (12 * MS_PER_DAY)%Z None _ "c").
  - repeat constructor; simpl; intuition discriminate.
  - simpl. intuition discriminate.
  - reflexivity.
  - simpl. tauto.
Defined.

(** X4. There are never more fixtures than pairs of teams, whatever the
    ids: duplicated ids or the id 'dummy' can only lose fixtures. *)
Theorem never_more_fixtures_than_pairs leagueId teamIds startDate endDate venue
    fixtures :
  generateRoundRobinSchedule leagueId teamIds startDate endDate venue
  = inr fixtures ->
  List.length fixtures <= List.length teamIds * (List.length teamIds - 1) / 2.
Proof.
  intros E. pose proof (generate_inr _ _ _ _ _ _ E) as [Hn Hw].
  rewrite generate_closed_form in E by assumption. injection E as <-.
  rewrite length_fixtures_from. apply (length_kept_any teamIds Hn).
Qed.

Lemma never_more_fixtures_than_pairs_example :
  List.length [mkFixture "L" "x" "dummy2" 0%Z (Some "Club") scheduled]
  <= List.length ["x"; "dummy"; "dummy2"]
     * (List.length ["x"; "dummy"; "dummy2"] - 1) / 2.
Proof.
  exact (never_more_fixtures_than_pairs "L" ["x"; "dummy"; "dummy2"] 0%Z
           (5 * MS_PER_DAY)%Z (Some "Club") _ eq_refl).
Defined.

End MatchesPerTeamClaim.

(** ** III.3  Generating and clearing the schedule of a league *)

Section ScheduleRoutes.

Import Schedule RoundRobin ScheduleRoute.

Lemma findById_id leagueId db l : findById leagueId db = Some l -> _id l = leagueId.
Proof.
  unfold findById. intros E. apply find_some in E as [_ E]. now apply String.eqb_eq.
Qed.

Lemma find_save_league doc ls leagueId :
  find (fun l => (_id l =? leagueId)%string) (save_league doc ls)
  = if (_id doc =? leagueId)%string then Some doc
    else find (fun l => (_id l =? leagueId)%string) ls.
Proof.
  induction ls as [|l ls IH]; cbn [save_league find].
  - now destruct (_id doc =? leagueId)%string.
  - destruct (String.eqb_spec (_id l) (_id doc)) as [E|E]; cbn [find].
    + rewrite E. now destruct (_id doc =? leagueId)%string.
    + destruct (String.eqb_spec (_id l) leagueId) as [E1|E1].
      * destruct (String.eqb_spec (_id doc) leagueId); [congruence | reflexivity].
      * exact IH.
Qed.

Lemma save_league_found l ls :
  find (fun x => (_id x =? _id l)%string) ls = Some l -> save_league l ls = ls.
Proof.
  induction ls as [|x ls IH]; cbn [find save_league]; [discriminate|].
  destruct (_id x =? _id l)%string; [intros E; now injection E as -> |].
  intros E. now rewrite IH.
Qed.

Lemma save_league_twice d1 d2 ls :
  _id d1 = _id d2 -> save_league d2 (save_league d1 ls) = save_league d2 ls.
Proof.
  intros E. induction ls as [|x ls IH]; cbn [save_league].
  - now rewrite E, String.eqb_refl.
  - destruct (String.eqb_spec (_id x) (_id d1)) as [E1|E1]; cbn [save_league].
    + rewrite E, String.eqb_refl.
      destruct (String.eqb_spec (_id x) (_id d2)); [reflexivity | congruence].
    + destruct (String.eqb_spec (_id x) (_id d2)); [congruence | now rewrite IH].
Qed.

Lemma deleteMany_none leagueId ms :
  List.length (filter (fun f => (league f =? leagueId)%string) ms) = 0 ->
  deleteMany leagueId ms = ms.
Proof.
  unfold deleteMany. induction ms as [|f ms IH]; cbn [filter]; [reflexivity|].
  destruct (league f =? leagueId)%string; cbn [List.length negb];
    [discriminate | intros E; now rewrite IH].
Qed.

Lemma deleteMany_all leagueId ms :
  (forall f, In f ms -> league f = leagueId) -> deleteMany leagueId ms = [].
Proof.
  intros H. unfold deleteMany. apply filter_none. intros f Hf.
  rewrite (H f Hf), String.eqb_refl. reflexivity.
Qed.

Lemma validate_league_flag now flag l :
  validate_league now (set_generated flag l) = validate_league now l.
Proof. reflexivity. Qed.

Lemma validate_league_spec now l :
  validate_league now l = true <-> (now <= startDate l /\ startDate l < endDate l)%Z.
Proof. unfold validate_league. rewrite andb_true_iff, Z.geb_le, Z.gtb_gt. lia. Qed.

(** The outcomes of [createLeagueSchedule]: a refusal that writes nothing,
    the fixtures written and the league refused, or both written. *)
Lemma createLeagueSchedule_cases now leagueId db :
  let out := createLeagueSchedule now leagueId db in
  (fst out = db /\ exists e, snd out = inl e)
  \/ exists l fixtures,
       findById leagueId db = Some l
       /\ scheduleGenerated l = false
       /\ generateRoundRobinSchedule leagueId (teams l) (startDate l) (endDate l)
            (venue l) = inr fixtures
       /\ ((validate_league now l = false
            /\ out = (mkDb (leagues db) (matches db ++ fixtures),
                      inl LeagueSaveRefused))
           \/ (validate_league now l = true
               /\ out = (mkDb (save_league (set_generated true l) (leagues db))
                              (matches db ++ fixtures),
                         inr fixtures))).
Proof.
  cbv zeta. unfold createLeagueSchedule.
  destruct (findById leagueId db) as [l|]; [|left; cbn; eauto].
  destruct (List.length (teams l) <? 2)%nat; [left; cbn; eauto|].
  destruct (scheduleGenerated l) eqn:Hg; [left; cbn; eauto|].
  destruct (generateRoundRobinSchedule _ _ _ _ _) as [e|fx] eqn:G; [left; cbn; eauto|].
  right. exists l, fx. rewrite validate_league_flag. cbn [leagues matches].
  destruct (validate_league now l); auto 10.
Qed.

(** What a successful [createLeagueSchedule] did. *)
Lemma createLeagueSchedule_ok now leagueId db db1 fixtures :
  createLeagueSchedule now leagueId db = (db1, inr fixtures) ->
  exists l,
    findById leagueId db = Some l
    /\ scheduleGenerated l = false
    /\ generateRoundRobinSchedule leagueId (teams l) (startDate l) (endDate l)
         (venue l) = inr fixtures
    /\ validate_league now l = true
    /\ db1 = mkDb (save_league (set_generated true l) (leagues db))
                  (matches db ++ fixtures).
Proof.
  intros E.
  destruct (createLeagueSchedule_cases now leagueId db)
    as [[_ [e E']]|(l & fx & F & Hg & G & [[V E']|[V E']])];
    cbv zeta in E'; rewrite E in E'; cbn [snd] in E'; try discriminate.
  injection E' as -> ->. exists l. auto.
Qed.

(** The gates of [POST]: when they are passed, [createLeagueSchedule] runs. *)
Lemma schedule_POST_gates now session leagueId db :
  (fst (POST now session leagueId db) = db
   /\ exists e, snd (POST now session leagueId db) = inl e)
  \/ exists user l,
       session = Some user
       /\ findById leagueId db = Some l
       /\ organizer l = user
       /\ schedulable (status l) = true
       /\ countDocuments leagueId db = 0
       /\ POST now session leagueId db = createLeagueSchedule now leagueId db.
Proof.
  unfold POST. destruct session as [user|]; [|left; cbn; eauto].
  destruct (findById leagueId db) as [l|] eqn:F; [|left; cbn; eauto].
  destruct (String.eqb_spec (organizer l) user) as [Ho|Ho]; cbn [negb];
    [|left; cbn; eauto].
  destruct (schedulable (status l)) eqn:Hs; cbn [negb]; [|left; cbn; eauto].
  destruct (Nat.ltb_spec 0 (countDocuments leagueId db)) as [Hc|Hc];
    [left; cbn; eauto|].
  destruct (List.length (teams l) <? 2)%nat; [left; cbn; eauto|].
  right. exists user, l. repeat split; auto. lia.
Qed.

(** What a successful [POST] checked and did. *)
Lemma schedule_POST_ok now session leagueId db db1 fixtures :
  POST now session leagueId db = (db1, inr fixtures) ->
  exists user l,
    session = Some user
    /\ findById leagueId db = Some l
    /\ organizer l = user
    /\ schedulable (status l) = true
    /\ countDocuments leagueId db = 0
    /\ scheduleGenerated l = false
    /\ generateRoundRobinSchedule leagueId (teams l) (startDate l) (endDate l)
         (venue l) = inr fixtures
    /\ validate_league now l = true
    /\ db1 = mkDb (save_league (set_generated true l) (leagues db))
                  (matches db ++ fixtures).
Proof.
  intros E.
  destruct (schedule_POST_gates now session leagueId db)
    as [[_ [e E']]|(user & l & Hu & F & Ho & Hs & Hc & E')].
  - rewrite E in E'. discriminate.
  - rewrite E' in E. apply createLeagueSchedule_ok in E
      as (l' & F' & Hg & G & V & ->).
    rewrite F in F'. injection F' as <-.
    exists user, l. repeat split; auto.
Qed.

Lemma findById_after leagueId db l ms :
  findById leagueId db = Some l ->
  forall flag,
    findById leagueId (mkDb (save_league (set_generated flag l) (leagues db)) ms)
    = Some (set_generated flag l).
Proof.
  intros F flag. pose proof (findById_id _ _ _ F) as Hid.
  unfold findById. cbn [leagues]. rewrite find_save_league. cbn [set_generated _id].
  now rewrite Hid, String.eqb_refl.
Qed.

(** X6. Once a schedule was generated for a league, no request generates
    it again: a second [POST], from whomever and whenever, fails and leaves
    the store as it is, and so does a direct call of
    [createLeagueSchedule]. *)
Theorem second_generation_is_refused now session leagueId db db1 fixtures :
  POST now session leagueId db = (db1, inr fixtures) ->
  (forall now', createLeagueSchedule now' leagueId db1 = (db1, inl AlreadyGenerated))
  /\ forall now' session', exists e, POST now' session' leagueId db1 = (db1, inl e).
Proof.
  intros E.
  apply schedule_POST_ok in E
    as (user & l & -> & F & Ho & Hs & Hc & Hg & G & V & ->).
  pose proof (generate_inr _ _ _ _ _ _ G) as [Hn _].
  pose proof (findById_after leagueId db l (matches db ++ fixtures) F true) as F1.
  assert (C : forall now',
             createLeagueSchedule now' leagueId
                (mkDb (save_league (set_generated true l) (leagues db))
                      (matches db ++ fixtures))
              = (mkDb (save_league (set_generated true l) (leagues db))
                      (matches db ++ fixtures), inl AlreadyGenerated)).
  { intros now'. unfold createLeagueSchedule. rewrite F1.
    cbn [set_generated teams scheduleGenerated].
    destruct (Nat.ltb_spec (List.length (teams l)) 2); [lia | reflexivity]. }
  split; [exact C|].
  intros now' [user'|]; [|eexists; reflexivity].
  unfold POST. rewrite F1, C. cbn [set_generated organizer status teams].
  repeat match goal with |- context [if ?c then _ else _] => destruct c end;
    eexists; reflexivity.
Qed.

Lemma second_generation_is_refused_example :
  let l := mkLeague "L" "ann" LeagueStatus.draft ["a"; "b"; "c"] 0%Z
             (10 * MS_PER_DAY)%Z None false in
  let db1 :=
    mkDb [set_generated true l]
         [mkFixture "L" "b" "c" 0%Z None scheduled;
          mkFixture "L" "a" "c" (3 * MS_PER_DAY)%Z None scheduled;
          mkFixture "L" "a" "b" (6 * MS_PER_DAY)%Z None scheduled] in
  (forall now', createLeagueSchedule now' "L" db1 = (db1, inl AlreadyGenerated))
  /\ forall now' session', exists e, POST now' session' "L" db1 = (db1, inl e).
Proof.
  exact (second_generation_is_refused 0%Z (Some "ann") "L"
           (mkDb [mkLeague "L" "ann" LeagueStatus.draft ["a"; "b"; "c"] 0%Z
                    (10 * MS_PER_DAY)%Z None false] [])
           _ _ eq_refl).
Defined.

(** X7. Clearing undoes generating while the league has not started: after
    a successful [POST], a [DELETE] of the same user that comes no later
    than the start date succeeds and gives back the store the [POST] started
    from.  A [DELETE] that comes after the start date fails, because
    [league.save()] then refuses the league, yet the fixtures are deleted
    and the league stays marked as having its schedule; in that store every
    further [POST] is refused. *)
Theorem clearing_undoes_generation now now' user leagueId db db1 fixtures :
  POST now (Some user) leagueId db = (db1, inr fixtures) ->
  exists l,
    findById leagueId db = Some l
    /\ ((now' <= startDate l)%Z ->
        DELETE now' (Some user) leagueId db1 = (db, inr tt))
    /\ ((startDate l < now')%Z ->
        let stuck := mkDb (leagues db1) (matches db) in
        DELETE now' (Some user) leagueId db1 = (stuck, inl LeagueSaveRefused)
        /\ findById leagueId stuck = Some (set_generated true l)
        /\ forall now'' session,
             exists e, POST now'' session leagueId stuck = (stuck, inl e)).
Proof.
  intros E.
  apply schedule_POST_ok in E
    as (user' & l & Eu & F & Ho & Hs & Hc & Hg & G & V & ->).
  injection Eu as <-. subst user. exists l. split; [exact F|].
  apply validate_league_spec in V as [Vnow Vend].
  pose proof (findById_after leagueId db l (matches db ++ fixtures) F true) as F1.
  assert (D : deleteMany leagueId (matches db ++ fixtures) = matches db).
  { unfold deleteMany. rewrite filter_app.
    fold (deleteMany leagueId (matches db)). fold (deleteMany leagueId fixtures).
    rewrite deleteMany_none by exact Hc.
    rewrite deleteMany_all; [apply app_nil_r|].
    intros f Hf. exact (generated_league _ _ _ _ _ _ f G Hf). }
  assert (Gate : forall b : bool,
             validate_league now' (set_generated false (set_generated true l)) = b ->
             DELETE now' (Some (organizer l)) leagueId
               (mkDb (save_league (set_generated true l) (leagues db))
                     (matches db ++ fixtures))
             = if b
               then (mkDb (save_league (set_generated false (set_generated true l))
                             (save_league (set_generated true l) (leagues db)))
                          (matches db), inr tt)
               else (mkDb (save_league (set_generated true l) (leagues db))
                          (matches db), inl LeagueSaveRefused)).
  { intros b Hb. unfold DELETE. rewrite F1.
    cbn [set_generated organizer status leagues matches].
    rewrite String.eqb_refl, Hs. cbn [negb]. rewrite D.
    cbn [set_generated] in Hb. rewrite Hb. now destruct b. }
  split.
  - intros Hnow. rewrite (Gate true) by (apply validate_league_spec; cbn; lia).
    f_equal. destruct db as [ls ms]. cbn [leagues matches] in *. f_equal.
    assert (R : set_generated false (set_generated true l) = l)
      by (destruct l; cbn in *; now subst).
    rewrite R, save_league_twice by reflexivity.
    apply save_league_found. pose proof (findById_id _ _ _ F) as Hid.
    unfold findById in F. cbn [leagues] in F. now rewrite Hid.
  - intros Hlate. cbv zeta. cbn [leagues].
    split; [|split].
    + apply (Gate false).
      destruct (validate_league now' _) eqn:Hv; [|reflexivity].
      apply validate_league_spec in Hv. cbn in Hv. lia.
    + now apply findById_after.
    + pose proof (generate_inr _ _ _ _ _ _ G) as [Hn _].
      pose proof (findById_after leagueId db l (matches db) F true) as F2.
      intros now'' [user'|]; [|eexists; reflexivity].
      unfold POST, createLeagueSchedule. rewrite F2.
      cbn [set_generated organizer status teams scheduleGenerated].
      repeat match goal with |- context [if ?c then _ else _] => destruct c end;
        eexists; reflexivity.
Qed.

Lemma clearing_undoes_generation_example :
  let l := mkLeague "L" "ann" LeagueStatus.draft ["a"; "b"; "c"] (2 * MS_PER_DAY)%Z
             (12 * MS_PER_DAY)%Z None false in
  let m := mkLeague "M" "bob" LeagueStatus.active ["a"; "b"] 0%Z
             (10 * MS_PER_DAY)%Z None true in
  let db := mkDb [l; m] [mkFixture "M" "a" "b" 0%Z None scheduled] in
  let db1 := fst (POST 0%Z (Some "ann") "L" db) in
  exists l',
    findById "L" db = Some l'
    /\ ((MS_PER_DAY <= startDate l')%Z ->
        DELETE MS_PER_DAY (Some "ann") "L" db1 = (db, inr tt))
    /\ ((startDate l' < MS_PER_DAY)%Z ->
        let stuck := mkDb (leagues db1) (matches db) in
        DELETE MS_PER_DAY (Some "ann") "L" db1 = (stuck, inl LeagueSaveRefused)
        /\ findById "L" stuck = Some (set_generated true l')
        /\ forall now'' session,
             exists e, POST now'' session "L" stuck = (stuck, inl e)).
Proof.
  exact (clearing_undoes_generation 0%Z MS_PER_DAY "ann" "L"
           (mkDb [mkLeague "L" "ann" LeagueStatus.draft ["a"; "b"; "c"]
                    (2 * MS_PER_DAY)%Z (12 * MS_PER_DAY)%Z None false;
                  mkLeague "M" "bob" LeagueStatus.active ["a"; "b"] 0%Z
                    (10 * MS_PER_DAY)%Z None true]
                 [mkFixture "M" "a" "b" 0%Z None scheduled])
           _ _ eq_refl).
Defined.

Lemma filter_league_other leagueId leagueId' fixtures :
  (forall f, In f fixtures -> league f = leagueId) -> leagueId' <> leagueId ->
  filter (fun f => (league f =? leagueId')%string) fixtures = [].
Proof.
  intros H Hne. apply filter_none. intros f Hf. rewrite (H f Hf).
  apply String.eqb_neq. congruence.
Qed.

Lemma filter_league_same leagueId fixtures :
  (forall f, In f fixtures -> league f = leagueId) ->
  filter (fun f => (league f =? leagueId)%string) fixtures = fixtures.
Proof.
  intros H. induction fixtures as [|f fx IH]; cbn [filter]; [reflexivity|].
  rewrite (H f) by now left. rewrite String.eqb_refl, IH; [reflexivity|].
  intros g Hg. apply H. now right.
Qed.

(** X8. A successful [POST] leaves the league with its complete round
    robin: when the teams of the league are distinct and none has the id
    'dummy', the league's matches are exactly the returned fixtures,
    [n * (n - 1) / 2] of them, one for every two teams, and the league is
    marked as having its schedule. *)
Theorem generated_schedule_is_complete now session leagueId db db1 fixtures l :
  POST now session leagueId db = (db1, inr fixtures) ->
  findById leagueId db = Some l ->
  NoDup (teams l) -> ~ In dummy (teams l) ->
  filter (fun f => (league f =? leagueId)%string) (matches db1) = fixtures
  /\ countDocuments leagueId db1
     = List.length (teams l) * (List.length (teams l) - 1) / 2
  /\ round_robin (teams l) fixtures
  /\ findById leagueId db1 = Some (set_generated true l).
Proof.
  intros E F Hnd Hreal.
  apply schedule_POST_ok in E
    as (user & l' & -> & F' & Ho & Hs & Hc & Hg & G & V & ->).
  rewrite F in F'. injection F' as <-.
  pose proof (generated_is_round_robin _ _ _ _ _ _ Hnd Hreal G) as RR.
  assert (Hm : filter (fun f => (league f =? leagueId)%string)
                 (matches db ++ fixtures) = fixtures).
  { rewrite filter_app. unfold countDocuments in Hc.
    apply length_zero_iff_nil in Hc. rewrite Hc. cbn [app].
    apply filter_league_same. intros f Hf.
    exact (generated_league _ _ _ _ _ _ f G Hf). }
  split; [exact Hm|]. split; [|split; [exact RR|]].
  - unfold countDocuments. cbn [matches]. rewrite Hm. apply RR.
  - now apply findById_after.
Qed.

Lemma generated_schedule_is_complete_example :
  let l := mkLeague "L" "ann" LeagueStatus.registration ["a"; "b"; "c"] 0%Z
             (10 * MS_PER_DAY)%Z None false in
  let fixtures :=
    [mkFixture "L" "b" "c" 0%Z None scheduled;
     mkFixture "L" "a" "c" (3 * MS_PER_DAY)%Z None scheduled;
     mkFixture "L" "a" "b" (6 * MS_PER_DAY)%Z None scheduled] in
  let db1 := mkDb [set_generated true l]
                  (mkFixture "M" "a" "b" 0%Z None scheduled :: fixtures) in
  filter (fun f => (league f =? "L")%string) (matches db1) = fixtures
  /\ countDocuments "L" db1 = 3 * (3 - 1) / 2
  /\ round_robin ["a"; "b"; "c"] fixtures
  /\ findById "L" db1 = Some (set_generated true l).
Proof.
  refine (generated_schedule_is_complete 0%Z (Some "ann") "L"
            (mkDb [mkLeague "L" "ann" LeagueStatus.registration ["a"; "b"; "c"]
                     0%Z (10 * MS_PER_DAY)%Z None false]
                  [mkFixture "M" "a" "b" 0%Z None scheduled])
            _ _
            (mkLeague "L" "ann" LeagueStatus.registration ["a"; "b"; "c"]
               0%Z (10 * MS_PER_DAY)%Z None false)
            eq_refl eq_refl _ _).
  - repeat constructor; simpl; intuition discriminate.
  - simpl. intuition discriminate.
Defined.

(** What any [POST] leaves in the store: the leagues with at most the
    document of [leagueId] replaced, and the matches with at most fixtures
    of [leagueId] added. *)
Lemma schedule_POST_store now session leagueId db :
  exists ls fixtures,
    fst (POST now session leagueId db) = mkDb ls (matches db ++ fixtures)
    /\ (forall f, In f fixtures -> league f = leagueId)
    /\ (ls = leagues db
        \/ exists l flag, findById leagueId db = Some l
                          /\ ls = save_league (set_generated flag l) (leagues db)).
Proof.
  destruct (schedule_POST_gates now session leagueId db)
    as [[E _]|(user & l & _ & F & _ & _ & _ & E)].
  - exists (leagues db), []. rewrite E, app_nil_r.
    split; [now destruct db|]. split; [intros f []|now left].
  - rewrite E.
    destruct (createLeagueSchedule_cases now leagueId db)
      as [[E' _]|(l' & fx & F' & _ & G & [[_ E']|[_ E']])]; cbv zeta in E'.
    + exists (leagues db), []. rewrite E', app_nil_r.
      split; [now destruct db|]. split; [intros f []|now left].
    + exists (leagues db), fx. rewrite E'. cbn [fst].
      split; [reflexivity|]. split; [|now left].
      intros f Hf. exact (generated_league _ _ _ _ _ _ f G Hf).
    + exists (save_league (set_generated true l') (leagues db)), fx.
      rewrite E'. cbn [fst]. split; [reflexivity|]. split; [|right; eauto].
      intros f Hf. exact (generated_league _ _ _ _ _ _ f G Hf).
Qed.

(** X9. Generating or clearing the schedule of one league touches no
    other league: their documents and their matches stay as they are,
    whether the request succeeds or fails. *)
Theorem other_leagues_are_untouched now now' session leagueId leagueId' db :
  leagueId' <> leagueId ->
  let after_post := fst (POST now session leagueId db) in
  let after_delete := fst (DELETE now' session leagueId db) in
  findById leagueId' after_post = findById leagueId' db
  /\ filter (fun f => (league f =? leagueId')%string) (matches after_post)
     = filter (fun f => (league f =? leagueId')%string) (matches db)
  /\ findById leagueId' after_delete = findById leagueId' db
  /\ filter (fun f => (league f =? leagueId')%string) (matches after_delete)
     = filter (fun f => (league f =? leagueId')%string) (matches db).
Proof.
  intros Hne. cbv zeta.
  assert (Hsave : forall l flag ms,
             findById leagueId db = Some l ->
             findById leagueId'
               (mkDb (save_league (set_generated flag l) (leagues db)) ms)
             = findById leagueId' db).
  { intros l flag ms F. unfold findById. cbn [leagues].
    rewrite find_save_league. cbn [set_generated _id].
    rewrite (findById_id _ _ _ F).
    destruct (String.eqb_spec leagueId leagueId'); [congruence | reflexivity]. }
  assert (Hdel : filter (fun f => (league f =? leagueId')%string)
                   (deleteMany leagueId (matches db))
                 = filter (fun f => (league f =? leagueId')%string) (matches db)).
  { unfold deleteMany. induction (matches db) as [|f ms IH]; cbn [filter]; [reflexivity|].
    destruct (String.eqb_spec (league f) leagueId) as [E1|E1]; cbn [negb filter].
    + destruct (String.eqb_spec (league f) leagueId'); [congruence | exact IH].
    + destruct (league f =? leagueId')%string; now rewrite IH. }
  destruct (schedule_POST_store now session leagueId db)
    as (ls & fx & E & Hfx & Hls).
  rewrite E. cbn [matches].
  split; [|split; [|split]].
  - destruct Hls as [->|(l & flag & F & ->)]; [reflexivity | now apply Hsave].
  - rewrite filter_app, (filter_league_other leagueId leagueId' fx) by assumption.
    apply app_nil_r.
  - unfold DELETE. destruct session as [user|]; [|reflexivity].
    destruct (findById leagueId db) as [l|] eqn:F; [|reflexivity].
    repeat match goal with |- context [if ?c then _ else _] => destruct c end;
      cbn [fst leagues matches]; try reflexivity.
    now apply Hsave.
  - unfold DELETE. destruct session as [user|]; [|reflexivity].
    destruct (findById leagueId db) as [l|] eqn:F; [|reflexivity].
    repeat match goal with |- context [if ?c then _ else _] => destruct c end;
      cbn [fst leagues matches]; try reflexivity; exact Hdel.
Qed.

Lemma other_leagues_are_untouched_example :
  let db := mkDb [mkLeague "L" "ann" LeagueStatus.draft ["a"; "b"; "c"] 0%Z
                    (10 * MS_PER_DAY)%Z None false;
                  mkLeague "M" "bob" LeagueStatus.active ["a"; "b"] 0%Z
                    (10 * MS_PER_DAY)%Z None true]
                 [mkFixture "M" "a" "b" 0%Z None scheduled] in
  let after_post := fst (POST 0%Z (Some "ann") "L" db) in
  let after_delete := fst (DELETE MS_PER_DAY (Some "ann") "L" db) in
  findById "M" after_post = findById "M" db
  /\ filter (fun f => (league f =? "M")%string) (matches after_post)
     = filter (fun f => (league f =? "M")%string) (matches db)
  /\ findById "M" after_delete = findById "M" db
  /\ filter (fun f => (league f =? "M")%string) (matches after_delete)
     = filter (fun f => (league f =? "M")%string) (matches db).
Proof.
  apply (other_leagues_are_untouched 0%Z MS_PER_DAY (Some "ann") "L" "M").
  discriminate.
Defined.

(** A [POST] that comes after the start date writes the fixtures and then
    fails at [league.save()]: the league is not marked, and a second [POST]
    finds the fixtures and is refused. *)
Example generation_after_the_start_leaves_fixtures :
  let l := mkLeague "L" "ann" LeagueStatus.draft ["a"; "b"; "c"] 0%Z
             (10 * MS_PER_DAY)%Z None false in
  let fixtures :=
    [mkFixture "L" "b" "c" 0%Z None scheduled;
     mkFixture "L" "a" "c" (3 * MS_PER_DAY)%Z None scheduled;
     mkFixture "L" "a" "b" (6 * MS_PER_DAY)%Z None scheduled] in
  POST MS_PER_DAY (Some "ann") "L" (mkDb [l] [])
  = (mkDb [l] fixtures, inl LeagueSaveRefused)
  /\ POST MS_PER_DAY (Some "ann") "L" (mkDb [l] fixtures)
     = (mkDb [l] fixtures, inl ScheduleExists).
Proof. split; reflexivity. Qed.

(** A [DELETE] that comes after the start date deletes the fixtures and
    then fails at [league.save()]. *)
Example clearing_after_the_start_loses_fixtures :
  let l := mkLeague "L" "ann" LeagueStatus.draft ["a"; "b"] 0%Z
             (10 * MS_PER_DAY)%Z None true in
  DELETE MS_PER_DAY (Some "ann") "L"
    (mkDb [l] [mkFixture "L" "a" "b" 0%Z None scheduled])
  = (mkDb [l] [], inl LeagueSaveRefused).
Proof. reflexivity. Qed.

End ScheduleRoutes.

(** ** III.4  The methods of a match and the submission of its result *)

Section MatchMethodsFacts.

Import Standings MatchRoute Ledger Validation MatchMethods MatchFacts.

Lemma count_sets_pairs a b idxs wA wB :
  count_sets a b idxs wA wB
  = count_pairs (map (fun i => (at_index a i, at_index b i)) idxs) wA wB.
Proof.
  revert wA wB; induction idxs as [|i idxs IH]; intros wA wB; [reflexivity|].
  cbn [count_sets map count_pairs fst snd].
  destruct (js_gt (at_index a i) (at_index b i)); [apply IH|].
  destruct (js_gt (at_index b i) (at_index a i)); apply IH.
Qed.

Lemma count_pairs_both ps wA wB :
  count_pairs (map both ps) wA wB
  = (wA + List.length (filter a_wins ps), wB + List.length (filter b_wins ps)).
Proof.
  revert wA wB; induction ps as [|[x y] ps IH]; intros wA wB.
  - cbn. now rewrite !Nat.add_0_r.
  - cbn [map count_pairs both fst snd js_gt filter].
    unfold a_wins at 1, b_wins at 1. cbn [fst snd].
    destruct (Z.gtb_spec x y), (Z.gtb_spec y x); try lia;
      rewrite IH; cbn [List.length]; f_equal; lia.
Qed.

Lemma count_sets_wins a b :
  List.length a = List.length b ->
  count_sets a b (seq 0 (List.length a)) 0 0
  = (List.length (filter a_wins (combine a b)),
     List.length (filter a_wins (combine b a))).
Proof.
  intros Hlen. rewrite count_sets_pairs, sets_read, count_pairs_both by assumption.
  now rewrite filter_wins_swap.
Qed.

Lemma hasValidResult_spec (m : Match) :
  hasValidResult m = true
  <-> exists r,
        result m = Some r
        /\ List.length (teamAScore r) = List.length (teamBScore r)
        /\ teamAScore r <> []
        /\ List.length (filter a_wins (combine (teamAScore r) (teamBScore r)))
           <> List.length (filter a_wins (combine (teamBScore r) (teamAScore r))).
Proof.
  unfold hasValidResult. destruct (result m) as [r|].
  2:{ split; [discriminate | intros (r & E & _); discriminate]. }
  destruct (Nat.eqb_spec (List.length (teamAScore r)) (List.length (teamBScore r)))
    as [Hlen|Hlen]; cbn [negb].
  2:{ split; [discriminate | intros (r' & E & ? & _); injection E as <-; contradiction]. }
  destruct (Nat.eqb_spec (List.length (teamAScore r)) 0) as [H0|H0].
  { apply length_zero_iff_nil in H0.
    split; [discriminate | intros (r' & E & _ & ? & _); injection E as <-; contradiction]. }
  rewrite count_sets_wins by assumption.
  rewrite negb_true_iff, Nat.eqb_neq. split.
  - intros Hw. exists r. repeat split; auto.
    intros E. rewrite E in H0. now apply H0.
  - intros (r' & E & _ & _ & Hw). now injection E as <-.
Qed.

(** X10. [hasValidResult] holds exactly for a stored result with as many
    sets on both sides, at least one, and different numbers of set wins; a
    tied set is passed over, not refused.  [calculateWinner] names a winner
    exactly when [hasValidResult] holds, and then it is the team with more
    set wins: team A or team B of the match, never anyone else. *)
Theorem match_methods_characterised (m : Match) :
  (hasValidResult m = true
   <-> exists r,
         result m = Some r
         /\ List.length (teamAScore r) = List.length (teamBScore r)
         /\ teamAScore r <> []
         /\ set_wins (teamAScore r) (teamBScore r)
            <> set_wins (teamBScore r) (teamAScore r))
  /\ (calculateWinner m = None <-> hasValidResult m = false)
  /\ (forall w, calculateWinner m = Some w ->
        exists r,
          result m = Some r
          /\ ((w = teamA m
               /\ (set_wins (teamBScore r) (teamAScore r)
                   < set_wins (teamAScore r) (teamBScore r))%Z)
              \/ (w = teamB m
                  /\ (set_wins (teamAScore r) (teamBScore r)
                      < set_wins (teamBScore r) (teamAScore r))%Z))).
Proof.
  split.
  - rewrite hasValidResult_spec. split; intros (r & E & Hlen & Hne & Hw);
      exists r; repeat split; auto; rewrite ?set_wins_filter in *; lia.
  - unfold calculateWinner.
    destruct (hasValidResult m) eqn:Hv; cbn [negb].
    2:{ split; [tauto | discriminate]. }
    pose proof Hv as Hv'. apply hasValidResult_spec in Hv'.
    destruct Hv' as (r & E & Hlen & Hne & Hw).
    rewrite E, count_sets_wins by assumption.
    assert (SA : set_wins (teamAScore r) (teamBScore r)
                 = Z.of_nat (List.length (filter a_wins
                               (combine (teamAScore r) (teamBScore r)))))
      by apply set_wins_filter.
    assert (SB : set_wins (teamBScore r) (teamAScore r)
                 = Z.of_nat (List.length (filter a_wins
                               (combine (teamBScore r) (teamAScore r)))))
      by apply set_wins_filter.
    set (wA := List.length (filter a_wins (combine (teamAScore r) (teamBScore r)))) in *.
    set (wB := List.length (filter a_wins (combine (teamBScore r) (teamAScore r)))) in *.
    destruct (Nat.ltb_spec wB wA); [|destruct (Nat.ltb_spec wA wB); [|lia]].
    + split; [split; discriminate|]. intros w Ew. injection Ew as <-.
      exists r. split; [reflexivity|]. left. split; [reflexivity | lia].
    + split; [split; discriminate|]. intros w Ew. injection Ew as <-.
      exists r. split; [reflexivity|]. right. split; [reflexivity | lia].
Qed.

End MatchMethodsFacts.

Section SubmitRouteFacts.

Import Standings MatchRoute Ledger Validation MatchMethods MatchFacts SubmitRoute.

(** What an accepted submission was given and what it stored. *)
Lemma submitResult_ok now userId lg data db db1 :
  submitResult now userId lg data db = (db1, inr tt) ->
  exists a b winnerId,
    req_teamAScore data = Some a /\ req_teamBScore data = Some b
    /\ valid_result a b
    /\ ((winnerId = teamA (match_doc db)
         /\ (set_wins b a < set_wins a b)%Z)
        \/ (winnerId = teamB (match_doc db)
            /\ (set_wins a b < set_wins b a)%Z))
    /\ db1 = accepted now userId lg (req_notes data) a b winnerId db.
Proof.
  destruct data as [[a|] [b|] nt]; try discriminate.
  cbn [req_teamAScore req_teamBScore req_notes]. intros E.
  destruct (submit_cases now userId lg nt a b db)
    as [[E' _]|[[E' _]|[[E' _]|[[E' _]|(Hv & w & Hw & [[E' _]|[E' _]])]]]];
    cbv zeta in E'; rewrite E in E'; try discriminate.
  injection E' as ->. exists a, b, w. auto.
Qed.

Lemma submitResult_failed now userId lg data db db1 e :
  submitResult now userId lg data db = (db1, inl e) -> db1 = db.
Proof.
  intros E. pose proof (submit_no_write now userId lg data db e) as H.
  rewrite E in H. exact (H eq_refl).
Qed.

Lemma accepted_status now userId lg data db db1 :
  submitResult now userId lg data db = (db1, inr tt) ->
  MatchRoute.status (match_doc db1) = Schedule.completed.
Proof.
  intros E. apply submitResult_ok in E as (a & b & w & _ & _ & _ & _ & ->).
  reflexivity.
Qed.

(** X11. The route and the model agree on an accepted result: the stored
    match is completed, [hasValidResult] holds for it, and [calculateWinner]
    returns the winner the route recorded. *)
Theorem accepted_result_is_valid_for_the_model now userId lg data db db1 :
  submitResult now userId lg data db = (db1, inr tt) ->
  let m := match_doc db1 in
  MatchRoute.status m = Schedule.completed
  /\ submittedBy m = Some userId
  /\ hasValidResult m = true
  /\ exists r, result m = Some r /\ calculateWinner m = Some (winner r).
Proof.
  intros E. apply submitResult_ok in E
    as (a & b & w & _ & _ & (Hlen & Hne & Hnt & Hw) & Hwin & ->).
  cbv zeta. unfold accepted, completed_match.
  cbn [match_doc MatchRoute.status submittedBy result].
  set (m' := mkMatch _ _ _ _ _ _ _ _ _).
  assert (Hv : hasValidResult m' = true).
  { apply hasValidResult_spec. exists (mkMatchResult a b w).
    cbn [teamAScore teamBScore]. repeat split; auto.
    rewrite !set_wins_filter in Hw. lia. }
  repeat split; auto.
  exists (mkMatchResult a b w). split; [reflexivity|].
  unfold calculateWinner. rewrite Hv. cbn [negb].
  cbn [result m' teamAScore teamBScore winner teamA teamB].
  rewrite count_sets_wins by assumption.
  rewrite !set_wins_filter in Hwin.
  set (wA := List.length (filter a_wins (combine a b))) in *.
  set (wB := List.length (filter a_wins (combine b a))) in *.
  destruct Hwin as [[-> H]|[-> H]].
  - destruct (Nat.ltb_spec wB wA); [reflexivity | lia].
  - destruct (Nat.ltb_spec wB wA); [lia|].
    destruct (Nat.ltb_spec wA wB); [reflexivity | lia].
Qed.

Lemma accepted_result_is_valid_for_the_model_example :
  let m := match_doc
             (fst (submitResult 100%Z "u" (mkLeague "L" 3 0)
                     (mkRequest (Some [6; 4; 6]%Z) (Some [3; 6; 2]%Z) None)
                     (mkDb (mkMatch "L" "A" "B" Schedule.scheduled None None
                              None None None) []))) in
  MatchRoute.status m = Schedule.completed
  /\ submittedBy m = Some "u"
  /\ hasValidResult m = true
  /\ exists r, result m = Some r /\ calculateWinner m = Some (winner r).
Proof.
  exact (accepted_result_is_valid_for_the_model 100%Z "u" (mkLeague "L" 3 0)
           (mkRequest (Some [6; 4; 6]%Z) (Some [3; 6; 2]%Z) None)
           (mkDb (mkMatch "L" "A" "B" Schedule.scheduled None None None None None)
                 [])
           _ eq_refl).
Defined.

(** What a successful [POST] was given. *)
Lemma submit_POST_ok now ctx data db db1 :
  POST now ctx data db = (db1, inr tt) ->
  exists user lg,
    session ctx = Some user /\ league ctx = Some lg
    /\ (MatchRoute.status (match_doc db) = Schedule.scheduled
        \/ MatchRoute.status (match_doc db) = Schedule.in_progress)
    /\ (organizer ctx = user \/ isTeamAMember ctx = true
        \/ isTeamBMember ctx = true)
    /\ submitResult now user lg data db = (db1, inr tt).
Proof.
  unfold POST. destruct (session ctx) as [user|]; [|discriminate].
  destruct (league ctx) as [lg|]; [|discriminate].
  destruct (MatchRoute.status (match_doc db)) eqn:Hs; try discriminate.
  all: destruct (teamsFound ctx); cbn [negb]; [|discriminate].
  all: destruct (String.eqb_spec (organizer ctx) user) as [Ho|Ho];
       destruct (isTeamAMember ctx) eqn:HA; destruct (isTeamBMember ctx) eqn:HB;
       cbn [negb andb]; try discriminate.
  all: destruct (submitResult now user lg data db) as [db' [e|[]]] eqn:S;
       [discriminate|].
  all: intros E; injection E as <-; exists user, lg; repeat split; auto.
Qed.

Lemma submit_POST_failed now ctx data db db1 e :
  POST now ctx data db = (db1, inl e) -> db1 = db.
Proof.
  unfold POST.
  repeat match goal with
         | |- context [match ?c with _ => _ end] =>
             lazymatch c with
             | submitResult _ _ _ _ _ => fail
             | _ => destruct c
             end
         end; try (intros E; now injection E).
  all: destruct (submitResult _ _ _ _ _) as [db' [e'|[]]] eqn:S;
       intros E; injection E as <- ?; try discriminate;
       now apply submitResult_failed in S.
Qed.

(** X12. A result is submitted once: after a successful [POST] every
    further [POST] for the match, whoever sends it and whatever it carries,
    fails and leaves the match and the standings as they are. *)
Theorem result_is_submitted_once now ctx data db db1 :
  POST now ctx data db = (db1, inr tt) ->
  forall now' ctx' data', exists e, POST now' ctx' data' db1 = (db1, inl e).
Proof.
  intros E now' ctx' data'.
  apply submit_POST_ok in E as (user & lg & _ & _ & _ & _ & S).
  pose proof (accepted_status _ _ _ _ _ _ S) as Hs.
  unfold POST. rewrite Hs.
  destruct (session ctx'); [|eexists; reflexivity].
  destruct (league ctx'); eexists; reflexivity.
Qed.

(** X13. A [POST] changes the store only when it succeeds, and it only
    succeeds for the league organizer or a member of one of the two teams, on
    a match that is scheduled or in progress, with a valid result. *)
Theorem results_need_permission now ctx data db :
  let out := POST now ctx data db in
  (fst out = db /\ exists e, snd out = inl e)
  \/ (snd out = inr tt
      /\ exists user a b,
           session ctx = Some user
           /\ (organizer ctx = user \/ isTeamAMember ctx = true
               \/ isTeamBMember ctx = true)
           /\ (MatchRoute.status (match_doc db) = Schedule.scheduled
               \/ MatchRoute.status (match_doc db) = Schedule.in_progress)
           /\ req_teamAScore data = Some a /\ req_teamBScore data = Some b
           /\ valid_result a b
           /\ MatchRoute.status (match_doc (fst out)) = Schedule.completed).
Proof.
  cbv zeta. destruct (POST now ctx data db) as [db1 [e|[]]] eqn:E; cbn [fst snd].
  - left. apply submit_POST_failed in E. eauto.
  - right. split; [reflexivity|].
    apply submit_POST_ok in E as (user & lg & Hu & _ & Hs & Hp & S).
    pose proof (accepted_status _ _ _ _ _ _ S) as Hc.
    apply submitResult_ok in S as (a & b & w & Ea & Eb & Hv & _ & _).
    exists user, a, b. tauto.
Qed.

Lemma result_is_submitted_once_example :
  let db1 := fst (POST 100%Z (mkContext (Some "ann") (Some (mkLeague "L" 3 0))
                                "ann" true false false)
                    (mkRequest (Some [6; 6]%Z) (Some [2; 3]%Z) None)
                    (mkDb (mkMatch "L" "A" "B" Schedule.in_progress None
                             (Some 90%Z) None None None) [])) in
  exists e,
    POST 200%Z (mkContext (Some "bob") (Some (mkLeague "L" 3 0)) "ann" true true false)
         (mkRequest (Some [6; 6]%Z) (Some [2; 3]%Z) None) db1
    = (db1, inl e).
Proof.
  exact (result_is_submitted_once 100%Z
           (mkContext (Some "ann") (Some (mkLeague "L" 3 0)) "ann" true false false)
           (mkRequest (Some [6; 6]%Z) (Some [2; 3]%Z) None)
           (mkDb (mkMatch "L" "A" "B" Schedule.in_progress None (Some 90%Z)
                    None None None) [])
           _ eq_refl
           200%Z
           (mkContext (Some "bob") (Some (mkLeague "L" 3 0)) "ann" true true false)
           (mkRequest (Some [6; 6]%Z) (Some [2; 3]%Z) None)).
Defined.

End SubmitRouteFacts.

(** ** III.5  What an update of the standings keeps *)

Section StandingsKept.

Import Standings Ledger RankingMethods.

Lemma keys_rerank lg db :
  keys (assign_ranks 0 (sort_rankings (find_league lg db)) db) = keys db.
Proof.
  apply keys_assign_ranks. intros r Hr.
  apply (Permutation_in _ (sort_rankings_perm _)) in Hr.
  apply in_find_league in Hr as [Hr _]. now apply in_map.
Qed.

(** X14. An update keeps the unique index of the collection and loses no
    entry: the keys stay pairwise different, every former key is still there,
    the two teams of the match have an entry, and no other key appears. *)
Theorem update_keeps_unique_index now lg tA tB winnerId a b ppw ppl (db : Rankings) :
  NoDup (keys db) ->
  let db' := updateRankings now lg tA tB winnerId a b ppw ppl db in
  NoDup (keys db')
  /\ incl (keys db) (keys db')
  /\ In (lg, tA) (keys db') /\ In (lg, tB) (keys db')
  /\ (forall k, In k (keys db') -> In k (keys db) \/ k = (lg, tA) \/ k = (lg, tB)).
Proof.
  intros Hnd. cbv zeta. unfold updateRankings. rewrite keys_rerank.
  set (db1 := update_side now lg tA _ _ _ _ _ _ _ db).
  set (db2 := update_side now lg tB _ _ _ _ _ _ _ db1).
  assert (H1 : NoDup (keys db1)) by (unfold db1; auto using NoDup_keys_update_side).
  assert (H2 : NoDup (keys db2)) by (unfold db2; auto using NoDup_keys_update_side).
  split; [exact H2|].
  destruct (keys_update_side now lg tA (winnerId =? tA)%string
              (setsWonBy a b) (setsWonBy b a) (gamesWonBy a) (gamesWonBy b)
              ppw ppl db) as [[I1 K1]|[I1 K1]];
  destruct (keys_update_side now lg tB (winnerId =? tB)%string
              (setsWonBy b a) (setsWonBy a b) (gamesWonBy b) (gamesWonBy a)
              ppw ppl db1) as [[I2 K2]|[I2 K2]];
  fold db1 in K1, I2, K2; fold db2 in K2; rewrite K2; rewrite K1 in *;
  unfold incl; repeat split; intros; rewrite ?in_app_iff in *; cbn [In] in *;
  intuition auto.
Qed.

Lemma update_keeps_unique_index_example :
  let db := [mkRanking "L" "B" 1 1%Z 0%Z 1%Z 0%Z 2%Z 5%Z 12%Z 0%Z 0%Z;
             mkRanking "M" "A" 1 1%Z 1%Z 0%Z 2%Z 0%Z 12%Z 5%Z 3%Z 0%Z] in
  let db' := updateRankings 100%Z "L" "A" "B" "A" [6; 6]%Z [2; 3]%Z 3%Z 0%Z db in
  NoDup (keys db')
  /\ incl (keys db) (keys db')
  /\ In ("L", "A") (keys db') /\ In ("L", "B") (keys db')
  /\ (forall k, In k (keys db') -> In k (keys db) \/ k = ("L", "A") \/ k = ("L", "B")).
Proof.
  apply (update_keeps_unique_index 100%Z "L" "A" "B" "A" [6; 6]%Z [2; 3]%Z 3%Z 0%Z).
  repeat constructor; simpl; intuition discriminate.
Defined.

End StandingsKept.

Section StandingsKept2.

Import Standings Ledger RankingMethods.

Lemma find_league_save_other lg lg' doc db :
  league doc = lg -> lg' <> lg ->
  find_league lg' (save doc db) = find_league lg' db.
Proof.
  intros Hd Hne.
  assert (Hdoc : (league doc =? lg')%string = false)
    by (apply String.eqb_neq; congruence).
  unfold find_league. induction db as [|r db IH]; cbn [save filter].
  - now rewrite Hdoc.
  - destruct (same_doc r doc) eqn:E; cbn [filter].
    + apply same_doc_key in E. unfold key in E. injection E as E1 _.
      rewrite Hdoc. rewrite E1, Hdoc. reflexivity.
    + now rewrite IH.
Qed.

Lemma find_league_assign_other lg lg' i l db :
  (forall r, In r l -> league r = lg) -> lg' <> lg ->
  find_league lg' (assign_ranks i l db) = find_league lg' db.
Proof.
  revert i db; induction l as [|x l IH]; intros i db Hl Hne; [reflexivity|].
  cbn [assign_ranks]. rewrite IH by (auto; intros; apply Hl; now right).
  apply (find_league_save_other lg); [|assumption].
  cbn. apply Hl. now left.
Qed.

Lemma league_update now w sw sl gw gl ppw ppl r :
  league (updateWithMatchResult now w sw sl gw gl ppw ppl r) = league r.
Proof. unfold updateWithMatchResult. now destruct w. Qed.

Lemma league_entry_or_zero now lg tm db : league (entry_or_zero now lg tm db) = lg.
Proof.
  pose proof (key_entry_or_zero now lg tm db) as K. unfold key in K. now injection K.
Qed.

Lemma sorted_league lg db r :
  In r (sort_rankings (find_league lg db)) -> league r = lg.
Proof.
  intros Hr. apply (Permutation_in _ (sort_rankings_perm _)) in Hr.
  now apply in_find_league in Hr.
Qed.

(** X15. An update for one league leaves the entries of every other
    league exactly as they are, ranks included. *)
Theorem other_leagues_keep_their_standings now lg lg' tA tB winnerId a b ppw ppl
    (db : Rankings) :
  lg' <> lg ->
  find_league lg' (updateRankings now lg tA tB winnerId a b ppw ppl db)
  = find_league lg' db.
Proof.
  intros Hne. unfold updateRankings.
  rewrite (find_league_assign_other lg) by (auto; intros; eapply sorted_league; eauto).
  rewrite !update_side_save.
  rewrite !(find_league_save_other lg); auto;
    now rewrite league_update, league_entry_or_zero.
Qed.

Lemma other_leagues_keep_their_standings_example :
  find_league "M"
    (updateRankings 100%Z "L" "A" "B" "A" [6; 6]%Z [2; 3]%Z 3%Z 0%Z
       [mkRanking "M" "A" 1 1%Z 1%Z 0%Z 2%Z 0%Z 12%Z 5%Z 3%Z 0%Z;
        mkRanking "L" "B" 1 1%Z 1%Z 0%Z 2%Z 0%Z 12%Z 5%Z 3%Z 0%Z])
  = [mkRanking "M" "A" 1 1%Z 1%Z 0%Z 2%Z 0%Z 12%Z 5%Z 3%Z 0%Z].
Proof.
  apply (other_leagues_keep_their_standings 100%Z "L" "M" "A" "B" "A"
           [6; 6]%Z [2; 3]%Z 3%Z 0%Z
           [mkRanking "M" "A" 1 1%Z 1%Z 0%Z 2%Z 0%Z 12%Z 5%Z 3%Z 0%Z;
            mkRanking "L" "B" 1 1%Z 1%Z 0%Z 2%Z 0%Z 12%Z 5%Z 3%Z 0%Z]).
  discriminate.
Defined.

(** X16. A team of the league that did not play keeps all its counters;
    the update can only change its rank. *)
Theorem bystanders_keep_their_counters now lg tA tB winnerId a b ppw ppl
    (db : Rankings) tm r :
  NoDup (keys db) -> tm <> tA -> tm <> tB ->
  findOne lg tm db = Some r ->
  exists k,
    findOne lg tm (updateRankings now lg tA tB winnerId a b ppw ppl db)
    = Some (set_rank k r).
Proof.
  intros Hnd HA HB F. unfold updateRankings.
  set (db1 := update_side now lg tA _ _ _ _ _ _ _ db).
  set (db2 := update_side now lg tB _ _ _ _ _ _ _ db1).
  assert (H2 : NoDup (keys db2))
    by (unfold db2, db1; auto using NoDup_keys_update_side).
  apply rerank_keeps_entry; [assumption|].
  unfold db2, db1. rewrite !findOne_update_side_other by congruence. exact F.
Qed.

Lemma bystanders_keep_their_counters_example :
  exists k,
    findOne "L" "C"
      (updateRankings 100%Z "L" "A" "B" "A" [6; 6]%Z [2; 3]%Z 3%Z 0%Z
         [mkRanking "L" "C" 1 1%Z 0%Z 1%Z 0%Z 2%Z 5%Z 12%Z 0%Z 0%Z])
    = Some (set_rank k (mkRanking "L" "C" 1 1%Z 0%Z 1%Z 0%Z 2%Z 5%Z 12%Z 0%Z 0%Z)).
Proof.
  apply (bystanders_keep_their_counters 100%Z "L" "A" "B" "A" [6; 6]%Z [2; 3]%Z
           3%Z 0%Z [mkRanking "L" "C" 1 1%Z 0%Z 1%Z 0%Z 2%Z 5%Z 12%Z 0%Z 0%Z] "C").
  - repeat constructor. simpl. tauto.
  - discriminate.
  - discriminate.
  - reflexivity.
Defined.

End StandingsKept2.

Section RankOrder.

Import Standings Ledger RankingMethods.

Lemma sorted_positions (l : list Ranking) i j x y :
  StronglySorted in_rank_order l -> i < j ->
  nth_error l i = Some x -> nth_error l j = Some y -> in_rank_order x y.
Proof.
  intros Hl. revert i j. induction Hl as [|z l Hl IH Hz]; intros i j Hij Hi Hj.
  - destruct i; discriminate.
  - destruct j as [|j]; [lia|]. cbn in Hj. destruct i as [|i]; cbn in Hi.
    + injection Hi as <-. rewrite Forall_forall in Hz. apply Hz.
      eapply nth_error_In; eauto.
    + apply (IH i j); auto. lia.
Qed.

Lemma length_ranked i l : List.length (ranked i l) = List.length l.
Proof. revert i; induction l; intros; cbn [ranked List.length]; auto. Qed.

Lemma ranked_order sorted x y :
  StronglySorted in_rank_order sorted ->
  In x (ranked 0 sorted) -> In y (ranked 0 sorted) ->
  (((points x > points y)%Z
    \/ (points x = points y /\ matchesWon x > matchesWon y)%Z) ->
   rank x < rank y)
  /\ (rank x = rank y -> x = y)
  /\ 1 <= rank x <= List.length sorted.
Proof.
  intros Hs Hx Hy.
  apply in_ranked in Hx as (j & r & Ej & ->).
  apply in_ranked in Hy as (k & r' & Ek & ->).
  cbn [set_rank rank points matchesWon].
  assert (Hj : j < List.length sorted) by (apply nth_error_Some; congruence).
  split; [|split; [|lia]].
  - intros Hb. destruct (Nat.lt_trichotomy j k) as [H|[H|H]]; [lia| |].
    + subst k. rewrite Ej in Ek. injection Ek as <-. lia.
    + pose proof (sorted_positions _ _ _ _ _ Hs H Ek Ej) as Ho.
      unfold in_rank_order in Ho. lia.
  - intros E. assert (j = k) by lia. subst k. rewrite Ej in Ek. now injection Ek as <-.
Qed.

(** X17. After an update, within the league: an entry with more points,
    or with the same points and more matches won, has the smaller rank; two
    different entries never share a rank; every rank lies between 1 and the
    number of entries. *)
Theorem better_record_better_rank now lg tA tB winnerId a b ppw ppl
    (db : Rankings) x y :
  NoDup (keys db) ->
  let standings :=
    find_league lg (updateRankings now lg tA tB winnerId a b ppw ppl db) in
  In x standings -> In y standings ->
  (((points x > points y)%Z
    \/ (points x = points y /\ matchesWon x > matchesWon y)%Z) ->
   rank x < rank y)
  /\ (rank x = rank y -> x = y)
  /\ 1 <= rank x <= List.length standings.
Proof.
  intros Hnd. cbv zeta. unfold updateRankings.
  set (db1 := update_side now lg tA _ _ _ _ _ _ _ db).
  set (db2 := update_side now lg tB _ _ _ _ _ _ _ db1).
  assert (H2 : NoDup (keys db2))
    by (unfold db2, db1; auto using NoDup_keys_update_side).
  pose proof (rerank_stored lg db2 H2) as P. cbv zeta in P.
  intros Hx Hy.
  apply (Permutation_in _ (Permutation_sym P)) in Hx, Hy.
  rewrite <- (Permutation_length P), length_ranked.
  apply ranked_order; auto using sort_rankings_sorted.
Qed.

Lemma better_record_better_rank_example :
  let x := mkRanking "L" "A" 1 1%Z 1%Z 0%Z 2%Z 0%Z 12%Z 5%Z 3%Z 100%Z in
  let y := mkRanking "L" "B" 2 2%Z 0%Z 2%Z 0%Z 4%Z 10%Z 24%Z 0%Z 100%Z in
  (((points x > points y)%Z
    \/ (points x = points y /\ matchesWon x > matchesWon y)%Z) ->
   rank x < rank y)
  /\ (rank x = rank y -> x = y)
  /\ 1 <= rank x <= 2.
Proof.
  apply (better_record_better_rank 100%Z "L" "A" "B" "A" [6; 6]%Z [2; 3]%Z 3%Z 0%Z
           [mkRanking "L" "B" 1 1%Z 0%Z 1%Z 0%Z 2%Z 5%Z 12%Z 0%Z 0%Z]).
  - repeat constructor. simpl. tauto.
  - vm_compute. tauto.
  - vm_compute. tauto.
Defined.

End RankOrder.

Section Totals.

Import Standings Ledger RankingMethods.

Local Abbreviation total f l := (fold_right (fun r acc => (f r + acc)%Z) 0%Z l).

Lemma total_perm (f : Ranking -> Z) l l' :
  Permutation l l' -> total f l = total f l'.
Proof.
  induction 1 as [|x l l' _ IH|x y l|l l' l'' _ IH1 _ IH2]; cbn [fold_right];
    first [lia | congruence].
Qed.

Lemma total_ranked (f : Ranking -> Z) i l :
  (forall k r, f (set_rank k r) = f r) ->
  total f (ranked i l) = total f l.
Proof.
  intros Hf. revert i; induction l as [|x l IH]; intros i; [reflexivity|].
  cbn [ranked fold_right]. now rewrite Hf, IH.
Qed.

Lemma league_total_rerank f lg db :
  NoDup (keys db) -> (forall k r, f (set_rank k r) = f r) ->
  league_total f lg (assign_ranks 0 (sort_rankings (find_league lg db)) db)
  = league_total f lg db.
Proof.
  intros Hnd Hf. unfold league_total.
  pose proof (rerank_stored lg db Hnd) as P. cbv zeta in P.
  rewrite <- (total_perm f _ _ P), total_ranked by assumption.
  apply total_perm, sort_rankings_perm.
Qed.

(** Saving the updated entry of a team moves the league's total by what
    the entry gained. *)
Lemma league_total_save f lg tm doc db now :
  key doc = (lg, tm) ->
  f (newRanking now lg tm) = 0%Z ->
  league_total f lg (save doc db)
  = (league_total f lg db + f doc - f (entry_or_zero now lg tm db))%Z.
Proof.
  intros Hk H0. unfold league_total, find_league, entry_or_zero.
  assert (Hl : (league doc =? lg)%string = true).
  { apply String.eqb_eq. unfold key in Hk. now injection Hk. }
  induction db as [|r db IH]; cbn [save filter findOne find fold_right].
  - rewrite Hl. cbn [fold_right]. lia.
  - fold (findOne lg tm db). destruct (same_doc r doc) eqn:E.
    + apply same_doc_key in E. rewrite Hk in E.
      pose proof E as E'. apply key_eqb in E'. rewrite E'.
      unfold key in E. injection E as E1 _. rewrite E1, String.eqb_refl.
      cbn [filter]. rewrite Hl. cbn [fold_right]. lia.
    + assert (E' : (league r =? lg)%string && (team r =? tm)%string = false).
      { destruct ((league r =? lg)%string && (team r =? tm)%string) eqn:K;
          [|reflexivity].
        apply key_eqb in K. rewrite <- Hk in K.
        apply (proj2 (same_doc_key r doc)) in K. congruence. }
      rewrite E'. cbn [filter].
      destruct (league r =? lg)%string; cbn [fold_right]; rewrite IH; lia.
Qed.

Lemma league_total_update_side f now lg tm w sw sl gw gl ppw ppl db :
  f (newRanking now lg tm) = 0%Z ->
  league_total f lg (update_side now lg tm w sw sl gw gl ppw ppl db)
  = (league_total f lg db
     + f (updateWithMatchResult now w sw sl gw gl ppw ppl (entry_or_zero now lg tm db))
     - f (entry_or_zero now lg tm db))%Z.
Proof.
  intros H0. rewrite update_side_save. apply league_total_save; [|assumption].
  now rewrite key_update, key_entry_or_zero.
Qed.

(** X18. An update keeps the books of the league balanced: the set
    differentials and the game differentials of its entries add up to what
    they added up to before, so to 0 in a league that started empty; and when
    the recorded winner is one of the two different teams, so do matches won
    minus matches lost, while the matches played grow by 2. *)
Theorem league_totals_are_balanced now lg tA tB winnerId a b ppw ppl (db : Rankings) :
  NoDup (keys db) ->
  let db' := updateRankings now lg tA tB winnerId a b ppw ppl db in
  league_total getSetDifferential lg db' = league_total getSetDifferential lg db
  /\ league_total getGameDifferential lg db' = league_total getGameDifferential lg db
  /\ (tA <> tB -> winnerId = tA \/ winnerId = tB ->
      league_total match_balance lg db' = league_total match_balance lg db
      /\ league_total matchesPlayed lg db'
         = (league_total matchesPlayed lg db + 2)%Z).
Proof.
  intros Hnd. cbv zeta. unfold updateRankings.
  set (db1 := update_side now lg tA _ _ _ _ _ _ _ db).
  set (db2 := update_side now lg tB _ _ _ _ _ _ _ db1).
  assert (H2 : NoDup (keys db2))
    by (unfold db2, db1; auto using NoDup_keys_update_side).
  rewrite !league_total_rerank by (auto; intros; reflexivity).
  unfold db2, db1.
  rewrite !league_total_update_side by reflexivity.
  unfold getSetDifferential, getGameDifferential, match_balance, updateWithMatchResult.
  split; [|split; [|intros Hne Hwin; split]].
  - destruct (winnerId =? tA)%string, (winnerId =? tB)%string;
      cbn [setsWon setsLost]; lia.
  - destruct (winnerId =? tA)%string, (winnerId =? tB)%string;
      cbn [gamesWon gamesLost]; lia.
  - destruct Hwin as [-> | ->].
    + rewrite String.eqb_refl.
      replace (tA =? tB)%string with false by (symmetry; now apply String.eqb_neq).
      cbn [matchesWon matchesLost]. lia.
    + rewrite String.eqb_refl.
      replace (tB =? tA)%string with false
        by (symmetry; apply String.eqb_neq; congruence).
      cbn [matchesWon matchesLost]. lia.
  - destruct (winnerId =? tA)%string, (winnerId =? tB)%string;
      cbn [matchesPlayed]; lia.
Qed.

Lemma league_totals_are_balanced_example :
  let db := [mkRanking "L" "B" 1 1%Z 0%Z 1%Z 0%Z 2%Z 5%Z 12%Z 0%Z 0%Z;
             mkRanking "L" "C" 1 1%Z 1%Z 0%Z 2%Z 0%Z 12%Z 5%Z 3%Z 0%Z] in
  let db' := updateRankings 100%Z "L" "A" "B" "A" [6; 6]%Z [2; 3]%Z 3%Z 0%Z db in
  league_total getSetDifferential "L" db' = league_total getSetDifferential "L" db
  /\ league_total getGameDifferential "L" db' = league_total getGameDifferential "L" db
  /\ ("A" <> "B" -> "A" = "A" \/ "A" = "B" ->
      league_total match_balance "L" db' = league_total match_balance "L" db
      /\ league_total matchesPlayed "L" db'
         = (league_total matchesPlayed "L" db + 2)%Z).
Proof.
  apply (league_totals_are_balanced 100%Z "L" "A" "B" "A" [6; 6]%Z [2; 3]%Z 3%Z 0%Z
           [mkRanking "L" "B" 1 1%Z 0%Z 1%Z 0%Z 2%Z 5%Z 12%Z 0%Z 0%Z;
            mkRanking "L" "C" 1 1%Z 1%Z 0%Z 2%Z 0%Z 12%Z 5%Z 3%Z 0%Z]).
  repeat constructor; simpl; intuition discriminate.
Defined.

End Totals.

Section RecomputeTwice.

Import Standings Ledger RankingMethods Rerank.

Lemma findOne_head r db : findOne (league r) (team r) (r :: db) = Some r.
Proof.
  rewrite findOne_cons.
  replace ((league r =? league r)%string && (team r =? team r)%string) with true;
    [reflexivity|]. symmetry. now apply key_eqb.
Qed.

Lemma findOne_tail x r db :
  key x <> key r -> findOne (league r) (team r) (x :: db) = findOne (league r) (team r) db.
Proof.
  intros Hk. rewrite findOne_cons.
  destruct ((league x =? league r)%string && (team x =? team r)%string) eqn:E;
    [|reflexivity].
  apply key_eqb in E. contradiction.
Qed.

(** Two collections with the same keys in the same order: the second is
    the first with every document replaced by the one stored in the second. *)
Lemma same_keys_map db1 db2 :
  keys db1 = keys db2 -> NoDup (keys db1) -> db2 = map (stored_as db2) db1.
Proof.
  revert db2; induction db1 as [|x db1 IH]; intros [|y db2] Hk Hnd;
    try discriminate; [reflexivity|].
  cbn [keys map] in Hk, Hnd.
  assert (Hl : league x = league y) by (unfold key in Hk; now injection Hk).
  assert (Ht : team x = team y) by (unfold key in Hk; now injection Hk).
  assert (Hk' : keys db1 = keys db2) by (unfold key in Hk; now injection Hk).
  apply NoDup_cons_iff in Hnd as [Hx Hnd].
  cbn [map]. f_equal.
  - unfold stored_as. rewrite Hl, Ht. now rewrite findOne_head.
  - rewrite (IH db2 Hk' Hnd) at 1. apply map_ext_in. intros r Hr.
    unfold stored_as. rewrite findOne_tail; [reflexivity|].
    intros E. apply Hx. replace (key x) with (key r).
    + now apply in_map.
    + rewrite <- E. unfold key. now rewrite Hl, Ht.
Qed.

Lemma stored_as_rerank lg db r :
  NoDup (keys db) -> In r db ->
  (league r = lg ->
   exists j, nth_error (sort_rankings (find_league lg db)) j = Some r
             /\ stored_as (rerank lg db) r = set_rank (j + 1) r)
  /\ (league r <> lg -> stored_as (rerank lg db) r = r).
Proof.
  intros Hnd Hr. split.
  - intros Hl.
    assert (Hs : In r (sort_rankings (find_league lg db))).
    { apply (Permutation_in _ (Permutation_sym (sort_rankings_perm _))).
      now apply in_find_league. }
    apply In_nth_error in Hs as [j Hj]. exists j. split; [assumption|].
    unfold stored_as, rerank. rewrite (findOne_assign_ranks_at 0 _ db j r); auto.
    unfold keys. rewrite (sort_rankings_perm (find_league lg db)).
    now apply NoDup_keys_find_league.
  - intros Hl. unfold stored_as, rerank.
    rewrite findOne_assign_ranks_other.
    + now rewrite (findOne_In db r Hnd Hr).
    + intros Hin. apply in_map_iff in Hin as (x & Hk & Hx).
      apply sorted_league in Hx. unfold key in Hk. injection Hk as E _. congruence.
Qed.

Lemma stored_as_counters lg db r :
  NoDup (keys db) -> In r db ->
  league (stored_as (rerank lg db) r) = league r
  /\ points (stored_as (rerank lg db) r) = points r
  /\ matchesWon (stored_as (rerank lg db) r) = matchesWon r.
Proof.
  intros Hnd Hr. destruct (stored_as_rerank lg db r Hnd Hr) as [H1 H2].
  destruct (String.string_dec (league r) lg) as [E|E].
  - destruct (H1 E) as (j & _ & ->). now cbn.
  - now rewrite (H2 E).
Qed.

Lemma find_league_map lg (g : Ranking -> Ranking) l :
  (forall r, In r l -> league (g r) = league r) ->
  find_league lg (map g l) = map g (find_league lg l).
Proof.
  intros Hg. unfold find_league. induction l as [|x l IH]; [reflexivity|].
  cbn [map filter]. rewrite (Hg x) by now left.
  rewrite IH by (intros; apply Hg; now right).
  now destruct (league x =? lg)%string.
Qed.

Lemma sorts_before_ext x y x' y' :
  points x' = points x -> matchesWon x' = matchesWon x ->
  points y' = points y -> matchesWon y' = matchesWon y ->
  sorts_before x' y' = sorts_before x y.
Proof. unfold sorts_before. now intros -> -> -> ->. Qed.

Lemma insert_sorted_map (g : Ranking -> Ranking) x l :
  (forall r, In r (x :: l) ->
     points (g r) = points r /\ matchesWon (g r) = matchesWon r) ->
  insert_sorted (g x) (map g l) = map g (insert_sorted x l).
Proof.
  intros Hg. induction l as [|y l IH]; [reflexivity|].
  cbn [map insert_sorted].
  rewrite (sorts_before_ext y x (g y) (g x));
    try (apply Hg; cbn; tauto).
  destruct (sorts_before y x); cbn [map]; [|reflexivity].
  rewrite IH; [reflexivity|]. intros r Hr. apply Hg. cbn in *. tauto.
Qed.

Lemma sort_rankings_map (g : Ranking -> Ranking) l :
  (forall r, In r l -> points (g r) = points r /\ matchesWon (g r) = matchesWon r) ->
  sort_rankings (map g l) = map g (sort_rankings l).
Proof.
  intros Hg. induction l as [|x l IH]; [reflexivity|].
  cbn [map sort_rankings fold_right]. fold (sort_rankings (map g l)).
  fold (sort_rankings l). rewrite IH by (intros; apply Hg; now right).
  apply insert_sorted_map. intros r Hr. apply Hg.
  destruct Hr as [<-|Hr]; [now left | right].
  now apply (Permutation_in _ (sort_rankings_perm l)).
Qed.

Lemma map_ranked (g : Ranking -> Ranking) i l :
  (forall j r, nth_error l j = Some r -> g r = set_rank (i + j + 1) r) ->
  map g l = ranked i l.
Proof.
  revert i; induction l as [|x l IH]; intros i Hg; [reflexivity|].
  cbn [map ranked]. f_equal.
  - rewrite (Hg 0 x eq_refl). f_equal. lia.
  - apply IH. intros j r Hj. rewrite (Hg (S j) r Hj). f_equal. lia.
Qed.

Lemma rerank_sorted lg db :
  NoDup (keys db) ->
  sort_rankings (find_league lg (rerank lg db))
  = ranked 0 (sort_rankings (find_league lg db)).
Proof.
  intros Hnd.
  assert (Hk : keys db = keys (rerank lg db)) by (symmetry; apply keys_rerank).
  rewrite (same_keys_map db (rerank lg db) Hk Hnd) at 1.
  rewrite find_league_map
    by (intros r Hr; now apply (stored_as_counters lg db r Hnd Hr)).
  rewrite sort_rankings_map.
  2:{ intros r Hr. apply in_find_league in Hr as [Hr _].
      now apply (stored_as_counters lg db r Hnd Hr). }
  apply map_ranked. intros j r Hj. cbn [Nat.add].
  assert (Hr : In r db /\ league r = lg).
  { apply in_find_league. apply (Permutation_in _ (sort_rankings_perm _)).
    eapply nth_error_In; eauto. }
  destruct (stored_as_rerank lg db r Hnd (proj1 Hr)) as [H1 _].
  destruct (H1 (proj2 Hr)) as (j' & Hj' & ->).
  f_equal.
  assert (Hks : NoDup (sort_rankings (find_league lg db))).
  { apply NoDup_keys_elements. unfold keys.
    rewrite (sort_rankings_perm (find_league lg db)).
    now apply NoDup_keys_find_league. }
  assert (j' = j); [|lia].
  apply (proj1 (NoDup_nth_error _) Hks); [|congruence].
  apply nth_error_Some. congruence.
Qed.

Lemma nth_error_ranked i l k r :
  nth_error l k = Some r ->
  nth_error (ranked i l) k = Some (set_rank (i + k + 1) r).
Proof.
  revert i k; induction l as [|y l IH]; intros i k Hk; [destruct k; discriminate|].
  destruct k as [|k]; cbn in Hk |- *.
  - injection Hk as ->. now rewrite Nat.add_0_r.
  - rewrite (IH (S i) k Hk). do 2 f_equal. lia.
Qed.

Lemma same_lookups db1 db2 :
  keys db1 = keys db2 -> NoDup (keys db1) ->
  (forall lg tm, findOne lg tm db1 = findOne lg tm db2) -> db1 = db2.
Proof.
  intros Hk Hnd H. rewrite (same_keys_map db1 db2 Hk Hnd).
  rewrite <- (map_id db1) at 1. apply map_ext_in. intros r Hr.
  unfold stored_as. now rewrite <- H, (findOne_In db1 r Hnd Hr).
Qed.

Lemma rerank_twice lg db :
  NoDup (keys db) -> rerank lg (rerank lg db) = rerank lg db.
Proof.
  intros Hnd.
  assert (Hk1 : keys (rerank lg db) = keys db) by apply keys_rerank.
  assert (Hnd1 : NoDup (keys (rerank lg db))) by now rewrite Hk1.
  apply same_lookups.
  - unfold rerank at 1. apply keys_rerank.
  - unfold rerank at 1. now rewrite keys_rerank.
  - intros lg' tm. unfold rerank at 1. rewrite (rerank_sorted lg db Hnd).
    set (S := sort_rankings (find_league lg db)).
    assert (dec : forall x y : string * string, {x = y} + {x <> y})
      by (decide equality; apply String.string_dec).
    destruct (in_dec dec (lg', tm) (keys (ranked 0 S))) as [Hin|Hin].
    + apply in_map_iff in Hin as (x & Hx & Hin).
      pose proof Hin as Hin'. apply In_nth_error in Hin' as [j Hj].
      unfold key in Hx. injection Hx as <- <-.
      rewrite (findOne_assign_ranks_at 0 (ranked 0 S) _ j x).
      * assert (Hst : In x (rerank lg db)).
        { pose proof (rerank_stored lg db Hnd) as P. cbv zeta in P. fold S in P.
          apply (Permutation_in _ P) in Hin. now apply in_find_league in Hin. }
        rewrite (findOne_In _ x Hnd1 Hst). f_equal.
        apply in_ranked in Hin as (k & r & Hk & ->).
        pose proof (nth_error_ranked 0 S k r Hk) as E.
        assert (Hnr : NoDup (ranked 0 S)).
        { apply NoDup_keys_elements. rewrite keys_ranked. unfold keys, S.
          rewrite (sort_rankings_perm (find_league lg db)).
          now apply NoDup_keys_find_league. }
        assert (j = k).
        { apply (proj1 (NoDup_nth_error _) Hnr); [|congruence].
          apply nth_error_Some. congruence. }
        subst j. reflexivity.
      * rewrite keys_ranked. unfold keys, S.
        rewrite (sort_rankings_perm (find_league lg db)).
        now apply NoDup_keys_find_league.
      * exact Hj.
    + now rewrite findOne_assign_ranks_other.
Qed.

(** Without ties there is one sorted order only. *)
Lemma sorted_unique (l1 l2 : list Ranking) :
  (forall x y, In x l1 -> In y l1 ->
     points x = points y -> matchesWon x = matchesWon y -> x = y) ->
  Permutation l1 l2 ->
  StronglySorted in_rank_order l1 -> StronglySorted in_rank_order l2 ->
  l1 = l2.
Proof.
  intros Hties Hp H1. revert l2 Hp.
  induction H1 as [|x l1 H1 IH Hx]; intros l2 Hp H2.
  - apply Permutation_nil in Hp. now subst.
  - destruct l2 as [|y l2]; [apply Permutation_sym, Permutation_nil in Hp; discriminate|].
    apply StronglySorted_inv in H2 as [H2 Hy].
    rewrite Forall_forall in Hx, Hy.
    assert (E : x = y).
    { assert (Hxin : In x (y :: l2)) by (apply (Permutation_in _ Hp); now left).
      assert (Hyin : In y (x :: l1))
        by (apply (Permutation_in _ (Permutation_sym Hp)); now left).
      destruct Hxin as [->|Hxin]; [reflexivity|].
      destruct Hyin as [->|Hyin]; [reflexivity|].
      pose proof (Hx y Hyin) as O1. pose proof (Hy x Hxin) as O2.
      unfold in_rank_order in O1, O2.
      apply Hties; [now left | now right | lia | lia]. }
    subst y. f_equal. apply IH; [|eapply Permutation_cons_inv; eauto | assumption].
    intros a b Ha Hb. apply Hties; now right.
Qed.

(** X22. Recomputing the ranks again changes nothing, when no two entries
    of the league agree on both points and matches won: whatever list the
    database returns for the league, sorted by points and then by matches
    won, storing the ranks 1, 2, ... along it leaves every document as the
    update left it. *)
Theorem recomputing_ranks_again_changes_nothing now lg tA tB winnerId a b ppw ppl
    (db : Rankings) (again : list Ranking) :
  NoDup (keys db) ->
  let db' := updateRankings now lg tA tB winnerId a b ppw ppl db in
  (forall x y, In x (find_league lg db') -> In y (find_league lg db') ->
     points x = points y -> matchesWon x = matchesWon y -> x = y) ->
  Permutation again (find_league lg db') ->
  StronglySorted in_rank_order again ->
  assign_ranks 0 again db' = db'.
Proof.
  intros Hnd db' Hties Hp Hs.
  assert (E : again = sort_rankings (find_league lg db')).
  { apply sorted_unique; auto using sort_rankings_sorted.
    - intros x y Hx Hy. apply Hties; eapply Permutation_in; eauto.
    - rewrite Hp. apply Permutation_sym, sort_rankings_perm. }
  rewrite E. fold (rerank lg db').
  unfold db', updateRankings.
  set (db1 := update_side now lg tA _ _ _ _ _ _ _ db).
  set (db2 := update_side now lg tB _ _ _ _ _ _ _ db1).
  assert (H2 : NoDup (keys db2))
    by (unfold db2, db1; auto using NoDup_keys_update_side).
  exact (rerank_twice lg db2 H2).
Qed.

Lemma recomputing_ranks_again_changes_nothing_example :
  let db' := updateRankings 100%Z "L" "A" "B" "A" [6; 6]%Z [2; 3]%Z 3%Z 0%Z
               [mkRanking "L" "B" 1 1%Z 0%Z 1%Z 0%Z 2%Z 5%Z 12%Z 0%Z 0%Z;
                mkRanking "M" "A" 1 1%Z 1%Z 0%Z 2%Z 0%Z 12%Z 5%Z 3%Z 0%Z] in
  assign_ranks 0
    [mkRanking "L" "A" 1 1%Z 1%Z 0%Z 2%Z 0%Z 12%Z 5%Z 3%Z 100%Z;
     mkRanking "L" "B" 2 2%Z 0%Z 2%Z 0%Z 4%Z 10%Z 24%Z 0%Z 100%Z] db'
  = db'.
Proof.
  apply (recomputing_ranks_again_changes_nothing 100%Z "L" "A" "B" "A"
           [6; 6]%Z [2; 3]%Z 3%Z 0%Z).
  - repeat constructor; simpl; intuition discriminate.
  - vm_compute. intros x y [<-|[<-|[]]] [<-|[<-|[]]] E1 E2;
      first [reflexivity | discriminate].
  - vm_compute. apply perm_swap.
  - repeat constructor.
Defined.

End RecomputeTwice.

(** ** III.6  The life of a match *)

Section MatchLifeFacts.

Import Standings MatchRoute PatchRoute MatchLife.
Import Schedule(MatchStatus, scheduled, in_progress, completed, canceled, postponed).

(** X19. [isValidMatchStatusTransition] accepts only the name of one of
    the five statuses, never the current one, and nothing at all for a match
    that is completed or canceled; a match is completed from in progress
    only, started from scheduled only, and rescheduled from postponed only. *)
Theorem transitions_follow_the_table (currentStatus : MatchStatus) (newStatus : string) :
  isValidMatchStatusTransition currentStatus newStatus = true ->
  exists new,
    status_of_name newStatus = Some new
    /\ status_name new = newStatus
    /\ new <> currentStatus
    /\ currentStatus <> completed /\ currentStatus <> canceled
    /\ (new = completed -> currentStatus = in_progress)
    /\ (new = in_progress -> currentStatus = scheduled)
    /\ (new = scheduled -> currentStatus = postponed).
Proof.
  unfold isValidMatchStatusTransition.
  destruct currentStatus; cbn [validTransitions existsb status_name];
    rewrite ?orb_false_r; try discriminate;
    rewrite ?orb_true_iff, !String.eqb_eq;
    intros H; repeat destruct H as [H|H]; subst newStatus;
    eexists; (split; [reflexivity|]); repeat split; congruence.
Qed.

Lemma transitions_follow_the_table_example :
  exists new,
    status_of_name "completed" = Some new
    /\ status_name new = "completed"
    /\ new <> in_progress
    /\ in_progress <> completed /\ in_progress <> canceled
    /\ (new = completed -> in_progress = in_progress)
    /\ (new = in_progress -> in_progress = scheduled)
    /\ (new = scheduled -> in_progress = postponed).
Proof.
  exact (transitions_follow_the_table in_progress "completed" eq_refl).
Defined.

Lemma valid_transition_named cur s :
  isValidMatchStatusTransition cur s = true ->
  exists new, status_of_name s = Some new /\ status_name new = s.
Proof.
  unfold isValidMatchStatusTransition.
  destruct cur; cbn [validTransitions existsb status_name];
    rewrite ?orb_false_r; try discriminate;
    rewrite ?orb_true_iff, !String.eqb_eq;
    intros H; repeat destruct H as [H|H]; subst s;
    eexists; split; reflexivity.
Qed.

(** The document [PATCH] builds from [m], and what [save()] does with it. *)
Lemma patch_finish data stored m date time place :
  let m' := match p_notes data with
            | Some n => with_notes m (Some n)
            | None => m
            end in
  let saved := mkDetails m' date time place in
  forall out : MatchDetails * (PatchError + MatchDetails),
    out = (if validate_details saved then (saved, inr saved)
           else (stored, inl SaveRefused)) ->
    (forall e, snd out = inl e -> fst out = stored /\ e <> InvalidStatus)
    /\ (forall saved', snd out = inr saved' ->
          fst out = saved' /\ validate_details saved' = true
          /\ MatchRoute.league (base saved') = MatchRoute.league m
          /\ teamA (base saved') = teamA m /\ teamB (base saved') = teamB m
          /\ submittedBy (base saved') = submittedBy m
          /\ MatchRoute.status (base saved') = MatchRoute.status m
          /\ result (base saved') = result m
          /\ actualStartTime (base saved') = actualStartTime m).
Proof.
  cbv zeta. intros out ->.
  destruct (validate_details _) eqn:V; cbn [fst snd].
  - split; [discriminate|]. intros saved' E. injection E as <-.
    split; [reflexivity|]. split; [exact V|].
    cbn [base]. destruct (p_notes data); repeat split; reflexivity.
  - split; [|discriminate]. intros e E. injection E as <-.
    split; [reflexivity | discriminate].
Qed.

(** X20. What a successful [PATCH] has done: it was sent by the league
    organizer for a match neither completed nor canceled; the document it
    stored passes the validators of the schema; league, teams and submitter
    are as before; the status either stays, or moves along the table to the
    status the request names; the result is kept, except that canceling
    clears it; starting the match records the start time.  A [PATCH] that
    fails writes nothing, and it never fails on the status it stores. *)
Theorem patch_moves_along_the_table now session organizer data stored :
  let out := PATCH now session organizer data stored in
  (forall e, snd out = inl e -> fst out = stored /\ e <> InvalidStatus)
  /\ (forall saved, snd out = inr saved ->
        let before := base stored in
        let after := base saved in
        fst out = saved
        /\ validate_details saved = true
        /\ session = organizer /\ session <> None
        /\ MatchRoute.status before <> completed
        /\ MatchRoute.status before <> canceled
        /\ MatchRoute.league after = MatchRoute.league before
        /\ teamA after = teamA before /\ teamB after = teamB before
        /\ submittedBy after = submittedBy before
        /\ match p_status data with
           | None =>
               MatchRoute.status after = MatchRoute.status before
               /\ result after = result before
               /\ actualStartTime after = actualStartTime before
           | Some s =>
               isValidMatchStatusTransition (MatchRoute.status before) s = true
               /\ status_name (MatchRoute.status after) = s
               /\ result after
                  = (if (s =? "canceled")%string then None else result before)
               /\ actualStartTime after
                  = (if (s =? "in_progress")%string then Some now
                     else actualStartTime before)
           end).
Proof.
  cbv zeta.
  assert (Fail : forall e0, e0 <> InvalidStatus ->
            (forall e, snd (stored, @inl PatchError MatchDetails e0) = inl e ->
                       fst (stored, @inl PatchError MatchDetails e0) = stored
                       /\ e <> InvalidStatus)
            /\ (forall saved, snd (stored, @inl PatchError MatchDetails e0) = inr saved ->
                  fst (stored, @inl PatchError MatchDetails e0) = saved
        /\ validate_details saved = true
        /\ session = organizer /\ session <> None
        /\ MatchRoute.status (base stored) <> completed
        /\ MatchRoute.status (base stored) <> canceled
        /\ MatchRoute.league (base saved) = MatchRoute.league (base stored)
        /\ teamA (base saved) = teamA (base stored) /\ teamB (base saved) = teamB (base stored)
        /\ submittedBy (base saved) = submittedBy (base stored)
        /\ match p_status data with
           | None =>
               MatchRoute.status (base saved) = MatchRoute.status (base stored)
               /\ result (base saved) = result (base stored)
               /\ actualStartTime (base saved) = actualStartTime (base stored)
           | Some s =>
               isValidMatchStatusTransition (MatchRoute.status (base stored)) s = true
               /\ status_name (MatchRoute.status (base saved)) = s
               /\ result (base saved)
                  = (if (s =? "canceled")%string then None else result (base stored))
               /\ actualStartTime (base saved)
                  = (if (s =? "in_progress")%string then Some now
                     else actualStartTime (base stored))
           end)).
  { intros e0 He0. cbn [fst snd]. split; [|discriminate].
    intros e E. injection E as <-. auto. }
  unfold PATCH.
  destruct session as [user|]; [|apply Fail; discriminate].
  destruct organizer as [org|]; [|apply Fail; discriminate].
  destruct (String.eqb_spec org user) as [->|Ho]; cbn [negb];
    [|apply Fail; discriminate].
  destruct (MatchRoute.status (base stored)) eqn:Hs;
    try (apply Fail; discriminate).
  all: destruct (p_status data) as [s|].
  all: try (destruct (isValidMatchStatusTransition _ s) eqn:Hv; cbn [negb];
            [|apply Fail; discriminate];
            destruct (valid_transition_named _ _ Hv) as (new & Hn & Hname);
            rewrite Hn).
  all: match goal with
       | |- context [if validate_details (mkDetails ?m' ?d ?t ?p) then _ else _] =>
           match m' with
           | match _ with Some n => with_notes ?m _ | None => _ end =>
               destruct (patch_finish data stored m d t p _ eq_refl) as [F1 F2]
           end
       end.
  all: split; [exact F1|].
  all: intros saved E; destruct (F2 saved E) as (G1 & G2 & G3 & G4 & G5 & G6 & G7 & G8 & G9).
  all: cbn [with_status MatchRoute.league teamA teamB submittedBy MatchRoute.status
            result actualStartTime] in *.
  all: repeat split; try congruence.
Qed.

Lemma step_closed w rq :
  MatchRoute.status (base (doc w)) = completed
  \/ MatchRoute.status (base (doc w)) = canceled ->
  step w rq = w.
Proof.
  intros Hs. destruct w as [d st]. cbn [doc standings] in *. destruct rq; cbn [step doc standings].
  - f_equal. unfold PATCH.
    destruct session; [|reflexivity]. destruct organizer; [|reflexivity].
    destruct (negb _); [reflexivity|].
    destruct Hs as [-> | ->]; reflexivity.
  - unfold SubmitRoute.POST. cbn [match_doc].
    assert (E : forall lg user,
               match MatchRoute.status (base d) with
               | scheduled | in_progress =>
                   let isLeagueOrganizer := (SubmitRoute.organizer ctx =? user)%string in
                   if negb (SubmitRoute.teamsFound ctx)
                   then (mkDb (base d) st, inl SubmitRoute.TeamsNotFound)
                   else if negb isLeagueOrganizer && negb (SubmitRoute.isTeamAMember ctx)
                           && negb (SubmitRoute.isTeamBMember ctx)
                   then (mkDb (base d) st, inl SubmitRoute.NotAllowed)
                   else
                     match submitResult now user lg data (mkDb (base d) st) with
                     | (db', inl e) => (db', inl (SubmitRoute.Invalid e))
                     | (db', inr tt) => (db', inr tt)
                     end
               | _ => (mkDb (base d) st, inl SubmitRoute.StatusNotAllowed)
               end = (mkDb (base d) st, inl SubmitRoute.StatusNotAllowed)).
    { intros lg user. destruct Hs as [-> | ->]; reflexivity. }
    destruct (SubmitRoute.session ctx); [|now destruct d].
    destruct (SubmitRoute.league ctx); [|now destruct d].
    rewrite E. now destruct d.
Qed.

(** X21. A match that is completed or canceled is final: no sequence of
    [PATCH] and result [POST] requests, by whomever, changes the match or the
    standings any more.  In particular a result, once accepted, is never
    replaced or counted again, and a match closed through [PATCH] never gets
    a result. *)
Theorem closed_matches_are_final (w : World) (rqs : list Request) :
  MatchRoute.status (base (doc w)) = completed
  \/ MatchRoute.status (base (doc w)) = canceled ->
  run rqs w = w.
Proof.
  intros Hs. unfold run. induction rqs as [|rq rqs IH]; [reflexivity|].
  cbn [fold_left]. rewrite step_closed by assumption. exact IH.
Qed.

Lemma closed_matches_are_final_example :
  let w := mkWorld
             (mkDetails
                (mkMatch "L" "A" "B" Schedule.completed
                   (Some (mkMatchResult [6; 6]%Z [2; 3]%Z "A"))
                   (Some 90%Z) (Some 100%Z) None (Some "ann"))
                50%Z None None)
             [mkRanking "L" "A" 1 1%Z 1%Z 0%Z 2%Z 0%Z 12%Z 5%Z 3%Z 100%Z;
              mkRanking "L" "B" 2 1%Z 0%Z 1%Z 0%Z 2%Z 5%Z 12%Z 0%Z 100%Z] in
  run [Submit 200%Z
         (SubmitRoute.mkContext (Some "ann") (Some (mkLeague "L" 3 0)) "ann"
            true false false)
         (mkRequest (Some [6; 6]%Z) (Some [2; 3]%Z) None);
       Patch 300%Z (Some "ann") (Some "ann")
         (mkPatch None None (Some "Court 2") (Some "scheduled") None)] w
  = w.
Proof.
  apply closed_matches_are_final. left. reflexivity.
Defined.

(** The format of [scheduledTime]. *)
Example time_format_examples :
  map time_format
      ["00:00"; "09:30"; "19:05"; "23:59"; "24:00"; "25:99"; "12:60"; "9:30";
       "09:3"; "09-30"; "09:300"]
  = [true; true; true; true; false; false; false; false; false; false; false].
Proof. reflexivity. Qed.

Example trim_examples :
  map trim ["  Court 2 "; "Court 2"; "   "; " a  b "]
  = ["Court 2"; "Court 2"; EmptyString; "a  b"].
Proof. reflexivity. Qed.

(** A [PATCH] with a time out of range is refused by [save()] and writes
    nothing; one with a location stores it trimmed. *)
Example patch_refuses_a_time_out_of_range :
  let stored :=
    mkDetails (mkMatch "L" "A" "B" scheduled None None None None None)
              50%Z None None in
  PATCH 100%Z (Some "ann") (Some "ann")
        (mkPatch None (Some "25:99") None None None) stored
  = (stored, inl SaveRefused)
  /\ snd (PATCH 100%Z (Some "ann") (Some "ann")
            (mkPatch None (Some "19:30") (Some " Court 2 ") (Some "in_progress")
               None) stored)
     = inr (mkDetails
              (mkMatch "L" "A" "B" in_progress None (Some 100%Z) None None None)
              50%Z (Some "19:30") (Some "Court 2")).
Proof. split; reflexivity. Qed.

End MatchLifeFacts.
